(** * openbikefit: the motion-analysis core

    A shallow embedding of [js/angles.js], [js/pose.js], [js/cadence.js],
    [js/analysis.js], [js/charts.js] and [js/main.js], and the properties of
    the specification stated over it.

    Numbers.  A JavaScript number is modelled by the rational ([Q]) that it
    denotes.  The sums, differences, products and quotients of [pose.js],
    [cadence.js] and [analysis.js] are rounded as the program rounds them:
    each operation yields [JS.rnd] of the exact result ([JS.add], [JS.sub],
    [JS.mul], [JS.quot]), for a rounding of the class [JS.Rounding]:
    monotone, exact on the integers below 2^53, and positive on positive
    numbers.  [JS.binary64] is the rounding of IEEE doubles, to the nearest
    double with ties to even; its exponent range is unbounded, so that
    overflow to [Infinity] and underflow, which need numbers beyond 1e308
    or below 1e-308, are left out.  [JS.exact] rounds nothing.  A number
    that rounds to itself is a [JS.Number]; the constant [0.01] of
    [cadence.js] is the [JS.Number] nearest to 1/100.

    Three places keep exact arithmetic.  In [angles.js] the results only
    feed [Math.atan2], a parameter.  In the classification of
    [analysis.js] the distance of the session mean to an integer bound of
    the target range is only compared with 10, which comes out the same
    on doubles.  In [main.js] and [charts.js] the margins are added to
    integer bounds.

    The two divisions of the source whose divisor can be zero
    ([60000 / period] and [|p - avg| / avg]) go through [JS.div], which
    yields [Infinity], [-Infinity] or [NaN] as JavaScript does.
    [Math.atan2], [Math.PI], [Math.sqrt] and the power operator are
    parameters of the sections that use them. *)

From Stdlib Require Import String.
From Stdlib Require Import QArith Qround Qabs Qminmax Lqa ZArith Lia Qpower.
From Stdlib Require Import List Bool Sorted.
Import ListNotations.
Open Scope Q_scope.

(* ================================================================== *)
(** ** JavaScript numbers and [Math] *)
(* ================================================================== *)

Module JS.

(** [a < b], [a <= b], [a > b] and [a === b] on finite numbers. *)
Definition ltb (a b : Q) : bool :=
  match a ?= b with Lt => true | _ => false end.

Definition leb (a b : Q) : bool := Qle_bool a b.

Definition gtb (a b : Q) : bool := ltb b a.

Definition geb (a b : Q) : bool := leb b a.

Definition eqb (a b : Q) : bool := Qeq_bool a b.

(** A number that may be the result of a division by zero. *)
Inductive num : Type :=
| Fin (q : Q)
| Infinity
| NegInfinity
| NaN.

(** The rounding of the results of arithmetic: [rnd x] is the number that
    the program holds when the exact result is [x]. *)
Class Rounding : Type := {
  rnd : Q -> Q;
  rnd_monotone : forall x y : Q, x <= y -> rnd x <= rnd y;
  rnd_integer :
    forall z : Z, (Z.abs z < 2 ^ 53)%Z -> rnd (inject_Z z) == inject_Z z;
  rnd_positive : forall x : Q, 0 < x -> 0 < rnd x
}.

(** Arithmetic without rounding. *)
Definition exact : Rounding :=
  {| rnd := fun x => x;
     rnd_monotone := fun _ _ H => H;
     rnd_integer := fun z _ => Qeq_refl (inject_Z z);
     rnd_positive := fun _ H => H |}.

(** The nearest integer, ties to the even one. *)
Definition round_even (q : Q) : Z :=
  let f := Qfloor q in
  match Qcompare (q - inject_Z f) (1 # 2) with
  | Lt => f
  | Gt => (f + 1)%Z
  | Eq => if Z.even f then f else (f + 1)%Z
  end.

Definition pow2 (e : Z) : Q := 2 ^ e.

(** The exponent of the binade of [x]: [2^(ilog2 x) <= |x| < 2^(ilog2 x + 1)]
    for [x] other than zero. *)
Definition ilog2 (x : Q) : Z :=
  let k := (Z.log2 (Z.abs (Qnum x)) - Z.log2 (Zpos (Qden x)))%Z in
  if Qle_bool (pow2 k) (Qabs x) then k else (k - 1)%Z.

(** The double nearest to [x], ties to even: [x] is scaled to a
    significand of 53 bits, which is rounded to an integer. *)
Definition core (x : Q) : Q :=
  let e := (ilog2 x - 52)%Z in
  inject_Z (round_even (x / pow2 e)) * pow2 e.

Definition binary64 (x : Q) : Q :=
  if Qeq_bool x 0 then 0 else Qred (core x).

Section Arithmetic.

Context {R : Rounding}.

(** [a + b], [a - b], [a * b] and, for a divisor other than zero,
    [a / b]. *)
Definition add (a b : Q) : Q := rnd (a + b).
Definition sub (a b : Q) : Q := rnd (a - b).
Definition mul (a b : Q) : Q := rnd (a * b).
Definition quot (a b : Q) : Q := rnd (a / b).

(** A value of the type [number]: it rounds to itself. *)
Definition Number (x : Q) : Prop := rnd x == x.

(** [a / b] for finite [a] and [b]; the divisors of the source are
    differences and sums of finite numbers, hence never [-0]. *)
Definition div (a b : Q) : num :=
  if eqb b 0 then
    if eqb a 0 then NaN
    else if ltb 0 a then Infinity else NegInfinity
  else Fin (quot a b).

(** [xs.reduce((s, v) => s + v, 0)]. *)
Definition sum (xs : list Q) : Q := fold_left add xs 0.

End Arithmetic.

(** [x < q] and [x > q] for a finite [q]; any comparison with [NaN] is
    false. *)
Definition num_ltb (x : num) (q : Q) : bool :=
  match x with
  | Fin a => ltb a q
  | NegInfinity => true
  | Infinity | NaN => false
  end.

Definition num_gtb (x : num) (q : Q) : bool :=
  match x with
  | Fin a => gtb a q
  | Infinity => true
  | NegInfinity | NaN => false
  end.

(** [Math.round] on a finite number: the nearest integer, ties towards
    [+Infinity]. *)
Definition round (q : Q) : Z := Qfloor (q + (1 # 2)).

Definition Math_round (x : num) : num :=
  match x with
  | Fin q => Fin (inject_Z (round q))
  | other => other
  end.

(** [Math.max(...xs)] and [Math.min(...xs)] on a list of finite numbers.
    With no argument JavaScript returns [-Infinity] (resp. [Infinity]);
    every call of the source passes at least one, and the head of the list
    seeds the fold. *)
Definition Math_max (xs : list Q) : Q :=
  match xs with
  | [] => 0
  | x :: rest => fold_left Qmax rest x
  end.

Definition Math_min (xs : list Q) : Q :=
  match xs with
  | [] => 0
  | x :: rest => fold_left Qmin rest x
  end.

(** [Math.max(...xs)] when the arguments may be non-finite: [NaN] is
    contagious and the empty maximum is [-Infinity]. *)
Definition num_max (a b : num) : num :=
  match a, b with
  | NaN, _ | _, NaN => NaN
  | Infinity, _ | _, Infinity => Infinity
  | NegInfinity, other | other, NegInfinity => other
  | Fin x, Fin y => Fin (Qmax x y)
  end.

Definition Math_max_num (xs : list num) : num :=
  fold_left num_max xs NegInfinity.

(** The last element of an array, [xs[xs.length - 1]], [None] standing for
    [undefined]. *)
Definition last_opt {A : Type} (xs : list A) : option A :=
  match xs with
  | [] => None
  | x :: rest => Some (last rest x)
  end.

End JS.

(* ================================================================== *)
(** ** Data model *)
(* ================================================================== *)

(** [{ knee, hip, torso, elbow }], the four angles of one frame. *)
Module AngleSet.
Record t : Type := mk { knee : Q; hip : Q; torso : Q; elbow : Q }.
End AngleSet.

(** The object passed to the cycle listener:
    [{ cycleNumber, timestamp, rpm,
       angles: { knee: { max }, hip: { min }, torso: { avg }, elbow: { avg } } }]. *)
Module CycleSummary.
Record angles_t : Type :=
  mk_angles { knee_max : Q; hip_min : Q; torso_avg : Q; elbow_avg : Q }.
Record t : Type :=
  mk { cycleNumber : nat; timestamp : Q; rpm : JS.num; angles : angles_t }.
End CycleSummary.

(* ================================================================== *)
(** ** js/angles.js *)
(* ================================================================== *)

Module Angles.

Inductive Side : Type := Left | Right.

(** One entry of the landmark array: [{ x, y, visibility? }]. *)
Record Landmark : Type :=
  mkLandmark { lm_x : Q; lm_y : Q; visibility : option Q }.

Record Point : Type := mkPoint { x : Q; y : Q }.

(** An object with the six keys of a side, in the order of
    [Object.entries]. *)
Record Joints (A : Type) : Type :=
  mkJoints { shoulder : A; elbow : A; wrist : A; hip : A; knee : A; ankle : A }.
Arguments mkJoints {A}.
Arguments shoulder {A}.
Arguments elbow {A}.
Arguments wrist {A}.
Arguments hip {A}.
Arguments knee {A}.
Arguments ankle {A}.

Definition SIDE_LANDMARKS (side : Side) : Joints nat :=
  match side with
  | Left => mkJoints 11 13 15 23 25 27
  | Right => mkJoints 12 14 16 24 26 28
  end%nat.

(** [Object.entries(indices)] without the names. *)
Definition entries {A : Type} (j : Joints A) : list A :=
  [shoulder j; elbow j; wrist j; hip j; knee j; ankle j].

(** The landmark array: an entry is [None] when it is [null] or
    [undefined]; an index past the end reads [undefined] as well. *)
Definition lookup (allLandmarks : list (option Landmark)) (idx : nat)
  : option Landmark :=
  match nth_error allLandmarks idx with
  | Some (Some lm) => Some lm
  | _ => None
  end.

(** The test of [getLandmarks] on one entry:
    [!lm || (lm.visibility !== undefined && lm.visibility < threshold)]. *)
Definition rejected (entry : option Landmark) (visibilityThreshold : Q) : bool :=
  match entry with
  | None => true
  | Some lm =>
      match visibility lm with
      | Some v => JS.ltb v visibilityThreshold
      | None => false
      end
  end.

(** One iteration of the loop of [getLandmarks]: [None] is the early
    [return null]. *)
Definition getLandmark (allLandmarks : list (option Landmark)) (aspectRatio : Q)
    (visibilityThreshold : Q) (idx : nat) : option Point :=
  match lookup allLandmarks idx with
  | None => None
  | Some lm =>
      if rejected (Some lm) visibilityThreshold then None
      else Some (mkPoint (lm_x lm * aspectRatio) (lm_y lm))
  end.

Definition getLandmarks (allLandmarks : list (option Landmark)) (side : Side)
    (aspectRatio : Q) (visibilityThreshold : Q) : option (Joints Point) :=
  let indices := SIDE_LANDMARKS side in
  let get := getLandmark allLandmarks aspectRatio visibilityThreshold in
  match get (shoulder indices) with None => None | Some p_shoulder =>
  match get (elbow indices) with None => None | Some p_elbow =>
  match get (wrist indices) with None => None | Some p_wrist =>
  match get (hip indices) with None => None | Some p_hip =>
  match get (knee indices) with None => None | Some p_knee =>
  match get (ankle indices) with None => None | Some p_ankle =>
    Some (mkJoints p_shoulder p_elbow p_wrist p_hip p_knee p_ankle)
  end end end end end end.

(** The default value of the parameter [visibilityThreshold]. *)
Definition DEFAULT_VISIBILITY_THRESHOLD : Q := 6 # 10.

Section Trigonometry.

(** [Math.atan2] and [Math.PI]. *)
Variable Math_atan2 : Q -> Q -> Q.
Variable Math_PI : Q.

Definition angleDeg (a b c : Point) : Q :=
  let v1x := x a - x b in
  let v1y := y a - y b in
  let v2x := x c - x b in
  let v2y := y c - y b in
  let dot := v1x * v2x + v1y * v2y in
  let cross := v1x * v2y - v1y * v2x in
  let rad := Math_atan2 (Qabs cross) dot in
  (rad * 180) / Math_PI.

Definition angleFromHorizontal (a b : Point) : Q :=
  let dx := x b - x a in
  let dy := y b - y a in
  let rad := Math_atan2 (Qabs dy) (Qabs dx) in
  (rad * 180) / Math_PI.

(** [computeAngles]; [None] is [null]. *)
Definition computeAngles (allLandmarks : list (option Landmark)) (side : Side)
    (aspectRatio : Q) : option AngleSet.t :=
  match getLandmarks allLandmarks side aspectRatio
          DEFAULT_VISIBILITY_THRESHOLD with
  | None => None
  | Some lm =>
      let knee' := angleDeg (hip lm) (knee lm) (ankle lm) in
      let hip' := angleDeg (shoulder lm) (hip lm) (knee lm) in
      let torso' := angleFromHorizontal (hip lm) (shoulder lm) in
      let elbow' := angleDeg (shoulder lm) (elbow lm) (wrist lm) in
      Some (AngleSet.mk knee' hip' torso' elbow')
  end.

End Trigonometry.

(** [getKneeLandmark(allLandmarks, side)]: the knee in raw normalized
    coordinates, [None] for [null]. *)
Definition getKneeLandmark (allLandmarks : list (option Landmark)) (side : Side)
  : option Point :=
  let indices := SIDE_LANDMARKS side in
  match lookup allLandmarks (knee indices) with
  | None => None
  | Some lm =>
      if rejected (Some lm) (6 # 10) then None
      else Some (mkPoint (lm_x lm) (lm_y lm))
  end.

End Angles.

(* ================================================================== *)
(** ** js/pose.js *)
(* ================================================================== *)

Module Pose.

(** [landmarks[i]?.visibility || 0]: the visibility of the entry, and [0]
    when the entry or its visibility is missing. *)
Definition visibility_or_zero (landmarks : list (option Angles.Landmark))
    (i : nat) : Q :=
  match Angles.lookup landmarks i with
  | Some lm =>
      match Angles.visibility lm with
      | Some v => v
      | None => 0
      end
  | None => 0
  end.

(** [detectVisibleSide(landmarks)]. *)
Definition detectVisibleSide {R : JS.Rounding}
    (landmarks : list (option Angles.Landmark)) : Angles.Side :=
  let leftIndices := [11; 13; 15; 23; 25; 27]%nat in
  let rightIndices := [12; 14; 16; 24; 26; 28]%nat in
  let leftVis :=
    fold_left (fun sum i => JS.add sum (visibility_or_zero landmarks i))
              leftIndices 0 in
  let rightVis :=
    fold_left (fun sum i => JS.add sum (visibility_or_zero landmarks i))
              rightIndices 0 in
  if JS.gtb leftVis rightVis then Angles.Left else Angles.Right.

End Pose.

(* ================================================================== *)
(** ** js/cadence.js *)
(* ================================================================== *)

Module Cadence.

Definition WINDOW_DURATION_MS : Q := 4000.
Definition MIN_CYCLES_FOR_STEADY : nat := 3.
Definition MAX_PERIOD_VARIATION : Q := 25 # 100.
Definition MIN_CADENCE_RPM : Q := 40.
Definition MAX_CADENCE_RPM : Q := 120.
Definition STOP_TIMEOUT_MS : Q := 2000.

(** [{ t, y }]: one knee position. *)
Record Sample : Type := mkSample { t : Q; y : Q }.

(** The fields of a [CadenceDetector].  [onCycleCallback] records whether
    a listener is registered ([false] is [null]); the summaries handed to
    the listener are the second component of what a method returns. *)
Record CadenceDetector : Type := mkDetector {
  samples : list Sample;
  peaks : list Q;
  troughs : list Q;
  isSteady : bool;
  lastCycleTime : Q;
  cycleCount : nat;
  onCycleCallback : bool;
  currentCycleAngles : list AngleSet.t
}.

Definition set_samples (d : CadenceDetector) (v : list Sample) :=
  mkDetector v (peaks d) (troughs d) (isSteady d) (lastCycleTime d)
    (cycleCount d) (onCycleCallback d) (currentCycleAngles d).

Definition set_peaks (d : CadenceDetector) (v : list Q) :=
  mkDetector (samples d) v (troughs d) (isSteady d) (lastCycleTime d)
    (cycleCount d) (onCycleCallback d) (currentCycleAngles d).

Definition set_troughs (d : CadenceDetector) (v : list Q) :=
  mkDetector (samples d) (peaks d) v (isSteady d) (lastCycleTime d)
    (cycleCount d) (onCycleCallback d) (currentCycleAngles d).

Definition set_isSteady (d : CadenceDetector) (v : bool) :=
  mkDetector (samples d) (peaks d) (troughs d) v (lastCycleTime d)
    (cycleCount d) (onCycleCallback d) (currentCycleAngles d).

Definition set_lastCycleTime (d : CadenceDetector) (v : Q) :=
  mkDetector (samples d) (peaks d) (troughs d) (isSteady d) v
    (cycleCount d) (onCycleCallback d) (currentCycleAngles d).

Definition set_cycleCount (d : CadenceDetector) (v : nat) :=
  mkDetector (samples d) (peaks d) (troughs d) (isSteady d) (lastCycleTime d)
    v (onCycleCallback d) (currentCycleAngles d).

Definition set_onCycleCallback (d : CadenceDetector) (v : bool) :=
  mkDetector (samples d) (peaks d) (troughs d) (isSteady d) (lastCycleTime d)
    (cycleCount d) v (currentCycleAngles d).

Definition set_currentCycleAngles (d : CadenceDetector) (v : list AngleSet.t) :=
  mkDetector (samples d) (peaks d) (troughs d) (isSteady d) (lastCycleTime d)
    (cycleCount d) (onCycleCallback d) v.

(** [reset()], which is also what the constructor leaves. *)
Definition reset : CadenceDetector :=
  mkDetector [] [] [] false 0 0%nat false [].

(** [onCycle(callback)]. *)
Definition onCycle (d : CadenceDetector) : CadenceDetector :=
  set_onCycleCallback d true.

(** [while (xs.length > 0 && time(xs[0]) < cutoff) xs.shift()]. *)
Fixpoint shift_while_before {A : Type} (time : A -> Q) (cutoff : Q)
    (xs : list A) : list A :=
  match xs with
  | [] => []
  | first :: rest =>
      if JS.ltb (time first) cutoff
      then shift_while_before time cutoff rest
      else xs
  end.

(** [peaks.slice(-n)]. *)
Definition slice_last {A : Type} (n : nat) (xs : list A) : list A :=
  skipn (length xs - n) xs.

(** A call of a public method that changes the detector. *)
Inductive Call : Type :=
| CallReset
| CallOnCycle
| CallAddSample (timestamp kneeY : Q) (angles : option AngleSet.t).

Section Methods.

Context {R : JS.Rounding}.

(** [hasStopped(timestamp)]. *)
Definition hasStopped (d : CadenceDetector) (timestamp : Q) : bool :=
  if JS.eqb (lastCycleTime d) 0 then false
  else JS.gtb (JS.sub timestamp (lastCycleTime d)) STOP_TIMEOUT_MS.

(** [_smoothY(idx)]: the mean of the samples at the indices
    [max(0, idx - 2) .. min(length - 1, idx + 2)].  It is only called with
    an index of the array, so the loop runs at least once. *)
Definition _smoothY (d : CadenceDetector) (idx : nat) : Q :=
  let samples := samples d in
  let radius := 2%nat in
  let first := Nat.max 0 (idx - radius) in
  let last := Nat.min (length samples - 1) (idx + radius) in
  let window := firstn (last + 1 - first) (skipn first samples) in
  let sum := JS.sum (map y window) in
  let count := length window in
  JS.quot sum (inject_Z (Z.of_nat count)).

(** [_checkSteady()]. *)
Definition _checkSteady (d : CadenceDetector) : CadenceDetector :=
  if (length (peaks d) <? MIN_CYCLES_FOR_STEADY + 1)%nat then
    set_isSteady d false
  else
    let recentPeaks := slice_last (MIN_CYCLES_FOR_STEADY + 1) (peaks d) in
    let periods :=
      map (fun i => JS.sub (nth i recentPeaks 0) (nth (i - 1) recentPeaks 0))
          (seq 1 (length recentPeaks - 1)) in
    let avgPeriod :=
      JS.quot (JS.sum periods) (inject_Z (Z.of_nat (length periods))) in
    let maxVariation :=
      JS.Math_max_num
        (map (fun p => JS.div (Qabs (JS.sub p avgPeriod)) avgPeriod)
             periods) in
    set_isSteady d (JS.num_ltb maxVariation MAX_PERIOD_VARIATION).

(** The summary object built by [_checkCycleComplete]. *)
Definition summarize (cycleCount : nat) (peakTime : Q) (rpm : JS.num)
    (cycleAngles : list AngleSet.t) : CycleSummary.t :=
  let n := inject_Z (Z.of_nat (length cycleAngles)) in
  CycleSummary.mk cycleCount peakTime (JS.Math_round rpm)
    (CycleSummary.mk_angles
       (JS.Math_max (map AngleSet.knee cycleAngles))
       (JS.Math_min (map AngleSet.hip cycleAngles))
       (JS.quot
          (fold_left (fun s a => JS.add s (AngleSet.torso a)) cycleAngles 0)
          n)
       (JS.quot
          (fold_left (fun s a => JS.add s (AngleSet.elbow a)) cycleAngles 0)
          n)).

(** [_checkCycleComplete(peakTime)]. *)
Definition _checkCycleComplete (d : CadenceDetector) (peakTime : Q)
  : CadenceDetector * list CycleSummary.t :=
  if (length (peaks d) <? 2)%nat then (d, []) else
  let prevPeak := nth (length (peaks d) - 2) (peaks d) 0 in
  let period := JS.sub peakTime prevPeak in
  let rpm := JS.div 60000 period in
  if JS.num_ltb rpm MIN_CADENCE_RPM || JS.num_gtb rpm MAX_CADENCE_RPM
  then (d, []) else
  let d := set_cycleCount d (S (cycleCount d)) in
  let d := set_lastCycleTime d peakTime in
  let cycleAngles := currentCycleAngles d in
  let d := set_currentCycleAngles d [] in
  let emitted :=
    if (0 <? length cycleAngles)%nat then
      let summary := summarize (cycleCount d) peakTime rpm cycleAngles in
      if onCycleCallback d then [summary] else []
    else [] in
  (_checkSteady d, emitted).

(** The gap test on the last accepted peak (resp. trough):
    [!last || candidate.t - last > 300].  [!last] holds when the history is
    empty and also when the last entry is the number [0]. *)
Definition gap_ok (history : list Q) (candidate_t : Q) : bool :=
  match JS.last_opt history with
  | None => true
  | Some last => JS.eqb last 0 || JS.gtb (JS.sub candidate_t last) 300
  end.

(** [_detectPeaks(timestamp)]. *)
Definition _detectPeaks (d : CadenceDetector) (timestamp : Q)
  : CadenceDetector * list CycleSummary.t :=
  let len := length (samples d) in
  let lookback := 5%nat in
  if (len <? lookback * 2 + 1)%nat then (d, []) else
  let idx := (len - 1 - lookback)%nat in
  let candidate := nth idx (samples d) (mkSample 0 0) in
  let smoothY := _smoothY d idx in
  let others :=
    filter (fun i => negb (i =? idx)%nat)
           (seq (idx - lookback) (2 * lookback + 1)) in
  let isPeak :=
    forallb (fun i => negb (JS.leb smoothY (_smoothY d i))) others in
  let isTrough :=
    forallb (fun i => negb (JS.leb (_smoothY d i) smoothY)) others in
  let avgY :=
    JS.quot (JS.sum (map y (samples d)))
            (inject_Z (Z.of_nat (length (samples d)))) in
  let prominence := Qabs (JS.sub smoothY avgY) in
  let minProminence := JS.rnd (1 # 100) in
  let '(d, emitted) :=
    if isPeak && JS.gtb prominence minProminence then
      if gap_ok (peaks d) (t candidate) then
        _checkCycleComplete (set_peaks d (peaks d ++ [t candidate]))
                            (t candidate)
      else (d, [])
    else (d, []) in
  let d :=
    if isTrough && JS.gtb prominence minProminence then
      if gap_ok (troughs d) (t candidate) then
        set_troughs d (troughs d ++ [t candidate])
      else d
    else d in
  let oldCutoff := JS.sub timestamp (JS.mul WINDOW_DURATION_MS 2) in
  let d := set_peaks d (shift_while_before (fun p => p) oldCutoff (peaks d)) in
  let d :=
    set_troughs d (shift_while_before (fun p => p) oldCutoff (troughs d)) in
  (d, emitted).

(** [addSample(timestamp, kneeY, angles)]; [angles] is [None] for
    [null]. *)
Definition addSample (d : CadenceDetector) (timestamp kneeY : Q)
    (angles : option AngleSet.t) : CadenceDetector * list CycleSummary.t :=
  let d := set_samples d (samples d ++ [mkSample timestamp kneeY]) in
  let d :=
    match angles with
    | Some a => set_currentCycleAngles d (currentCycleAngles d ++ [a])
    | None => d
    end in
  let cutoff := JS.sub timestamp WINDOW_DURATION_MS in
  let d := set_samples d (shift_while_before t cutoff (samples d)) in
  if (length (samples d) <? 10)%nat then (d, []) else
  _detectPeaks d timestamp.

Definition call (d : CadenceDetector) (c : Call)
  : CadenceDetector * list CycleSummary.t :=
  match c with
  | CallReset => (reset, [])
  | CallOnCycle => (onCycle d, [])
  | CallAddSample timestamp kneeY angles => addSample d timestamp kneeY angles
  end.

(** A sequence of calls on the detector [d]: the final detector and the
    summaries handed to the listener, oldest first. *)
Fixpoint run (d : CadenceDetector) (calls : list Call)
  : CadenceDetector * list CycleSummary.t :=
  match calls with
  | [] => (d, [])
  | c :: rest =>
      let '(d1, out1) := call d c in
      let '(d2, out2) := run d1 rest in
      (d2, out1 ++ out2)
  end.

End Methods.

End Cadence.

(* ================================================================== *)
(** ** js/analysis.js *)
(* ================================================================== *)

(** One entry of [THRESHOLDS]. *)
Module Threshold.
Record t : Type := mk {
  name : string;
  category : string;
  min : Q;
  max : Q;
  lowSuggestion : string;
  highSuggestion : string;
  goodSuggestion : string
}.
End Threshold.

(** The values of [status]: ["green"], ["yellow"] and ["red"]. *)
Inductive Status : Type := Green | Yellow | Red.

(** One element of the array returned by [analyzeSession]. *)
Module Recommendation.
Record t : Type := mk {
  key : string;
  name : string;
  category : string;
  avg : Q;
  min : Q;
  max : Q;
  std : Q;
  targetMin : Q;
  targetMax : Q;
  status : Status;
  suggestion : string
}.
End Recommendation.

Module Analysis.

(** The keys of [THRESHOLDS] and of [angleValues]. *)
Inductive Channel : Type := Knee | Hip | Torso | Elbow.

Definition key_of (c : Channel) : string :=
  match c with
  | Knee => "knee"
  | Hip => "hip"
  | Torso => "torso"
  | Elbow => "elbow"
  end.

Definition knee_threshold : Threshold.t :=
  Threshold.mk
    "Knee (at BDC)"
    "Injury risk"
    135 150
    "Your knee is bending too much under load at the bottom of the pedal stroke. This places excessive stress on the patellar tendon and can lead to anterior knee pain over time. Raise your saddle in small increments (5 mm at a time) until this angle increases into the target range."
    "Your leg is overextending at the bottom of the pedal stroke. This can strain the hamstrings and IT band, and may cause your hips to rock side to side to reach the pedals. Lower your saddle in small increments (5 mm at a time) until this angle decreases into the target range."
    "Knee extension is in a healthy range. Your saddle height is well-set — no changes needed.".

Definition hip_threshold : Threshold.t :=
  Threshold.mk
    "Hip (at TDC)"
    "Injury risk"
    60 80
    "Your hip is closing too tightly at the top of the pedal stroke. Over time, this can lead to hip impingement, lower-back pain, and restricted breathing. Consider raising your handlebars, using a shorter stem, or moving the saddle back slightly to open up this angle."
    "Your hip angle is unusually open at the top of the stroke, which may indicate the saddle is too far back or too low relative to the handlebars. Check your saddle fore/aft position — you may need to slide it forward slightly."
    "Hip closure is in a comfortable, sustainable range. No risk of impingement or back strain from this angle.".

Definition torso_threshold : Threshold.t :=
  Threshold.mk
    "Torso"
    "Mixed"
    30 55
    "Your riding position is quite aggressive. While aerodynamically efficient, this degree of forward lean can cause lower-back strain, neck pain, and shoulder tension on longer rides. If you experience any discomfort, consider raising your handlebars or using a shorter stem. If you're comfortable, this is a performance-oriented position and may not need adjustment."
    "Your torso is relatively upright. This is a comfortable position but comes with an aerodynamic penalty. If you're looking to improve speed, consider lowering handlebars or extending the stem for a more aero profile. If comfort is your priority, there's no issue staying here."
    "Torso angle is in a good range — a solid balance between aerodynamic efficiency and comfort.".

Definition elbow_threshold : Threshold.t :=
  Threshold.mk
    "Elbow"
    "Comfort"
    145 170
    "Your arms are quite bent, which can lead to forearm fatigue and wrist pressure on longer rides. This usually means the handlebars are too close. Consider a longer stem, or slide your saddle back slightly. That said, this is a comfort concern — if it feels fine, it's not harmful."
    "Your arms are nearly locked out, which transmits road vibration directly into your shoulders and neck. A slight elbow bend acts as a natural shock absorber. Consider a shorter stem or sliding the saddle forward slightly. This is a comfort concern — not an injury risk, but you'll likely feel better with a bit more bend."
    "Elbow bend is in a comfortable range — enough to absorb road vibration without causing arm fatigue.".

Definition threshold_of (c : Channel) : Threshold.t :=
  match c with
  | Knee => knee_threshold
  | Hip => hip_threshold
  | Torso => torso_threshold
  | Elbow => elbow_threshold
  end.

(** [Object.entries(THRESHOLDS)], in insertion order. *)
Definition THRESHOLDS : list (Channel * Threshold.t) :=
  map (fun c => (c, threshold_of c)) [Knee; Hip; Torso; Elbow].

Definition TRIM_END_MS : Q := 5000.

(** [angleValues[key]]. *)
Definition angleValues (cycleData : list CycleSummary.t) (c : Channel) : list Q :=
  let angles := map CycleSummary.angles cycleData in
  match c with
  | Knee => map CycleSummary.knee_max angles
  | Hip => map CycleSummary.hip_min angles
  | Torso => map CycleSummary.torso_avg angles
  | Elbow => map CycleSummary.elbow_avg angles
  end.

(** [status] and [suggestion] as the loop of [analyzeSession] sets them
    from [avg]. *)
Definition classify (threshold : Threshold.t) (avg : Q) : Status * string :=
  let diff :=
    if JS.ltb avg (Threshold.min threshold) then Threshold.min threshold - avg
    else if JS.gtb avg (Threshold.max threshold)
         then avg - Threshold.max threshold
         else 0 in
  if JS.ltb avg (Threshold.min threshold) then
    (if JS.gtb diff 10 then Red else Yellow, Threshold.lowSuggestion threshold)
  else if JS.gtb avg (Threshold.max threshold) then
    (if JS.gtb diff 10 then Red else Yellow, Threshold.highSuggestion threshold)
  else
    (Green, Threshold.goodSuggestion threshold).

Section Analyzer.

Context {R : JS.Rounding}.

(** [trimCycles(cycleData)]. *)
Definition trimCycles (cycleData : list CycleSummary.t) : list CycleSummary.t :=
  match cycleData with
  | [] | [_] => cycleData
  | first :: _ =>
      let lastTime := CycleSummary.timestamp (last cycleData first) in
      let firstTime := CycleSummary.timestamp first in
      if JS.leb (JS.sub lastTime firstTime) TRIM_END_MS then cycleData
      else
        filter
          (fun c => JS.leb (CycleSummary.timestamp c)
                           (JS.sub lastTime TRIM_END_MS))
          cycleData
  end.

(** [Math.round(v * 10) / 10]. *)
Definition round1 (v : Q) : Q :=
  JS.quot (inject_Z (JS.round (JS.mul v 10))) 10.

(** [values.reduce((s, v) => s + v, 0) / values.length]. *)
Definition mean (values : list Q) : Q :=
  JS.quot (JS.sum values) (inject_Z (Z.of_nat (length values))).

(** The power operator [**] and [Math.sqrt]. *)
Variable Math_pow : Q -> Q -> Q.
Variable Math_sqrt : Q -> Q.

(** The body of the loop of [analyzeSession] for one entry of
    [THRESHOLDS]. *)
Definition analyzeChannel (cycleData : list CycleSummary.t)
    (entry : Channel * Threshold.t) : Recommendation.t :=
  let '(key, threshold) := entry in
  let values := angleValues cycleData key in
  let n := inject_Z (Z.of_nat (length values)) in
  let avg := mean values in
  let min := JS.Math_min values in
  let max := JS.Math_max values in
  let std :=
    Math_sqrt
      (JS.quot
         (fold_left (fun s v => JS.add s (Math_pow (JS.sub v avg) 2))
                    values 0)
         n) in
  let '(status, suggestion) := classify threshold avg in
  Recommendation.mk (key_of key)
    (Threshold.name threshold) (Threshold.category threshold)
    (round1 avg) (round1 min) (round1 max) (round1 std)
    (Threshold.min threshold) (Threshold.max threshold)
    status suggestion.

(** [analyzeSession(cycleData)]. *)
Definition analyzeSession (cycleData : list CycleSummary.t)
  : list Recommendation.t :=
  if (length cycleData =? 0)%nat then []
  else map (analyzeChannel cycleData) THRESHOLDS.

(** What [finalizeAnalysis], the caller of the analyzer in the
    application's main script, tells the user: one of the two "try again"
    messages, or the recommendations it renders. *)
Inductive Outcome : Type :=
| NoCyclesCaptured
| NoValidCyclesAfterFiltering
| AnalysisComplete (results : list Recommendation.t).

Definition finalizeAnalysis (cycleData : list CycleSummary.t) : Outcome :=
  if (length cycleData =? 0)%nat then NoCyclesCaptured else
  let cycleData := trimCycles cycleData in
  if (length cycleData =? 0)%nat then NoValidCyclesAfterFiltering else
  AnalysisComplete (analyzeSession cycleData).

End Analyzer.

End Analysis.

(* ================================================================== *)
(** ** js/charts.js *)
(* ================================================================== *)

Module Charts.

(** One entry of [CHART_CONFIGS]. *)
Record Config : Type := mkConfig {
  label : string;
  min : Q;
  max : Q;
  targetMin : Q;
  targetMax : Q;
  margin : Q
}.

Definition CHART_CONFIGS (key : Analysis.Channel) : Config :=
  match key with
  | Analysis.Knee => mkConfig "Knee Angle (°)" 100 180 135 150 10
  | Analysis.Hip => mkConfig "Hip Angle (°)" 40 120 60 80 10
  | Analysis.Torso => mkConfig "Torso Angle (°)" 10 80 30 55 10
  | Analysis.Elbow => mkConfig "Elbow Angle (°)" 100 180 145 170 10
  end.

(** [getPointColor(value, targetMin, targetMax, margin)]. *)
Definition getPointColor (value targetMin targetMax margin : Q) : string :=
  if JS.geb value targetMin && JS.leb value targetMax then "#22c55e"
  else if JS.geb value (targetMin - margin)
          && JS.leb value (targetMax + margin) then "#eab308"
  else "#ef4444".

(** The colour that [addDataPoint(angleKey, cycleNumber, value)] gives to
    the point it adds. *)
Definition point_color (angleKey : Analysis.Channel) (value : Q) : string :=
  let config := CHART_CONFIGS angleKey in
  getPointColor value (targetMin config) (targetMax config) (margin config).

End Charts.

(* ================================================================== *)
(** ** js/main.js *)
(* ================================================================== *)

Module Main.

Definition TARGET_RANGES (key : Analysis.Channel) : Q * Q :=
  match key with
  | Analysis.Knee => (135, 150)
  | Analysis.Hip => (60, 80)
  | Analysis.Torso => (30, 55)
  | Analysis.Elbow => (145, 170)
  end.

Definition STATUS_COLORS (status : Status) : string :=
  match status with
  | Green => "#22c55e"
  | Yellow => "#eab308"
  | Red => "#ef4444"
  end.

(** [getAngleColor(key, value)]. *)
Definition getAngleColor (key : Analysis.Channel) (value : Q) : string :=
  let '(tMin, tMax) := TARGET_RANGES key in
  if JS.geb value tMin && JS.leb value tMax then STATUS_COLORS Green
  else if JS.geb value (tMin - 10) && JS.leb value (tMax + 10)
       then STATUS_COLORS Yellow
  else STATUS_COLORS Red.

(** The values of [State]. *)
Inductive State : Type := DETECTING | RECORDING | COMPLETE.

(** The variables of the script that drive a session: [currentState],
    [cameraSide] ([None] is [null]), [cadenceDetector], [cycleData],
    [sideVotes] as the pair of [left] and [right], and [pedalingStopped].
    [shown] stands for what [finalizeAnalysis] puts on the page: nothing
    yet, one of its two messages, or the recommendations.  The gauges, the
    charts, the snapshots and the buttons are left out, and so is
    [recordingStartTime], which is written and never read. *)
Record App : Type := mkApp {
  currentState : State;
  cameraSide : option Angles.Side;
  cadenceDetector : Cadence.CadenceDetector;
  cycleData : list CycleSummary.t;
  sideVotes : nat * nat;
  pedalingStopped : bool;
  shown : option Analysis.Outcome
}.

(** What a session receives: a frame from the pose tracker, or a click on
    one of the two buttons. *)
Inductive Event : Type :=
| Frame (landmarks : list (option Angles.Landmark)) (timestamp : Q)
| ClickStop
| ClickReset.

Section Machine.

Context {R : JS.Rounding}.

(** [Math.atan2], [Math.PI], the power operator, [Math.sqrt] and the value
    of [getAspectRatio()]. *)
Variable Math_atan2 : Q -> Q -> Q.
Variable Math_PI : Q.
Variable Math_pow : Q -> Q -> Q.
Variable Math_sqrt : Q -> Q.
Variable aspectRatio : Q.

(** [beginDetecting()]: everything is set anew, the detector is reset and
    the listener registered. *)
Definition beginDetecting : App :=
  mkApp DETECTING None (Cadence.onCycle Cadence.reset) [] (0, 0)%nat false
        None.

(** [sideVotes[side]++]. *)
Definition vote (votes : nat * nat) (side : Angles.Side) : nat * nat :=
  match side with
  | Angles.Left => (S (fst votes), snd votes)
  | Angles.Right => (fst votes, S (snd votes))
  end.

(** [transitionToRecording()]. *)
Definition transitionToRecording (a : App) : App :=
  let side :=
    if (snd (sideVotes a) <=? fst (sideVotes a))%nat
    then Angles.Left else Angles.Right in
  mkApp RECORDING (Some side) (cadenceDetector a) (cycleData a)
        (sideVotes a) (pedalingStopped a) (shown a).

(** [finalizeAnalysis()]. *)
Definition finalizeAnalysis (a : App) : App :=
  if (length (cycleData a) =? 0)%nat then
    mkApp (currentState a) (cameraSide a) (cadenceDetector a) (cycleData a)
          (sideVotes a) (pedalingStopped a) (Some Analysis.NoCyclesCaptured)
  else
    let trimmed := Analysis.trimCycles (cycleData a) in
    if (length trimmed =? 0)%nat then
      mkApp (currentState a) (cameraSide a) (cadenceDetector a) trimmed
            (sideVotes a) (pedalingStopped a)
            (Some Analysis.NoValidCyclesAfterFiltering)
    else
      mkApp (currentState a) (cameraSide a) (cadenceDetector a) trimmed
            (sideVotes a) (pedalingStopped a)
            (Some (Analysis.AnalysisComplete
                     (Analysis.analyzeSession Math_pow Math_sqrt trimmed))).

(** [stopSession()]. *)
Definition stopSession (a : App) : App :=
  finalizeAnalysis
    (mkApp COMPLETE (cameraSide a) (cadenceDetector a) (cycleData a)
           (sideVotes a) (pedalingStopped a) (shown a)).

(** [onFrame(landmarks, timestamp)].  The listener registered by
    [beginDetecting] pushes a summary on [cycleData] when the state is
    [RECORDING] and drops it otherwise; it runs inside [addSample], before
    the state can change.  With [cameraSide] still [null] the recording
    branch would throw; the frame is then lost. *)
Definition onFrame (a : App) (landmarks : list (option Angles.Landmark))
    (timestamp : Q) : App :=
  match currentState a with
  | DETECTING =>
      let side := Pose.detectVisibleSide landmarks in
      let votes := vote (sideVotes a) side in
      match Angles.getKneeLandmark landmarks side with
      | Some knee =>
          let '(detector, _) :=
            Cadence.addSample (cadenceDetector a) timestamp (Angles.y knee)
                              None in
          let a :=
            mkApp DETECTING (cameraSide a) detector (cycleData a) votes
                  (pedalingStopped a) (shown a) in
          if Cadence.isSteady detector then transitionToRecording a else a
      | None =>
          mkApp DETECTING (cameraSide a) (cadenceDetector a) (cycleData a)
                votes (pedalingStopped a) (shown a)
      end
  | RECORDING =>
      match cameraSide a with
      | None => a
      | Some side =>
          let angles :=
            Angles.computeAngles Math_atan2 Math_PI landmarks side
                                 aspectRatio in
          match Angles.getKneeLandmark landmarks side with
          | Some knee =>
              if negb (pedalingStopped a) then
                let '(detector, emitted) :=
                  Cadence.addSample (cadenceDetector a) timestamp
                                    (Angles.y knee) angles in
                let a :=
                  mkApp RECORDING (cameraSide a) detector
                        (cycleData a ++ emitted) (sideVotes a)
                        (pedalingStopped a) (shown a) in
                if Cadence.hasStopped detector timestamp then
                  stopSession
                    (mkApp (currentState a) (cameraSide a)
                           (cadenceDetector a) (cycleData a) (sideVotes a)
                           true (shown a))
                else a
              else a
          | None => a
          end
      end
  | COMPLETE => a
  end.

(** One event: a frame goes to [onFrame], the stop button stops a session
    that is recording, the reset button starts over. *)
Definition handle (a : App) (e : Event) : App :=
  match e with
  | Frame landmarks timestamp => onFrame a landmarks timestamp
  | ClickStop =>
      match currentState a with
      | RECORDING => stopSession a
      | _ => a
      end
  | ClickReset => beginDetecting
  end.

(** The session after the events, from [init()] on. *)
Definition session (events : list Event) : App :=
  fold_left handle events beginDetecting.

End Machine.

End Main.

(* ================================================================== *)
(** ** Vocabulary of the specification *)
(* ================================================================== *)

Module Session.

(** The timestamps of the first and of the last cycle of a session. *)
Definition firstTime (xs : list CycleSummary.t) : Q :=
  match xs with
  | [] => 0
  | first :: _ => CycleSummary.timestamp first
  end.

Definition lastTime (xs : list CycleSummary.t) : Q :=
  match xs with
  | [] => 0
  | first :: _ => CycleSummary.timestamp (last xs first)
  end.

(** The time from the first cycle to the last. *)
Definition span (xs : list CycleSummary.t) : Q := lastTime xs - firstTime xs.

(** [c] is less than 5000 ms before the last cycle of [xs]. *)
Definition in_trailing_window (xs : list CycleSummary.t) (c : CycleSummary.t)
  : Prop :=
  lastTime xs - 5000 < CycleSummary.timestamp c.

(** Ordered by timestamp. *)
Definition ordered (xs : list CycleSummary.t) : Prop :=
  StronglySorted
    (fun a b => CycleSummary.timestamp a <= CycleSummary.timestamp b) xs.

Section Measured.

Context {R : JS.Rounding}.

(** The timestamps are values of the type [number]. *)
Definition numbers (xs : list CycleSummary.t) : Prop :=
  Forall (fun c => JS.Number (CycleSummary.timestamp c)) xs.

(** The span that the program computes: [lastTime - firstTime]. *)
Definition measured_span (xs : list CycleSummary.t) : Q :=
  JS.sub (lastTime xs) (firstTime xs).

(** A session that [trimCycles] leaves alone: at most one entry, or a
    computed span of at most 5000 ms. *)
Definition short (xs : list CycleSummary.t) : Prop :=
  (length xs <= 1)%nat \/ measured_span xs <= 5000.

(** The cutoff that the program computes: [lastTime - TRIM_END_MS]. *)
Definition cutoff (xs : list CycleSummary.t) : Q := JS.sub (lastTime xs) 5000.

(** [c] falls within the last 5000 ms of the span of [xs]: its timestamp
    is above the cutoff. *)
Definition after_cutoff (xs : list CycleSummary.t) (c : CycleSummary.t)
  : Prop :=
  cutoff xs < CycleSummary.timestamp c.

Definition after_cutoffb (xs : list CycleSummary.t) (c : CycleSummary.t)
  : bool :=
  JS.ltb (cutoff xs) (CycleSummary.timestamp c).

End Measured.

End Session.

Module Classification.

(** What the specification says of the status and of the suggestion of a
    channel with session mean [m], against the threshold [th]. *)
Definition classified (th : Threshold.t) (m : Q) (status : Status)
    (suggestion : string) : Prop :=
  let targetMin := Threshold.min th in
  let targetMax := Threshold.max th in
  (status = Green <-> targetMin <= m /\ m <= targetMax) /\
  (status = Green -> suggestion = Threshold.goodSuggestion th) /\
  (m < targetMin ->
     (10 < targetMin - m -> status = Red) /\
     (targetMin - m <= 10 -> status = Yellow) /\
     suggestion = Threshold.lowSuggestion th) /\
  (targetMax < m ->
     (10 < m - targetMax -> status = Red) /\
     (m - targetMax <= 10 -> status = Yellow) /\
     suggestion = Threshold.highSuggestion th).

End Classification.

Module Frame.





End Frame.

Module Cycle.

(** [d'] has the counters, the flags and the angle buffer of [d]. *)
Definition same_cycle_state (d d' : Cadence.CadenceDetector) : Prop :=
  Cadence.cycleCount d' = Cadence.cycleCount d /\
  Cadence.lastCycleTime d' = Cadence.lastCycleTime d /\
  Cadence.isSteady d' = Cadence.isSteady d /\
  Cadence.currentCycleAngles d' = Cadence.currentCycleAngles d /\
  Cadence.onCycleCallback d' = Cadence.onCycleCallback d.

(** The detector as [_checkCycleComplete] leaves it when it accepts a
    cycle, before [_checkSteady]. *)
Definition accepted (d : Cadence.CadenceDetector) (peakTime : Q)
  : Cadence.CadenceDetector :=
  Cadence.set_currentCycleAngles
    (Cadence.set_lastCycleTime
       (Cadence.set_cycleCount d (S (Cadence.cycleCount d))) peakTime) [].

(** The sample that [_detectPeaks] examines. *)
Definition candidate (d : Cadence.CadenceDetector) : Cadence.Sample :=
  nth (length (Cadence.samples d) - 1 - 5) (Cadence.samples d)
      (Cadence.mkSample 0 0).

(** What [addSample] pushes on the angle buffer. *)
Definition pushed (angles : option AngleSet.t) : list AngleSet.t :=
  match angles with
  | Some a => [a]
  | None => []
  end.

Section Computed.

Context {R : JS.Rounding}.

(** The cadence of a period, as the program computes it: [60000 / period]
    for a period other than zero. *)
Definition cadence (period : Q) : Q := JS.quot 60000 period.

(** The cadence of the period lies in [[40, 120]]; a period of zero has no
    cadence in the band. *)
Definition in_band (period : Q) : Prop :=
  ~ period == 0 /\ 40 <= cadence period /\ cadence period <= 120.

Definition out_of_band (period : Q) : Prop :=
  period == 0 \/ cadence period < 40 \/ 120 < cadence period.

(** The period that a peak at [peakTime] closes, as the program computes
    it: the time since the peak before it in the history, which already
    holds [peakTime] last. *)
Definition period_of (d : Cadence.CadenceDetector) (peakTime : Q) : Q :=
  JS.sub peakTime (nth (length (Cadence.peaks d) - 2) (Cadence.peaks d) 0).

(** The detector of [addSample] when it reaches the test on the number of
    samples. *)
Definition entered (d : Cadence.CadenceDetector) (timestamp kneeY : Q)
    (angles : option AngleSet.t) : Cadence.CadenceDetector :=
  Cadence.mkDetector
    (Cadence.shift_while_before Cadence.t
       (JS.sub timestamp Cadence.WINDOW_DURATION_MS)
       (Cadence.samples d ++ [Cadence.mkSample timestamp kneeY]))
    (Cadence.peaks d) (Cadence.troughs d) (Cadence.isSteady d)
    (Cadence.lastCycleTime d) (Cadence.cycleCount d)
    (Cadence.onCycleCallback d)
    (Cadence.currentCycleAngles d ++ pushed angles).

(** The mean of a list of numbers, as the program computes it: the sum
    taken from left to right, then the quotient by the count. *)
Definition mean (xs : list Q) : Q :=
  JS.quot (JS.sum xs) (inject_Z (Z.of_nat (length xs))).

(** [m] is the mean of the non-empty list [xs]. *)
Definition is_mean (m : Q) (xs : list Q) : Prop :=
  xs <> [] /\ m = mean xs.

(** The relative deviation of the period [p] from the average [avg], as
    the program computes it when the average is not zero. *)
Definition relative_deviation (avg p : Q) : Q :=
  JS.quot (Qabs (JS.sub p avg)) avg.

(** The steadiness of three periods: the largest relative deviation from
    their average is below 25%. *)
Definition steady (p1 p2 p3 : Q) : Prop :=
  let avg := mean [p1; p2; p3] in
  ~ avg == 0 /\
  Qmax (Qmax (relative_deviation avg p1) (relative_deviation avg p2))
       (relative_deviation avg p3) < 25 # 100.

End Computed.

(** The calls of [addSample] on a list of frames
    [(timestamp, kneeY, angles)]. *)
Definition addSamples (fs : list (Q * Q * option AngleSet.t))
  : list Cadence.Call :=
  map (fun f => Cadence.CallAddSample (fst (fst f)) (snd (fst f)) (snd f)) fs.



Definition is_max (m : Q) (xs : list Q) : Prop :=
  In m xs /\ forall v, In v xs -> v <= m.

Definition is_min (m : Q) (xs : list Q) : Prop :=
  In m xs /\ forall v, In v xs -> m <= v.

(** [r] is [q] rounded to the nearest integer. *)
Definition is_rounded (r : JS.num) (q : Q) : Prop :=
  exists z : Z, r = JS.Fin (inject_Z z) /\
                q - (1 # 2) < inject_Z z /\ inject_Z z <= q + (1 # 2).

(** The angle samples that a list of frames supplies: the non-null ones, in
    order. *)
Fixpoint supplied (fs : list (Q * Q * option AngleSet.t)) : list AngleSet.t :=
  match fs with
  | [] => []
  | f :: rest => pushed (snd f) ++ supplied rest
  end.

(** The cycle numbers of a list of summaries are all above [n] and strictly
    increasing. *)
Definition numbered_after (n : nat) (out : list CycleSummary.t) : Prop :=
  Forall (fun c => (n < CycleSummary.cycleNumber c)%nat) out /\
  StronglySorted lt (map CycleSummary.cycleNumber out).

End Cycle.

Module Stream.

(** The timestamp, the knee position and the angles of a frame. *)
Definition time_of (f : Q * Q * option AngleSet.t) : Q := fst (fst f).
Definition kneeY_of (f : Q * Q * option AngleSet.t) : Q := snd (fst f).
Definition angles_of (f : Q * Q * option AngleSet.t) : option AngleSet.t :=
  snd f.

(** The timestamps of the frames never decrease. *)
Definition chronological (fs : list (Q * Q * option AngleSet.t)) : Prop :=
  StronglySorted Qle (map time_of fs).

(** The samples are in the order of their timestamps, none later than
    [now]. *)
Definition window_until (now : Q) (samples : list Cadence.Sample) : Prop :=
  StronglySorted Qle (map Cadence.t samples) /\
  Forall (fun s => Cadence.t s <= now) samples.

(** Two consecutive entries of a history are more than 300 ms apart,
    unless the earlier one is the timestamp 0. *)
Fixpoint spaced (history : list Q) : Prop :=
  match history with
  | p :: (q :: _) as rest => (p == 0 \/ 300 < q - p) /\ spaced rest
  | _ => True
  end.

(** The cadence of a summary is a whole number of revolutions per minute
    between [lo] and [hi]. *)
Definition whole_rpm_between (lo hi : Z) (c : CycleSummary.t) : Prop :=
  exists z : Z,
    CycleSummary.rpm c = JS.Fin (inject_Z z) /\ (lo <= z <= hi)%Z.

(** Every sample of the window is at the height [level]. *)
Definition flat (level : Q) (d : Cadence.CadenceDetector) : Prop :=
  Forall (fun s => Cadence.y s == level) (Cadence.samples d).

(** The five newest samples of the window. *)
Definition newest (samples : list Cadence.Sample) : list Cadence.Sample :=
  skipn (length samples - 5) samples.

(** The summaries [out] emitted so far came out in the order of their
    timestamps, and whatever the detector [d] emits next will be later: the
    window is in order up to [now], and no peak of the history and no
    summary is later than the five newest samples, nor any summary later
    than the last peak of the history. *)
Definition in_order (now : Q) (d : Cadence.CadenceDetector)
    (out : list CycleSummary.t) : Prop :=
  window_until now (Cadence.samples d) /\
  (forall p, In p (Cadence.peaks d) ->
     p <= now /\
     forall s, In s (newest (Cadence.samples d)) -> p <= Cadence.t s) /\
  (forall c, In c out ->
     CycleSummary.timestamp c <= now /\
     (forall s, In s (newest (Cadence.samples d)) ->
        CycleSummary.timestamp c <= Cadence.t s) /\
     (forall p, JS.last_opt (Cadence.peaks d) = Some p ->
        CycleSummary.timestamp c <= p)) /\
  StronglySorted Qlt (map CycleSummary.timestamp out).

(** The timestamps of the samples that the calls add, in the order of the
    calls. *)
Definition times (calls : list Cadence.Call) : list Q :=
  flat_map (fun c => match c with
                     | Cadence.CallAddSample timestamp _ _ => [timestamp]
                     | _ => []
                     end) calls.

(** A call that registers a listener. *)
Definition registers (c : Cadence.Call) : Prop := c = Cadence.CallOnCycle.

(** A call that supplies angles. *)
Definition supplies_angles (c : Cadence.Call) : Prop :=
  match c with
  | Cadence.CallAddSample _ _ (Some _) => True
  | _ => False
  end.

End Stream.

Module Recorded.

(** The timestamps of the frames among the events, in their order. *)
Definition frame_times (events : list Main.Event) : list Q :=
  flat_map (fun e => match e with
                     | Main.Frame _ timestamp => [timestamp]
                     | _ => []
                     end) events.

(** The cycles held by the session are in order, and so is what the
    detector can still add while the session is not complete. *)
Definition cycles_in_order (now : Q) (a : Main.App) : Prop :=
  StronglySorted Qlt (map CycleSummary.timestamp (Main.cycleData a)) /\
  (Main.currentState a <> Main.COMPLETE ->
   Stream.in_order now (Main.cadenceDetector a) (Main.cycleData a)).

(** The side with the more votes, the left one on a tie. *)
Definition majority (votes : nat * nat) : Angles.Side :=
  if (snd votes <=? fst votes)%nat then Angles.Left else Angles.Right.

Section Shown.

Context {R : JS.Rounding}.
Variable Math_pow : Q -> Q -> Q.
Variable Math_sqrt : Q -> Q.

(** The page shows the recommendations computed from the cycles kept, four
    of them. *)
Definition recommended (a : Main.App) : Prop :=
  Main.cycleData a <> [] /\
  Main.shown a
  = Some (Analysis.AnalysisComplete
            (Analysis.analyzeSession Math_pow Math_sqrt (Main.cycleData a))) /\
  length (Analysis.analyzeSession Math_pow Math_sqrt (Main.cycleData a))
  = 4%nat.

(** What the page shows agrees with the cycles kept: the first message and
    no cycle, or the recommendations computed from the cycles kept, four of
    them. *)
Definition outcome_of (a : Main.App) : Prop :=
  (Main.cycleData a = [] /\
   Main.shown a = Some Analysis.NoCyclesCaptured) \/
  recommended a.

(** The same, or the second message and no cycle. *)
Definition reported (a : Main.App) : Prop :=
  outcome_of a \/
  (Main.cycleData a = [] /\
   Main.shown a = Some Analysis.NoValidCyclesAfterFiltering).

(** The cycles recorded so far: numbered above 1 in increasing order, none
    beyond the counter of the detector, each with a whole cadence between
    40 and 120. *)
Definition cycles_ok (a : Main.App) : Prop :=
  Cycle.numbered_after 1 (Main.cycleData a) /\
  Forall (fun c => (CycleSummary.cycleNumber c
                    <= Cadence.cycleCount (Main.cadenceDetector a))%nat)
         (Main.cycleData a) /\
  Forall (Stream.whole_rpm_between 40 120) (Main.cycleData a).

(** The invariant of a session. *)
Definition consistent (a : Main.App) : Prop :=
  Cadence.onCycleCallback (Main.cadenceDetector a) = true /\
  (Cadence.isSteady (Main.cadenceDetector a) = true ->
   (1 <= Cadence.cycleCount (Main.cadenceDetector a))%nat) /\
  cycles_ok a /\
  match Main.currentState a with
  | Main.DETECTING =>
      Main.cameraSide a = None /\ Main.cycleData a = [] /\
      Main.shown a = None /\ Main.pedalingStopped a = false /\
      Cadence.currentCycleAngles (Main.cadenceDetector a) = []
  | Main.RECORDING =>
      Main.cameraSide a = Some (majority (Main.sideVotes a)) /\
      Main.shown a = None /\ Main.pedalingStopped a = false /\
      (1 <= Cadence.cycleCount (Main.cadenceDetector a))%nat
  | Main.COMPLETE =>
      Main.cameraSide a = Some (majority (Main.sideVotes a)) /\
      reported a
  end.

(** The timestamps that the session holds are values of the type
    [number], and the second message is not shown. *)
Definition numbers (a : Main.App) : Prop :=
  Forall (fun s => JS.Number (Cadence.t s))
         (Cadence.samples (Main.cadenceDetector a)) /\
  Session.numbers (Main.cycleData a) /\
  Main.shown a <> Some Analysis.NoValidCyclesAfterFiltering.

End Shown.

End Recorded.

(* ================================================================== *)
(** ** Test vectors *)
(* ================================================================== *)

Module Vectors.

(** A cycle summary with the given number, timestamp and knee maximum; the
    other angles sit inside their target ranges. *)
Definition cycle (n : nat) (ts knee_max : Q) : CycleSummary.t :=
  CycleSummary.mk n ts (JS.Fin 60)
    (CycleSummary.mk_angles knee_max 70 40 160).

(** Three cycles six seconds apart. *)
Definition session_12s : list CycleSummary.t :=
  [cycle 1 0 140; cycle 2 6000 160; cycle 3 12000 130].

(** Four cycles three seconds apart. *)
Definition session_9s : list CycleSummary.t :=
  [cycle 1 0 140; cycle 2 3000 160; cycle 3 6000 130; cycle 4 9000 150].

(** Stand-ins for [Math.sqrt] and for the power operator where their
    values do not matter. *)
Definition any_sqrt (v : Q) : Q := v.
Definition any_pow (v e : Q) : Q := v * v.

(** A knee trace: a triangular wave of ten frames per revolution, between
    0.3 and 0.8 of the image height, highest at the frames 0, 10, 20, ... *)
Definition kneeY (i : nat) : Q :=
  (3 + inject_Z (Z.abs (5 - Z.of_nat (i mod 10)))) / 10.

(** The angles of frame [i]. *)
Definition posture (i : nat) : AngleSet.t :=
  AngleSet.mk (140 + inject_Z (Z.of_nat (i mod 10)))
              (70 - inject_Z (Z.of_nat (i mod 10)))
              (40 + inject_Z (Z.of_nat (i mod 3)))
              (160 - inject_Z (Z.of_nat (i mod 4))).

(** Frame [i] of a ride filmed at [dt] ms per frame from the time [t0]. *)
Definition frame (t0 dt : Q) (i : nat) : Q * Q * option AngleSet.t :=
  (t0 + dt * inject_Z (Z.of_nat i), kneeY i, Some (posture i)).

Definition frames (t0 dt : Q) (n : nat) : list (Q * Q * option AngleSet.t) :=
  map (frame t0 dt) (seq 0 n).

(** A ride at 60 rpm filmed at 10 frames per second from the time [t0],
    with a listener registered: the knee is lowest at [t0 + 1000],
    [t0 + 2000], ... *)
Definition ride (t0 : Q) (n : nat) : list Cadence.Call :=
  Cadence.CallOnCycle :: Cycle.addSamples (frames t0 100 n).

(** The same knee trace at 25 frames per second: 150 rpm. *)
Definition sprint (n : nat) : list Cadence.Call :=
  Cadence.CallOnCycle :: Cycle.addSamples (frames 0 40 n).

Section Recordings.

Context {R : JS.Rounding}.

(** The detector inside the call of [addSample] on frame 25 of a recording
    from [t0] at [dt] ms per frame, as it enters [_detectPeaks]: the
    candidate is frame 20, the second lowest point of the knee. *)
Definition at_second_peak (t0 dt : Q) : Cadence.CadenceDetector :=
  let f := frame t0 dt 25 in
  Cycle.entered
    (fst (Cadence.run Cadence.reset
            (Cadence.CallOnCycle :: Cycle.addSamples (frames t0 dt 25))))
    (fst (fst f)) (snd (fst f)) (snd f).

(** The summary of the first cycle of [ride 0]: it closes at the peak of
    2000 ms and covers the 26 frames supplied until then. *)
Definition first_summary : CycleSummary.t :=
  Cadence.summarize 1 2000 (JS.Fin 60) (Cycle.supplied (frames 0 100 26)).

(** The detector of [ride 0] inside the call of [addSample] on frame 45,
    once [_detectPeaks] has pushed the fourth peak, at 4000 ms. *)
Definition at_fourth_peak : Cadence.CadenceDetector :=
  let f := frame 0 100 45 in
  let d :=
    Cycle.entered (fst (Cadence.run Cadence.reset (ride 0 45)))
                  (fst (fst f)) (snd (fst f)) (snd f) in
  Cadence.set_peaks d (Cadence.peaks d ++ [Cadence.t (Cycle.candidate d)]).

End Recordings.

(** A landmark array of 33 entries, all at the same point but for the
    vertical coordinate, with the visibility [v] at the index [weak] and
    0.9 elsewhere. *)
Definition landmarks (weak : nat) (v : Q) : list (option Angles.Landmark) :=
  map (fun i =>
         Some (Angles.mkLandmark (1 # 2) (inject_Z (Z.of_nat i) / 33)
                 (Some (if (i =? weak)%nat then v else 9 # 10))))
      (seq 0 33).

(** Stand-ins for [Math.atan2] and [Math.PI] where their values do not
    matter. *)
Definition any_atan2 (a b : Q) : Q := a - b.
Definition any_PI : Q := 3.

(** Frames of a rider who sits still: the knee stays at half the image
    height. *)
Definition still_frames (n : nat) : list (Q * Q * option AngleSet.t) :=
  map (fun i => (100 * inject_Z (Z.of_nat i), 1 # 2, Some (posture i)))
      (seq 0 n).

(** The landmarks of frame [i] of a rider filmed from the left: the
    left side (the odd indices) is seen with confidence 0.9, the right side
    with 0.3, and the left knee (index 25) follows [trace]. *)
Definition pose (trace : nat -> Q) (i : nat) : list (option Angles.Landmark) :=
  map (fun j =>
         Some (Angles.mkLandmark
                 (inject_Z (Z.of_nat j) / 66)
                 (if (j =? 25)%nat then trace i
                  else inject_Z (Z.of_nat j) / 33)
                 (Some (if Nat.even j then 3 # 10 else 9 # 10))))
      (seq 0 33).

(** The frames [first .. first + n - 1] of a film at 10 frames per
    second. *)
Definition film (trace : nat -> Q) (first n : nat) : list Main.Event :=
  map (fun i => Main.Frame (pose trace i) (100 * inject_Z (Z.of_nat i)))
      (seq first n).

(** Twelve seconds of pedalling at 60 rpm. *)
Definition pedalling : list Main.Event := film kneeY 0 120.

(** The rider then stops, the knee at its lowest, for three seconds. *)
Definition coasting : list Main.Event := film (fun _ => 8 # 10) 120 30.

(** A stand-in for [Math.atan2] that keeps the fractions small. *)
Definition reduced_atan2 (a b : Q) : Q := Qred (a - b).

(** What the examples look at in a session. *)
Definition digest (a : Main.App)
  : Main.State * option Angles.Side * (nat * nat) * bool * list nat
    * list Q * nat :=
  (Main.currentState a, Main.cameraSide a, Main.sideVotes a,
   Main.pedalingStopped a,
   map CycleSummary.cycleNumber (Main.cycleData a),
   map (fun c => Qred (CycleSummary.timestamp c)) (Main.cycleData a),
   match Main.shown a with
   | Some (Analysis.AnalysisComplete results) => length results
   | _ => 0%nat
   end).

End Vectors.

(* ================================================================== *)
(** * Properties *)
(* ================================================================== *)

(** ** Facts about the JavaScript helpers *)

Section JSFacts.

Lemma ltb_lt (a b : Q) : JS.ltb a b = true <-> a < b.
Proof.
  unfold JS.ltb. rewrite Qlt_alt. destruct (a ?= b); split; congruence.
Qed.

Lemma ltb_ge (a b : Q) : JS.ltb a b = false <-> b <= a.
Proof.
  rewrite <- not_true_iff_false, ltb_lt. split; intro H.
  - now apply Qnot_lt_le.
  - now apply Qle_not_lt.
Qed.

Lemma leb_le (a b : Q) : JS.leb a b = true <-> a <= b.
Proof. apply Qle_bool_iff. Qed.

Lemma leb_gt (a b : Q) : JS.leb a b = false <-> b < a.
Proof.
  rewrite <- not_true_iff_false, leb_le. split; intro H.
  - now apply Qnot_le_lt.
  - now apply Qlt_not_le.
Qed.

Lemma gtb_gt (a b : Q) : JS.gtb a b = true <-> b < a.
Proof. apply ltb_lt. Qed.

Lemma eqb_eq (a b : Q) : JS.eqb a b = true <-> a == b.
Proof. apply Qeq_bool_iff. Qed.

Lemma eqb_neq (a b : Q) : JS.eqb a b = false <-> ~ a == b.
Proof.
  rewrite <- not_true_iff_false, eqb_eq. tauto.
Qed.

(** [JS.round] is within one half of its argument. *)
Lemma round_nearest (q : Q) :
  q - (1 # 2) < inject_Z (JS.round q) /\ inject_Z (JS.round q) <= q + (1 # 2).
Proof.
  unfold JS.round. split.
  - pose proof (Qlt_floor (q + (1 # 2))) as H.
    rewrite inject_Z_plus in H. change (inject_Z 1) with 1 in H. lra.
  - apply Qfloor_le.
Qed.

(** The fold of [Qmax] returns one of the numbers it was given and bounds
    them all. *)
Lemma fold_max_ge (xs : list Q) (x : Q) :
  x <= fold_left Qmax xs x /\
  forall v, In v xs -> v <= fold_left Qmax xs x.
Proof.
  revert x. induction xs as [|a xs IH]; intro x; simpl.
  - split; [apply Qle_refl | tauto].
  - destruct (IH (Qmax x a)) as [Hx Hin]. split.
    + eapply Qle_trans; [apply Q.le_max_l | exact Hx].
    + intros v [<- | Hv].
      * eapply Qle_trans; [apply Q.le_max_r | exact Hx].
      * now apply Hin.
Qed.

Lemma fold_max_in (xs : list Q) (x : Q) :
  In (fold_left Qmax xs x) (x :: xs).
Proof.
  revert x. induction xs as [|a xs IH]; intro x; simpl.
  - now left.
  - destruct (IH (Qmax x a)) as [H | H].
    + revert H. unfold Qmax, GenericMinMax.gmax.
      destruct (x ?= a); auto.
    + auto.
Qed.

Lemma fold_min_le (xs : list Q) (x : Q) :
  fold_left Qmin xs x <= x /\
  forall v, In v xs -> fold_left Qmin xs x <= v.
Proof.
  revert x. induction xs as [|a xs IH]; intro x; simpl.
  - split; [apply Qle_refl | tauto].
  - destruct (IH (Qmin x a)) as [Hx Hin]. split.
    + eapply Qle_trans; [exact Hx | apply Q.le_min_l].
    + intros v [<- | Hv].
      * eapply Qle_trans; [exact Hx | apply Q.le_min_r].
      * now apply Hin.
Qed.

Lemma fold_min_in (xs : list Q) (x : Q) :
  In (fold_left Qmin xs x) (x :: xs).
Proof.
  revert x. induction xs as [|a xs IH]; intro x; simpl.
  - now left.
  - destruct (IH (Qmin x a)) as [H | H].
    + revert H. unfold Qmin, GenericMinMax.gmin.
      destruct (x ?= a); auto.
    + auto.
Qed.

Lemma Math_max_spec (xs : list Q) :
  xs <> [] ->
  In (JS.Math_max xs) xs /\ forall v, In v xs -> v <= JS.Math_max xs.
Proof.
  destruct xs as [|x rest]; [congruence | intros _]. simpl. split.
  - apply fold_max_in.
  - intros v [<- | Hv].
    + apply (proj1 (fold_max_ge rest x)).
    + now apply (proj2 (fold_max_ge rest x)).
Qed.

Lemma Math_min_spec (xs : list Q) :
  xs <> [] ->
  In (JS.Math_min xs) xs /\ forall v, In v xs -> JS.Math_min xs <= v.
Proof.
  destruct xs as [|x rest]; [congruence | intros _]. simpl. split.
  - apply fold_min_in.
  - intros v [<- | Hv].
    + apply (proj1 (fold_min_le rest x)).
    + now apply (proj2 (fold_min_le rest x)).
Qed.

Lemma gtb_le (a b : Q) : JS.gtb a b = false <-> a <= b.
Proof. apply ltb_ge. Qed.

Lemma leb_negb_ltb (a b : Q) : JS.leb a b = negb (JS.ltb b a).
Proof.
  destruct (JS.ltb b a) eqn:E; simpl.
  - apply leb_gt. now apply ltb_lt.
  - apply leb_le. now apply ltb_ge.
Qed.

End JSFacts.

Create Rewrite HintDb js_bool.
#[local] Hint Rewrite ltb_lt ltb_ge leb_le leb_gt gtb_gt gtb_le eqb_eq eqb_neq
  : js_bool.

(** Turn the boolean tests of the source into (in)equalities of [Q]. *)
Ltac js_reflect :=
  repeat match goal with
  | H : _ && _ = true |- _ => apply andb_true_iff in H; destruct H
  | H : _ || _ = false |- _ => apply orb_false_iff in H; destruct H
  | H : negb _ = true |- _ => apply negb_true_iff in H
  | H : negb _ = false |- _ => apply negb_false_iff in H
  end;
  autorewrite with js_bool in *.

(** ** The rounding of doubles *)

Section Binary64.

Lemma round_even_floor (q : Q) :
  (Qfloor q <= JS.round_even q <= Qfloor q + 1)%Z.
Proof.
  unfold JS.round_even. destruct (Qcompare _ _); [destruct (Z.even _) | |]; lia.
Qed.

Lemma round_even_integer (z : Z) : JS.round_even (inject_Z z) = z.
Proof.
  unfold JS.round_even. rewrite Qfloor_Z.
  destruct (Qcompare_spec (inject_Z z - inject_Z z) (1 # 2)) as [H | H | H];
    [exfalso; lra | reflexivity | exfalso; lra].
Qed.

Lemma round_even_monotone (q q' : Q) :
  q <= q' -> (JS.round_even q <= JS.round_even q')%Z.
Proof.
  intro Hle. pose proof (Qfloor_resp_le q q' Hle) as Hf.
  pose proof (round_even_floor q) as B. pose proof (round_even_floor q') as B'.
  destruct (Z.eq_dec (Qfloor q) (Qfloor q')) as [E | E]; [| lia].
  unfold JS.round_even. rewrite <- E.
  destruct (Qcompare_spec (q - inject_Z (Qfloor q)) (1 # 2)) as [H | H | H];
    destruct (Qcompare_spec (q' - inject_Z (Qfloor q)) (1 # 2)) as [H' | H' | H'];
    try destruct (Z.even (Qfloor q)); try lia; exfalso; lra.
Qed.

Lemma pow2_pos (e : Z) : 0 < JS.pow2 e.
Proof. apply Qpower_0_lt. reflexivity. Qed.

Lemma pow2_plus (a b : Z) : JS.pow2 (a + b) == JS.pow2 a * JS.pow2 b.
Proof. apply Qpower_plus. discriminate. Qed.

Lemma pow2_le (a b : Z) : (a <= b)%Z -> JS.pow2 a <= JS.pow2 b.
Proof. intro H. apply Qpower_le_compat_l; [exact H | discriminate]. Qed.

Lemma pow2_lt_inv (a b : Z) : JS.pow2 a < JS.pow2 b -> (a < b)%Z.
Proof. intro H. apply (Qpower_lt_compat_l_inv 2); [exact H | reflexivity]. Qed.

Lemma pow2_inject (a : Z) : (0 <= a)%Z -> inject_Z (2 ^ a) == JS.pow2 a.
Proof. intro H. unfold JS.pow2. now rewrite Zpower_Qpower. Qed.

(** [JS.ilog2 x] is the exponent of the binade of [x]. *)
Lemma ilog2_spec (x : Q) :
  ~ x == 0 -> JS.pow2 (JS.ilog2 x) <= Qabs x /\ Qabs x < JS.pow2 (JS.ilog2 x + 1).
Proof.
  intro Hx. unfold JS.ilog2.
  set (n := Z.abs (Qnum x)). set (d := Zpos (Qden x)).
  set (a := Z.log2 n). set (b := Z.log2 d).
  assert (Hn : (0 < n)%Z).
  { unfold n. destruct x as [xn xd]. simpl.
    assert (xn <> 0)%Z by (intro E; apply Hx; subst; reflexivity). lia. }
  assert (Hd : (0 < d)%Z) by (unfold d; lia).
  destruct (Z.log2_spec n Hn) as [Ha1 Ha2]. fold a in Ha1, Ha2.
  destruct (Z.log2_spec d Hd) as [Hb1 Hb2]. fold b in Hb1, Hb2.
  assert (Ha0 : (0 <= a)%Z) by apply Z.log2_nonneg.
  assert (Hb0 : (0 <= b)%Z) by apply Z.log2_nonneg.
  assert (Habs : Qabs x == inject_Z n / inject_Z d).
  { destruct x as [xn xd]. unfold n, d. simpl. apply Qmake_Qdiv. }
  assert (Qa1 : JS.pow2 a <= inject_Z n)
    by (rewrite <- pow2_inject by lia; now rewrite <- Zle_Qle).
  assert (Qa2 : inject_Z n < JS.pow2 (a + 1)).
  { rewrite <- pow2_inject by lia. rewrite <- Zlt_Qlt.
    now rewrite <- Z.add_1_r in Ha2. }
  assert (Qb1 : JS.pow2 b <= inject_Z d)
    by (rewrite <- pow2_inject by lia; now rewrite <- Zle_Qle).
  assert (Qb2 : inject_Z d < JS.pow2 (b + 1)).
  { rewrite <- pow2_inject by lia. rewrite <- Zlt_Qlt.
    now rewrite <- Z.add_1_r in Hb2. }
  assert (Qd : 0 < inject_Z d) by (rewrite Zlt_Qlt in Hd; exact Hd).
  assert (Hup : Qabs x < JS.pow2 (a - b + 1)).
  { rewrite Habs. apply Qlt_shift_div_r; [exact Qd |].
    replace (a - b + 1)%Z with ((a + 1) + - b)%Z by lia.
    rewrite pow2_plus.
    assert (E : JS.pow2 (- b) * JS.pow2 b == 1).
    { rewrite <- pow2_plus. replace (- b + b)%Z with 0%Z by lia. reflexivity. }
    pose proof (pow2_pos (a + 1)) as P1. pose proof (pow2_pos (- b)) as P2.
    assert (H1 : 0 < JS.pow2 (a + 1) * JS.pow2 (- b)) by nra.
    assert (H2 : JS.pow2 (a + 1) * JS.pow2 (- b) * JS.pow2 b == JS.pow2 (a + 1))
      by (rewrite <- Qmult_assoc, E; ring).
    set (c := JS.pow2 (a + 1) * JS.pow2 (- b)) in *. nra. }
  assert (Hlow : JS.pow2 (a - b - 1) < Qabs x).
  { rewrite Habs. apply Qlt_shift_div_l; [exact Qd |].
    replace (a - b - 1)%Z with (a + - (b + 1))%Z by lia.
    rewrite pow2_plus.
    assert (E : JS.pow2 (- (b + 1)) * JS.pow2 (b + 1) == 1).
    { rewrite <- pow2_plus. replace (- (b + 1) + (b + 1))%Z with 0%Z by lia.
      reflexivity. }
    pose proof (pow2_pos a) as P1. pose proof (pow2_pos (- (b + 1))) as P2.
    assert (H1 : 0 < JS.pow2 a * JS.pow2 (- (b + 1))) by nra.
    assert (H2 : JS.pow2 a * JS.pow2 (- (b + 1)) * JS.pow2 (b + 1) == JS.pow2 a)
      by (rewrite <- Qmult_assoc, E; ring).
    set (c := JS.pow2 a * JS.pow2 (- (b + 1))) in *. nra. }
  destruct (Qle_bool (JS.pow2 (a - b)) (Qabs x)) eqn:E.
  - apply Qle_bool_iff in E. split; [exact E | exact Hup].
  - split; [apply Qlt_le_weak; exact Hlow |].
    replace (a - b - 1 + 1)%Z with (a - b)%Z by lia.
    apply Qnot_le_lt. intro H. apply Qle_bool_iff in H. congruence.
Qed.

Lemma ilog2_monotone (x y : Q) :
  ~ x == 0 -> Qabs x <= Qabs y -> (JS.ilog2 x <= JS.ilog2 y)%Z.
Proof.
  intros Hx Hle.
  assert (Hy : ~ y == 0).
  { intro E. rewrite E in Hle. simpl in Hle.
    pose proof (Qabs_nonneg x). apply Hx.
    assert (Hz : Qabs x == 0) by lra.
    destruct (Qlt_le_dec x 0) as [N | N];
      [rewrite Qabs_neg in Hz by lra | rewrite Qabs_pos in Hz by lra]; lra. }
  destruct (ilog2_spec x Hx) as [L1 _]. destruct (ilog2_spec y Hy) as [_ U2].
  assert (H : JS.pow2 (JS.ilog2 x) < JS.pow2 (JS.ilog2 y + 1)) by lra.
  apply pow2_lt_inv in H. lia.
Qed.

Lemma binary64_core (x : Q) : ~ x == 0 -> JS.binary64 x == JS.core x.
Proof.
  intro H. unfold JS.binary64.
  destruct (Qeq_bool x 0) eqn:E; [apply Qeq_bool_iff in E; contradiction |].
  apply Qred_correct.
Qed.

Lemma binary64_zero (x : Q) : x == 0 -> JS.binary64 x == 0.
Proof.
  intro H. unfold JS.binary64. apply Qeq_bool_iff in H. now rewrite H.
Qed.

Lemma scaled (x : Q) (e : Z) : x / JS.pow2 e * JS.pow2 e == x.
Proof. field. pose proof (pow2_pos e). lra. Qed.

Lemma core_pos (x : Q) :
  0 < x -> JS.pow2 (JS.ilog2 x) <= JS.core x /\ JS.core x <= JS.pow2 (JS.ilog2 x + 1).
Proof.
  intro Hx. assert (Hnz : ~ x == 0) by lra.
  destruct (ilog2_spec x Hnz) as [L U].
  rewrite Qabs_pos in L, U by lra.
  unfold JS.core. cbv zeta. set (e := (JS.ilog2 x - 52)%Z).
  pose proof (pow2_pos e) as He. pose proof (scaled x e) as Hs.
  set (s := x / JS.pow2 e) in *.
  assert (E1 : JS.pow2 (JS.ilog2 x) == JS.pow2 52 * JS.pow2 e).
  { rewrite <- pow2_plus. unfold e.
    now replace (52 + (JS.ilog2 x - 52))%Z with (JS.ilog2 x) by lia. }
  assert (E2 : JS.pow2 (JS.ilog2 x + 1) == JS.pow2 53 * JS.pow2 e).
  { rewrite <- pow2_plus. unfold e.
    now replace (53 + (JS.ilog2 x - 52))%Z with (JS.ilog2 x + 1)%Z by lia. }
  assert (S1 : inject_Z (2 ^ 52) <= s).
  { rewrite pow2_inject by lia. apply Qnot_lt_le. intro C. nra. }
  assert (S2 : s <= inject_Z (2 ^ 53)).
  { rewrite pow2_inject by lia. apply Qnot_lt_le. intro C. nra. }
  apply round_even_monotone in S1, S2. rewrite round_even_integer in S1, S2.
  rewrite Zle_Qle in S1, S2. rewrite pow2_inject in S1, S2 by lia.
  rewrite E1, E2. split; nra.
Qed.

Lemma core_neg (x : Q) :
  x < 0 -> - JS.pow2 (JS.ilog2 x + 1) <= JS.core x /\ JS.core x <= - JS.pow2 (JS.ilog2 x).
Proof.
  intro Hx. assert (Hnz : ~ x == 0) by lra.
  destruct (ilog2_spec x Hnz) as [L U].
  rewrite Qabs_neg in L, U by lra.
  unfold JS.core. cbv zeta. set (e := (JS.ilog2 x - 52)%Z).
  pose proof (pow2_pos e) as He. pose proof (scaled x e) as Hs.
  set (s := x / JS.pow2 e) in *.
  assert (E1 : JS.pow2 (JS.ilog2 x) == JS.pow2 52 * JS.pow2 e).
  { rewrite <- pow2_plus. unfold e.
    now replace (52 + (JS.ilog2 x - 52))%Z with (JS.ilog2 x) by lia. }
  assert (E2 : JS.pow2 (JS.ilog2 x + 1) == JS.pow2 53 * JS.pow2 e).
  { rewrite <- pow2_plus. unfold e.
    now replace (53 + (JS.ilog2 x - 52))%Z with (JS.ilog2 x + 1)%Z by lia. }
  assert (S1 : s <= inject_Z (- 2 ^ 52)).
  { rewrite inject_Z_opp, pow2_inject by lia. apply Qnot_lt_le. intro C. nra. }
  assert (S2 : inject_Z (- 2 ^ 53) <= s).
  { rewrite inject_Z_opp, pow2_inject by lia. apply Qnot_lt_le. intro C. nra. }
  apply round_even_monotone in S1, S2. rewrite round_even_integer in S1, S2.
  rewrite Zle_Qle in S1, S2.
  rewrite inject_Z_opp, pow2_inject in S1, S2 by lia.
  rewrite E1, E2. split; nra.
Qed.

Lemma core_monotone_pos (x y : Q) : 0 < x -> x <= y -> JS.core x <= JS.core y.
Proof.
  intros Hx Hle. assert (Hy : 0 < y) by lra.
  assert (Hm : (JS.ilog2 x <= JS.ilog2 y)%Z).
  { apply ilog2_monotone; [lra |]. now rewrite !Qabs_pos by lra. }
  destruct (Z.eq_dec (JS.ilog2 x) (JS.ilog2 y)) as [E | E].
  - unfold JS.core. cbv zeta. rewrite E. set (e := (JS.ilog2 y - 52)%Z).
    pose proof (pow2_pos e) as He.
    assert (Hs : x / JS.pow2 e <= y / JS.pow2 e).
    { unfold Qdiv. apply Qmult_le_compat_r; [exact Hle |].
      apply Qlt_le_weak, Qinv_lt_0_compat, He. }
    apply round_even_monotone in Hs. rewrite Zle_Qle in Hs. nra.
  - destruct (core_pos x Hx) as [_ U]. destruct (core_pos y Hy) as [L _].
    assert (JS.pow2 (JS.ilog2 x + 1) <= JS.pow2 (JS.ilog2 y)) by (apply pow2_le; lia).
    lra.
Qed.

Lemma core_monotone_neg (x y : Q) : y < 0 -> x <= y -> JS.core x <= JS.core y.
Proof.
  intros Hy Hle. assert (Hx : x < 0) by lra.
  assert (Hm : (JS.ilog2 y <= JS.ilog2 x)%Z).
  { apply ilog2_monotone; [lra |]. rewrite !Qabs_neg by lra. lra. }
  destruct (Z.eq_dec (JS.ilog2 x) (JS.ilog2 y)) as [E | E].
  - unfold JS.core. cbv zeta. rewrite E. set (e := (JS.ilog2 y - 52)%Z).
    pose proof (pow2_pos e) as He.
    assert (Hs : x / JS.pow2 e <= y / JS.pow2 e).
    { unfold Qdiv. apply Qmult_le_compat_r; [exact Hle |].
      apply Qlt_le_weak, Qinv_lt_0_compat, He. }
    apply round_even_monotone in Hs. rewrite Zle_Qle in Hs. nra.
  - destruct (core_neg x Hx) as [_ U]. destruct (core_neg y Hy) as [L _].
    assert (JS.pow2 (JS.ilog2 y + 1) <= JS.pow2 (JS.ilog2 x)) by (apply pow2_le; lia).
    lra.
Qed.

Lemma binary64_monotone (x y : Q) : x <= y -> JS.binary64 x <= JS.binary64 y.
Proof.
  intro Hle.
  destruct (Q_dec x 0) as [[Hx | Hx] | Hx];
    destruct (Q_dec y 0) as [[Hy | Hy] | Hy]; try (exfalso; lra).
  - rewrite !binary64_core by lra. now apply core_monotone_neg.
  - rewrite (binary64_core x), (binary64_core y) by lra.
    destruct (core_neg x Hx) as [_ U]. destruct (core_pos y Hy) as [L _].
    pose proof (pow2_pos (JS.ilog2 x)). pose proof (pow2_pos (JS.ilog2 y)). lra.
  - rewrite (binary64_core x), (binary64_zero y) by lra.
    destruct (core_neg x Hx) as [_ U]. pose proof (pow2_pos (JS.ilog2 x)). lra.
  - rewrite !binary64_core by lra. now apply core_monotone_pos.
  - rewrite (binary64_zero x), (binary64_core y) by lra.
    destruct (core_pos y Hy) as [L _]. pose proof (pow2_pos (JS.ilog2 y)). lra.
  - rewrite !binary64_zero by lra. lra.
Qed.

Lemma binary64_integer (z : Z) :
  (Z.abs z < 2 ^ 53)%Z -> JS.binary64 (inject_Z z) == inject_Z z.
Proof.
  intro Hz. destruct (Z.eq_dec z 0) as [-> | Hnz]; [reflexivity |].
  assert (Hq : ~ inject_Z z == 0).
  { intro E. apply Hnz. unfold Qeq in E. simpl in E. lia. }
  rewrite binary64_core by exact Hq.
  destruct (ilog2_spec _ Hq) as [L _].
  assert (Habs : Qabs (inject_Z z) == inject_Z (Z.abs z)) by reflexivity.
  assert (He : (JS.ilog2 (inject_Z z) - 52 <= 0)%Z).
  { assert (H : JS.pow2 (JS.ilog2 (inject_Z z)) < JS.pow2 53).
    { rewrite <- (pow2_inject 53) by lia. rewrite Habs in L.
      rewrite Zlt_Qlt in Hz. lra. }
    apply pow2_lt_inv in H. lia. }
  unfold JS.core. cbv zeta. set (e := (JS.ilog2 (inject_Z z) - 52)%Z) in *.
  assert (Hs : inject_Z z / JS.pow2 e == inject_Z (z * 2 ^ (- e))).
  { rewrite inject_Z_mult, pow2_inject by lia.
    assert (E : JS.pow2 (- e) * JS.pow2 e == 1).
    { rewrite <- pow2_plus. now replace (- e + e)%Z with 0%Z by lia. }
    pose proof (pow2_pos e) as P.
    apply (Qmult_inj_r _ _ (JS.pow2 e)); [lra |].
    rewrite scaled, <- Qmult_assoc, E. ring. }
  assert (Hr : JS.round_even (inject_Z z / JS.pow2 e) = (z * 2 ^ (- e))%Z).
  { apply Z.le_antisymm.
    - rewrite <- (round_even_integer (z * 2 ^ (- e))).
      apply round_even_monotone. rewrite Hs. apply Qle_refl.
    - rewrite <- (round_even_integer (z * 2 ^ (- e))) at 1.
      apply round_even_monotone. rewrite Hs. apply Qle_refl. }
  rewrite Hr, <- Hs. apply scaled.
Qed.

Lemma binary64_positive (x : Q) : 0 < x -> 0 < JS.binary64 x.
Proof.
  intro Hx. rewrite binary64_core by lra.
  destruct (core_pos x Hx) as [L _]. pose proof (pow2_pos (JS.ilog2 x)). lra.
Qed.

End Binary64.

(** The arithmetic of IEEE doubles. *)
Lemma doubles : JS.Rounding.
Proof.
  exact (JS.Build_Rounding JS.binary64 binary64_monotone binary64_integer
           binary64_positive).
Defined.

(** The doubles nearest to 0.1 and to 5000.1, and the sum [0.1 + 0.2]. *)
Example binary64_examples :
  let R := doubles in
  JS.rnd (1 # 10) = 3602879701896397 # 36028797018963968 /\
  JS.rnd (50001 # 10) = 2748834045021389 # 549755813888 /\
  JS.add (JS.rnd (1 # 10)) (JS.rnd (2 # 10))
  = 1351079888211149 # 4503599627370496 /\
  JS.rnd (3 # 10) = 5404319552844595 # 18014398509481984 /\
  JS.Number 5000 /\ ~ JS.Number (1 # 10).
Proof.
  intro R. vm_compute. repeat split; try reflexivity; discriminate.
Qed.

(** ** Facts about a rounding *)

Section RoundingFacts.

Context {R : JS.Rounding}.

Lemma rnd_proper (x y : Q) : x == y -> JS.rnd x == JS.rnd y.
Proof.
  intro E. apply Qle_antisym; apply JS.rnd_monotone; rewrite E; apply Qle_refl.
Qed.

(** The integers below 2^53 are numbers, and a rounded result is on the
    same side of them as the exact one. *)
Lemma Number_integer (z : Z) :
  (Z.abs z < 2 ^ 53)%Z -> JS.Number (inject_Z z).
Proof. apply JS.rnd_integer. Qed.

Lemma Number_below (a x : Q) : JS.Number a -> a <= x -> a <= JS.rnd x.
Proof.
  intros Ha H. apply JS.rnd_monotone in H. unfold JS.Number in Ha. lra.
Qed.

Lemma Number_above (a x : Q) : JS.Number a -> x <= a -> JS.rnd x <= a.
Proof.
  intros Ha H. apply JS.rnd_monotone in H. unfold JS.Number in Ha. lra.
Qed.

Lemma Number_lt_rnd (a x : Q) : JS.Number a -> a < JS.rnd x -> a < x.
Proof.
  intros Ha H. apply Qnot_le_lt. intro C.
  pose proof (Number_above a x Ha C). lra.
Qed.

Lemma Number_rnd_lt (a x : Q) : JS.Number a -> JS.rnd x < a -> x < a.
Proof.
  intros Ha H. apply Qnot_le_lt. intro C.
  pose proof (Number_below a x Ha C). lra.
Qed.

Lemma rnd_zero : JS.rnd 0 == 0.
Proof. apply (JS.rnd_integer 0). reflexivity. Qed.

Lemma rnd_nonneg (x : Q) : 0 <= x -> 0 <= JS.rnd x.
Proof.
  intro H. apply Number_below; [exact rnd_zero | exact H].
Qed.

End RoundingFacts.


(** ** Session analyzer: trimming *)

Section Trimming.

Context {R : JS.Rounding}.

Import Session.

Lemma last_cons_in {A : Type} (xs : list A) (a d : A) :
  In (last (a :: xs) d) (a :: xs).
Proof.
  revert a. induction xs as [|b xs IH]; intro a.
  - now left.
  - right. change (last (a :: b :: xs) d) with (last (b :: xs) d). apply IH.
Qed.

(** On at least two cycles [trimCycles] is the test on the span followed by
    the filter. *)
Lemma trimCycles_long (a b : CycleSummary.t) (rest : list CycleSummary.t) :
  let xs := a :: b :: rest in
  Analysis.trimCycles xs =
  if JS.leb (measured_span xs) 5000 then xs
  else filter (fun c => JS.leb (CycleSummary.timestamp c) (cutoff xs)) xs.
Proof. reflexivity. Qed.

Lemma short_dec (xs : list CycleSummary.t) : {short xs} + {~ short xs}.
Proof.
  unfold short. destruct (le_dec (length xs) 1) as [H | H]; [now left; left |].
  destruct (Qlt_le_dec 5000 (measured_span xs)) as [H' | H'].
  - right. intros [E | E]; [contradiction | now apply (Qlt_not_le _ _ H')].
  - left. now right.
Qed.

Lemma trimCycles_short (xs : list CycleSummary.t) :
  short xs -> Analysis.trimCycles xs = xs.
Proof.
  destruct xs as [|a [|b rest]]; try reflexivity.
  intros [H | H]; [simpl in H; lia |].
  rewrite trimCycles_long. apply leb_le in H. now rewrite H.
Qed.

Lemma trimCycles_filter (xs : list CycleSummary.t) :
  ~ short xs ->
  Analysis.trimCycles xs =
  filter (fun c => JS.leb (CycleSummary.timestamp c) (cutoff xs)) xs.
Proof.
  destruct xs as [|a [|b rest]].
  - intros H. exfalso. apply H. left. simpl. lia.
  - intros H. exfalso. apply H. left. simpl. lia.
  - intros H. rewrite trimCycles_long.
    destruct (JS.leb (measured_span (a :: b :: rest)) 5000) eqn:E;
      [| reflexivity].
    exfalso. apply H. right. now apply leb_le.
Qed.

(** A span of at most 5000 ms is computed as at most 5000 ms, and a
    computed span above 5000 ms is one. *)
Lemma span_short (xs : list CycleSummary.t) :
  (length xs <= 1)%nat \/ span xs <= 5000 -> short xs.
Proof.
  intros [H | H]; [now left | right].
  unfold measured_span, JS.sub. apply Number_above; [| exact H].
  apply (Number_integer 5000). reflexivity.
Qed.

Lemma long_span (xs : list CycleSummary.t) : ~ short xs -> 5000 < span xs.
Proof.
  intro H. apply Qnot_le_lt. intro C. apply H, span_short. now right.
Qed.

(** A timestamp above the computed cutoff is less than 5000 ms before the
    last one. *)
Lemma after_cutoff_trailing (xs : list CycleSummary.t) (c : CycleSummary.t) :
  JS.Number (CycleSummary.timestamp c) ->
  after_cutoff xs c -> in_trailing_window xs c.
Proof.
  unfold after_cutoff, cutoff, in_trailing_window, JS.sub.
  intros Hn H. exact (Number_rnd_lt _ _ Hn H).
Qed.




End Trimming.

Section TrimmingClaims.

Context {R : JS.Rounding}.

Import Session.

(** C9. At most one entry, or a span (last minus first) of at most
    5000 ms: [trimCycles] returns its input.  In general the span and the
    cutoff are the differences that the program computes: with at most one
    entry or a computed span of at most 5000 ms [trimCycles] returns its
    input, and otherwise it returns, in their order, exactly the summaries
    whose timestamp is not above the computed cutoff [lastTime - 5000],
    whatever their index and however many they are.  Where the timestamps
    are numbers, a summary that is dropped is less than 5000 ms before the
    last one. *)
Theorem trimCycles_by_timestamp (xs : list CycleSummary.t) :
  ((length xs <= 1)%nat \/ span xs <= 5000 -> Analysis.trimCycles xs = xs) /\
  (short xs -> Analysis.trimCycles xs = xs) /\
  (~ short xs ->
   Analysis.trimCycles xs = filter (fun c => negb (after_cutoffb xs c)) xs /\
   forall c, In c (Analysis.trimCycles xs) <->
             In c xs /\ ~ after_cutoff xs c) /\
  (numbers xs ->
   forall c, In c xs -> ~ In c (Analysis.trimCycles xs) ->
             in_trailing_window xs c).
Proof.
  assert (Hlong : ~ short xs ->
    Analysis.trimCycles xs = filter (fun c => negb (after_cutoffb xs c)) xs /\
    forall c, In c (Analysis.trimCycles xs) <->
              In c xs /\ ~ after_cutoff xs c).
  { intro H. rewrite (trimCycles_filter xs H). split.
    - apply filter_ext. intro c. apply leb_negb_ltb.
    - intro c. rewrite filter_In, leb_le. unfold after_cutoff.
      split; intros [Hin Hc]; split; trivial.
      + now apply Qle_not_lt.
      + now apply Qnot_lt_le. }
  split; [intro H; apply trimCycles_short, span_short, H |].
  split; [apply trimCycles_short |]. split; [exact Hlong |].
  intros Hn c Hin Hout. destruct (short_dec xs) as [H | H].
  - rewrite (trimCycles_short xs H) in Hout. contradiction.
  - destruct (Hlong H) as [_ Hiff].
    unfold numbers in Hn. rewrite Forall_forall in Hn.
    apply after_cutoff_trailing; [now apply Hn |].
    unfold after_cutoff. apply Qnot_le_lt. intro C.
    apply Hout, Hiff. split; [exact Hin |]. unfold after_cutoff. lra.
Qed.


End TrimmingClaims.

(** In double arithmetic: a session of two cycles 6000 ms apart is trimmed
    to its first cycle, and one spanning exactly 5000 ms is returned as it
    is.  The doubles nearest to 0.1 and 5000.1 are more than 5000 apart,
    their difference is computed as 5000 and both cycles are kept; the
    doubles nearest to 3192.2 and 8192.2 are more than 5000 apart as well,
    their difference is computed as such and the second cycle is
    dropped. *)
Lemma trimCycles_by_timestamp_witness :
  let R := doubles in
  let early := Vectors.cycle 1 (JS.rnd (1 # 10)) 140 in
  let late := Vectors.cycle 2 (JS.rnd (50001 # 10)) 150 in
  let third := Vectors.cycle 1 (JS.rnd (31922 # 10)) 140 in
  let eighth := Vectors.cycle 2 (JS.rnd (81922 # 10)) 150 in
  Analysis.trimCycles [Vectors.cycle 1 0 140; Vectors.cycle 2 6000 150]
  = [Vectors.cycle 1 0 140] /\
  Analysis.trimCycles [Vectors.cycle 1 0 140; Vectors.cycle 2 5000 150]
  = [Vectors.cycle 1 0 140; Vectors.cycle 2 5000 150] /\
  (5000 < Session.span [early; late] /\
   Session.measured_span [early; late] == 5000 /\
   Analysis.trimCycles [early; late] = [early; late]) /\
  (5000 < Session.span [third; eighth] /\
   5000 < Session.measured_span [third; eighth] /\
   Analysis.trimCycles [third; eighth] = [third] /\
   Session.in_trailing_window [third; eighth] eighth).
Proof.
  intros R early late third eighth.
  split; [| split; [| split]].
  - destruct (trimCycles_by_timestamp
                [Vectors.cycle 1 0 140; Vectors.cycle 2 6000 150])
      as (_ & _ & H & _).
    destruct H as [H _]; [| exact H].
    intros [H | H]; [simpl in H; lia | vm_compute in H; congruence].
  - apply (trimCycles_by_timestamp
             [Vectors.cycle 1 0 140; Vectors.cycle 2 5000 150]).
    right. vm_compute. congruence.
  - split; [vm_compute; reflexivity |]. split; [vm_compute; reflexivity |].
    apply (trimCycles_by_timestamp [early; late]).
    right. vm_compute. congruence.
  - split; [vm_compute; reflexivity |]. split; [vm_compute; reflexivity |].
    split; [vm_compute; reflexivity |].
    destruct (trimCycles_by_timestamp [third; eighth]) as (_ & _ & _ & H).
    apply H.
    + repeat constructor; vm_compute; reflexivity.
    + right. now left.
    + vm_compute. intros [E | []]. discriminate.
Defined.


(** In double arithmetic: four cycles over nine seconds are trimmed to the
    first two, for good; three cycles at the doubles nearest to 3192.2,
    8192.2 and 13192.2, with a span computed as 10000 ms, are trimmed
    twice. *)
Example trimCycles_session_9s :
  let R := doubles in
  let ys := map (fun i => Vectors.cycle 1 (JS.rnd (i # 10)) 140)
                [31922; 81922; 131922]%Z in
  Session.ordered Vectors.session_9s /\
  Analysis.trimCycles Vectors.session_9s
  = [Vectors.cycle 1 0 140; Vectors.cycle 2 3000 160] /\
  Analysis.trimCycles (Analysis.trimCycles Vectors.session_9s)
  = Analysis.trimCycles Vectors.session_9s /\
  Session.measured_span ys == 10000 /\
  length (Analysis.trimCycles ys) = 2%nat /\
  length (Analysis.trimCycles (Analysis.trimCycles ys)) = 1%nat.
Proof.
  intros R ys. split.
  - unfold Session.ordered, Vectors.session_9s.
    repeat (constructor; simpl; try (unfold Qle; simpl; lia)).
  - vm_compute. repeat split; reflexivity.
Qed.

(** ** Session analyzer: classification *)

Section Classification.

Context {R : JS.Rounding}.

Variable Math_pow : Q -> Q -> Q.
Variable Math_sqrt : Q -> Q.

Lemma classify_classified (th : Threshold.t) (m : Q) :
  Threshold.min th <= Threshold.max th ->
  Classification.classified th m (fst (Analysis.classify th m)) (snd (Analysis.classify th m)).
Proof.
  intro Hrange. unfold Classification.classified, Analysis.classify.
  destruct (JS.ltb m (Threshold.min th)) eqn:Elow;
    [| destruct (JS.gtb m (Threshold.max th)) eqn:Ehigh];
    js_reflect; simpl.
  - destruct (JS.gtb (Threshold.min th - m) 10) eqn:Ediff; js_reflect;
      repeat split; intros; try discriminate; try reflexivity; try lra.
  - destruct (JS.gtb (m - Threshold.max th) 10) eqn:Ediff; js_reflect;
      repeat split; intros; try discriminate; try reflexivity; try lra.
  - repeat split; intros; try reflexivity; try lra.
Qed.

Lemma THRESHOLDS_ranges :
  Forall (fun entry => Threshold.min (snd entry) <= Threshold.max (snd entry))
         Analysis.THRESHOLDS.
Proof. repeat constructor; simpl; unfold Qle; simpl; lia. Qed.

Lemma analyzeChannel_fields (cycleData : list CycleSummary.t)
    (c : Analysis.Channel) (th : Threshold.t) :
  let r := Analysis.analyzeChannel Math_pow Math_sqrt cycleData (c, th) in
  let m := Analysis.mean (Analysis.angleValues cycleData c) in
  Recommendation.key r = Analysis.key_of c /\
  Recommendation.targetMin r = Threshold.min th /\
  Recommendation.targetMax r = Threshold.max th /\
  Recommendation.avg r = Analysis.round1 m /\
  Recommendation.status r = fst (Analysis.classify th m) /\
  Recommendation.suggestion r = snd (Analysis.classify th m).
Proof.
  unfold Analysis.analyzeChannel.
  destruct (Analysis.classify th _) as [status suggestion].
  simpl. repeat split.
Qed.

(** C6. For a session with at least one cycle, [analyzeSession] returns one
    result per channel of [THRESHOLDS], in order; with [m] the mean of the
    channel over the session as the program computes it, the sum taken
    from left to right divided by the count, the status is green iff [m]
    lies within
    [[targetMin, targetMax]], and the suggestion is then the good text; if
    [m < targetMin] the status is red when [targetMin - m > 10] and yellow
    otherwise, with the low text; if [m > targetMax] the status is red when
    [m - targetMax > 10] and yellow otherwise, with the high text. *)
Theorem analyzeSession_classifies (cycleData : list CycleSummary.t) :
  cycleData <> [] ->
  Forall2
    (fun entry r =>
       let m := Analysis.mean (Analysis.angleValues cycleData (fst entry)) in
       Recommendation.key r = Analysis.key_of (fst entry) /\
       Recommendation.targetMin r = Threshold.min (snd entry) /\
       Recommendation.targetMax r = Threshold.max (snd entry) /\
       Classification.classified (snd entry) m
         (Recommendation.status r) (Recommendation.suggestion r))
    Analysis.THRESHOLDS
    (Analysis.analyzeSession Math_pow Math_sqrt cycleData).
Proof.
  intro Hne. unfold Analysis.analyzeSession.
  destruct cycleData as [|c0 rest]; [congruence |].
  change (length (c0 :: rest) =? 0)%nat with false. cbv iota.
  set (cd := c0 :: rest).
  pose proof THRESHOLDS_ranges as Hranges.
  induction Analysis.THRESHOLDS as [|[c th] entries IH]; cbn [map].
  - constructor.
  - apply Forall_cons_iff in Hranges. destruct Hranges as [Hrange Hranges].
    constructor; [| now apply IH].
    destruct (analyzeChannel_fields cd c th)
      as (Hkey & Hmin & Hmax & _ & Hstatus & Hsuggestion).
    cbv zeta in Hkey, Hmin, Hmax, Hstatus, Hsuggestion.
    cbn [fst snd] in *.
    rewrite Hkey, Hmin, Hmax, Hstatus, Hsuggestion.
    do 3 (split; [reflexivity |]). now apply classify_classified.
Qed.

End Classification.

(** In double arithmetic: the knee of the three cycles {140, 160, 130} has
    a mean near 430/3, inside [[135, 150]]: green. *)
Lemma analyzeSession_classifies_witness :
  let R := doubles in
  Vectors.session_12s <> [] /\
  Forall2
    (fun entry r =>
       let m := Analysis.mean
                  (Analysis.angleValues Vectors.session_12s (fst entry)) in
       Recommendation.key r = Analysis.key_of (fst entry) /\
       Recommendation.targetMin r = Threshold.min (snd entry) /\
       Recommendation.targetMax r = Threshold.max (snd entry) /\
       Classification.classified (snd entry) m
         (Recommendation.status r) (Recommendation.suggestion r))
    Analysis.THRESHOLDS
    (Analysis.analyzeSession Vectors.any_pow Vectors.any_sqrt Vectors.session_12s).
Proof.
  intro R. assert (H : Vectors.session_12s <> []) by discriminate.
  split; [exact H |].
  exact (analyzeSession_classifies Vectors.any_pow Vectors.any_sqrt _ H).
Defined.

(** A mean 12 degrees below [targetMin] is red, one 8 degrees below is
    yellow, and symmetrically above [targetMax]. *)
Example classify_knee_examples :
  fst (Analysis.classify Analysis.knee_threshold 123) = Red /\
  fst (Analysis.classify Analysis.knee_threshold 127) = Yellow /\
  fst (Analysis.classify Analysis.knee_threshold 162) = Red /\
  fst (Analysis.classify Analysis.knee_threshold 158) = Yellow /\
  fst (Analysis.classify Analysis.knee_threshold (430 # 3)) = Green.
Proof. repeat split. Qed.

(** In double arithmetic the mean of the knee maxima 135 - 2^-45 and 135 is
    computed as 135: the status is green, although the two values average
    below the target range. *)
Example mean_rounded_into_range :
  let R := doubles in
  let low := 135 - (1 # 2 ^ 45) in
  let session := [Vectors.cycle 1 0 low; Vectors.cycle 2 1000 135] in
  JS.Number low /\
  (low + 135) / 2 < 135 /\
  Analysis.mean (Analysis.angleValues session Analysis.Knee) == 135 /\
  map Recommendation.status
      (Analysis.analyzeSession Vectors.any_pow Vectors.any_sqrt session)
  = [Green; Green; Green; Green].
Proof.
  intros R low session. vm_compute. repeat split; reflexivity.
Qed.

(** ** Session analyzer: sessions without cycles *)

Section NoData.

Context {R : JS.Rounding}.

Variable Math_pow : Q -> Q -> Q.
Variable Math_sqrt : Q -> Q.

(** Trimming never empties a session whose first timestamp is a
    number. *)
Lemma trimCycles_nonempty (xs : list CycleSummary.t) :
  JS.Number (Session.firstTime xs) ->
  xs <> [] -> Analysis.trimCycles xs <> [].
Proof.
  intros Hn Hne. destruct (short_dec xs) as [H | H].
  - now rewrite (trimCycles_short xs H).
  - rewrite (trimCycles_filter xs H).
    pose proof (long_span xs H) as L.
    destruct xs as [|a xs]; [congruence |].
    assert (Hin : In a (filter
      (fun c => JS.leb (CycleSummary.timestamp c)
                       (Session.cutoff (a :: xs))) (a :: xs))).
    { apply filter_In. split; [now left |]. apply leb_le.
      unfold Session.cutoff, JS.sub. apply Number_below; [exact Hn |].
      unfold Session.span in L. simpl Session.firstTime in L. lra. }
    intro E. rewrite E in Hin. contradiction.
Qed.

Lemma numbers_firstTime (xs : list CycleSummary.t) :
  Session.numbers xs -> JS.Number (Session.firstTime xs).
Proof.
  destruct xs as [|a xs]; intro H.
  - exact rnd_zero.
  - apply Forall_cons_iff in H. exact (proj1 H).
Qed.

(** C7, as amended.  On zero cycles [analyzeSession] returns the empty
    array, and on at least one cycle it returns four results, so the empty
    array is returned for zero cycles only.  The "no data" report is made by
    the caller, [finalizeAnalysis]: it reports that no cycle was captured
    exactly when the session is empty, never reaches its second "no valid
    cycle" report, since trimming does not empty a session whose timestamps
    are numbers, and otherwise presents four results. *)
Theorem analyzeSession_zero_cycles (cycleData : list CycleSummary.t) :
  (Analysis.analyzeSession Math_pow Math_sqrt cycleData = [] <->
   cycleData = []) /\
  (cycleData <> [] ->
   length (Analysis.analyzeSession Math_pow Math_sqrt cycleData) = 4%nat) /\
  (Analysis.finalizeAnalysis Math_pow Math_sqrt cycleData
   = Analysis.NoCyclesCaptured
   <-> cycleData = []) /\
  (Session.numbers cycleData ->
   Analysis.finalizeAnalysis Math_pow Math_sqrt cycleData
   <> Analysis.NoValidCyclesAfterFiltering) /\
  (forall results,
     Analysis.finalizeAnalysis Math_pow Math_sqrt cycleData
     = Analysis.AnalysisComplete results ->
     length results = 4%nat).
Proof.
  assert (Hfour : forall xs, xs <> [] ->
            length (Analysis.analyzeSession Math_pow Math_sqrt xs) = 4%nat).
  { intros [|c rest] Hne; [congruence | reflexivity]. }
  destruct cycleData as [|c rest].
  - repeat split; intros; try reflexivity; try congruence; discriminate.
  - assert (Hne : c :: rest <> []) by discriminate.
    unfold Analysis.finalizeAnalysis.
    change (length (c :: rest) =? 0)%nat with false. cbv iota.
    split; [| split; [| split; [| split]]].
    + split; intro H; [| discriminate].
      apply (f_equal (@length _)) in H. rewrite (Hfour _ Hne) in H.
      discriminate.
    + intros _. now apply Hfour.
    + split; [| discriminate].
      destruct (Analysis.trimCycles (c :: rest)); discriminate.
    + intro Hn.
      pose proof (trimCycles_nonempty _ (numbers_firstTime _ Hn) Hne) as Htrim.
      destruct (Analysis.trimCycles (c :: rest)); [congruence | discriminate].
    + intros results.
      destruct (Analysis.trimCycles (c :: rest)) as [|c' rest'];
        [discriminate |].
      change (length (c' :: rest') =? 0)%nat with false. cbv iota.
      intro H. injection H as <-. apply Hfour. discriminate.
Qed.

End NoData.

(** C7 as stated fails: for zero cycles [analyzeSession] returns the empty
    array, the value of an analysis without any result, and nothing in it
    tells the caller that data was missing. *)
Lemma analyzeSession_empty_success :
  let R := doubles in
  Analysis.analyzeSession Vectors.any_pow Vectors.any_sqrt [] = [] /\
  Analysis.analyzeSession Vectors.any_pow Vectors.any_sqrt []
  = map (Analysis.analyzeChannel Vectors.any_pow Vectors.any_sqrt []) [].
Proof. intro R. split; reflexivity. Qed.

(** ** Angle geometry *)

Section AngleGeometry.

Variable Math_atan2 : Q -> Q -> Q.
Variable Math_PI : Q.





End AngleGeometry.

(** A left knee (index 25) seen with confidence 0.5 makes the frame
    unavailable for the left side; the right side of the same frame, and
    the left side at confidence 0.6, yield the four angles. *)
Example computeAngles_examples :
  Angles.computeAngles Vectors.any_atan2 Vectors.any_PI
    (Vectors.landmarks 25 (5 # 10)) Angles.Left (16 # 9) = None /\
  Angles.computeAngles Vectors.any_atan2 Vectors.any_PI
    (Vectors.landmarks 25 (5 # 10)) Angles.Right (16 # 9) <> None /\
  Angles.computeAngles Vectors.any_atan2 Vectors.any_PI
    (Vectors.landmarks 25 (6 # 10)) Angles.Left (16 # 9) <> None /\
  Angles.computeAngles Vectors.any_atan2 Vectors.any_PI
    (firstn 27 (Vectors.landmarks 25 (9 # 10))) Angles.Left (16 # 9) = None.
Proof. vm_compute. repeat split; discriminate. Qed.

(** ** Cycle segmentation engine: one peak *)

Section OnePeak.

Context {R : JS.Rounding}.

Import Cadence.

Lemma band_decide (period : Q) :
  {Cycle.in_band period} + {Cycle.out_of_band period}.
Proof.
  unfold Cycle.in_band, Cycle.out_of_band.
  destruct (Qeq_dec period 0) as [E | E]; [now right; left |].
  destruct (Qlt_le_dec (Cycle.cadence period) 40) as [L | L];
    [now right; right; left |].
  destruct (Qlt_le_dec 120 (Cycle.cadence period)) as [H | H];
    [now right; right; right |].
  now left.
Qed.

Lemma band_exclusive (period : Q) :
  Cycle.in_band period -> Cycle.out_of_band period -> False.
Proof.
  intros (Hz & Hlo & Hhi) [E | [L | H]]; [contradiction | lra | lra].
Qed.

(** The test [rpm < MIN_CADENCE_RPM || rpm > MAX_CADENCE_RPM]. *)
Lemma band_test (period : Q) :
  JS.num_ltb (JS.div 60000 period) MIN_CADENCE_RPM
  || JS.num_gtb (JS.div 60000 period) MAX_CADENCE_RPM = true
  <-> Cycle.out_of_band period.
Proof.
  unfold JS.div, Cycle.out_of_band, Cycle.cadence, MIN_CADENCE_RPM,
    MAX_CADENCE_RPM.
  destruct (JS.eqb period 0) eqn:E; js_reflect.
  - change (JS.eqb 60000 0) with false. change (JS.ltb 0 60000) with true.
    simpl. tauto.
  - simpl. rewrite orb_true_iff. js_reflect. tauto.
Qed.

Lemma band_test_false (period : Q) :
  JS.num_ltb (JS.div 60000 period) MIN_CADENCE_RPM
  || JS.num_gtb (JS.div 60000 period) MAX_CADENCE_RPM = false
  <-> Cycle.in_band period.
Proof.
  rewrite <- not_true_iff_false, band_test. split.
  - intro H. destruct (band_decide period); tauto.
  - intros H H'. exact (band_exclusive period H H').
Qed.

(** The two ways through [_checkCycleComplete]. *)
Lemma checkCycleComplete_cases (d : CadenceDetector) (peakTime : Q) :
  let period := Cycle.period_of d peakTime in
  (((length (peaks d) < 2)%nat \/ Cycle.out_of_band period) /\
   _checkCycleComplete d peakTime = (d, []))
  \/
  ((2 <= length (peaks d))%nat /\ Cycle.in_band period /\
   _checkCycleComplete d peakTime =
   (_checkSteady (Cycle.accepted d peakTime),
    if (0 <? length (currentCycleAngles d))%nat && onCycleCallback d then
      [summarize (S (cycleCount d)) peakTime (JS.div 60000 period)
                 (currentCycleAngles d)]
    else [])).
Proof.
  cbv zeta. unfold _checkCycleComplete, Cycle.period_of.
  destruct (length (peaks d) <? 2)%nat eqn:Elen.
  - left. apply Nat.ltb_lt in Elen. auto.
  - apply Nat.ltb_ge in Elen.
    set (period := JS.sub peakTime (nth (length (peaks d) - 2) (peaks d) 0)).
    destruct (JS.num_ltb (JS.div 60000 period) MIN_CADENCE_RPM
              || JS.num_gtb (JS.div 60000 period) MAX_CADENCE_RPM) eqn:Eband.
    + left. apply band_test in Eband. auto.
    + right. apply band_test_false in Eband.
      split; [exact Elen |]. split; [exact Eband |].
      simpl. destruct (0 <? length (currentCycleAngles d))%nat; reflexivity.
Qed.

End OnePeak.

(** ** Cycle segmentation engine: one sample *)

Section OneSample.

Context {R : JS.Rounding}.

Import Cadence.

Lemma same_cycle_state_refl (d : CadenceDetector) : Cycle.same_cycle_state d d.
Proof. repeat split. Qed.

Lemma checkSteady_frame (d : CadenceDetector) :
  samples (_checkSteady d) = samples d /\
  peaks (_checkSteady d) = peaks d /\
  troughs (_checkSteady d) = troughs d /\
  cycleCount (_checkSteady d) = cycleCount d /\
  lastCycleTime (_checkSteady d) = lastCycleTime d /\
  currentCycleAngles (_checkSteady d) = currentCycleAngles d /\
  onCycleCallback (_checkSteady d) = onCycleCallback d.
Proof.
  unfold _checkSteady.
  destruct (length (peaks d) <? MIN_CYCLES_FOR_STEADY + 1)%nat;
    repeat split.
Qed.

Lemma checkCycleComplete_frame (d : CadenceDetector) (peakTime : Q) :
  samples (fst (_checkCycleComplete d peakTime)) = samples d /\
  peaks (fst (_checkCycleComplete d peakTime)) = peaks d /\
  troughs (fst (_checkCycleComplete d peakTime)) = troughs d /\
  onCycleCallback (fst (_checkCycleComplete d peakTime)) = onCycleCallback d.
Proof.
  destruct (checkCycleComplete_cases d peakTime)
    as [[_ ->] | (_ & _ & ->)]; simpl; [repeat split |].
  destruct (checkSteady_frame (Cycle.accepted d peakTime))
    as (-> & -> & -> & _ & _ & _ & ->).
  repeat split.
Qed.

Lemma shift_while_before_incl {A : Type} (time : A -> Q) (cutoff : Q)
    (xs : list A) (x : A) :
  In x (shift_while_before time cutoff xs) -> In x xs.
Proof.
  induction xs as [|a xs IH]; simpl; [tauto |].
  destruct (JS.ltb (time a) cutoff); [right; now apply IH | tauto].
Qed.

(** [_detectPeaks] either leaves the cycle state alone or runs
    [_checkCycleComplete] once, on the candidate it has just pushed on the
    peaks; afterwards it only touches the two histories. *)
Lemma detectPeaks_shape (d : CadenceDetector) (timestamp : Q) :
  exists d1 out,
    ((d1, out) = (d, []) \/
     ((11 <= length (samples d))%nat /\
      (d1, out) = _checkCycleComplete
                    (set_peaks d (peaks d ++ [t (Cycle.candidate d)]))
                    (t (Cycle.candidate d)))) /\
    snd (_detectPeaks d timestamp) = out /\
    Cycle.same_cycle_state d1 (fst (_detectPeaks d timestamp)) /\
    samples (fst (_detectPeaks d timestamp)) = samples d1 /\
    (forall p, In p (peaks (fst (_detectPeaks d timestamp))) ->
               In p (peaks d1)).
Proof.
  unfold _detectPeaks.
  destruct (length (samples d) <? 5 * 2 + 1)%nat eqn:Elen.
  - exists d, []. simpl. split; [now left |].
    split; [reflexivity |]. split; [apply same_cycle_state_refl |].
    split; [reflexivity | tauto].
  - apply Nat.ltb_ge in Elen. simpl in Elen. cbv zeta.
    fold (Cycle.candidate d).
    match goal with
    | |- context [let '(_, _) := ?X in _] =>
        assert (Hfirst :
          X = (d, []) \/
          X = _checkCycleComplete
                (set_peaks d (peaks d ++ [t (Cycle.candidate d)])) (t (Cycle.candidate d)));
        [| destruct X as [d1 out] eqn:EX]
    end.
    { match goal with
      | |- (if ?c then _ else _) = _ \/ _ => destruct c
      end; [| now left].
      destruct (gap_ok (peaks d) (t (Cycle.candidate d))); [now right | now left]. }
    exists d1, out. split.
    { destruct Hfirst as [H | H]; [left | right; split; [exact Elen |]];
        congruence. }
    match goal with
    | |- context [if ?c then (if ?g then _ else _) else _] =>
        destruct c; [destruct g |]
    end; unfold set_troughs, set_peaks; simpl;
      (split; [reflexivity |]; split; [repeat split |];
       split; [reflexivity |]; intro p; apply shift_while_before_incl).
Qed.

Lemma addSample_entered (d : CadenceDetector) (timestamp kneeY : Q)
    (angles : option AngleSet.t) :
  addSample d timestamp kneeY angles =
  let d0 := Cycle.entered d timestamp kneeY angles in
  if (length (samples d0) <? 10)%nat then (d0, [])
  else _detectPeaks d0 timestamp.
Proof.
  unfold addSample, Cycle.entered.
  destruct angles as [a |]; simpl; [reflexivity |].
  rewrite app_nil_r. reflexivity.
Qed.

(** The peak before the one just pushed is the last peak of the old
    history. *)
Lemma previous_peak (history : list Q) (peakTime : Q) :
  (2 <= length (history ++ [peakTime]))%nat ->
  In (nth (length (history ++ [peakTime]) - 2) (history ++ [peakTime]) 0)
     history.
Proof.
  rewrite length_app. simpl. intro H.
  replace (length history + 1 - 2)%nat with (length history - 1)%nat by lia.
  rewrite app_nth1 by lia. apply nth_In. lia.
Qed.

(** One call of [addSample] either accepts no cycle, and then only grows
    the angle buffer, or accepts exactly one, whose summary covers the whole
    buffer, the angles of this very call included. *)
Lemma addSample_cases (d : CadenceDetector) (timestamp kneeY : Q)
    (angles : option AngleSet.t) :
  let buffer := currentCycleAngles d ++ Cycle.pushed angles in
  let r := addSample d timestamp kneeY angles in
  (snd r = [] /\
   cycleCount (fst r) = cycleCount d /\
   lastCycleTime (fst r) = lastCycleTime d /\
   isSteady (fst r) = isSteady d /\
   currentCycleAngles (fst r) = buffer /\
   onCycleCallback (fst r) = onCycleCallback d)
  \/
  (exists peakTime prevPeak,
     In prevPeak (peaks d) /\
     In peakTime (map t (samples d) ++ [timestamp]) /\
     Cycle.in_band (JS.sub peakTime prevPeak) /\
     cycleCount (fst r) = S (cycleCount d) /\
     lastCycleTime (fst r) = peakTime /\
     currentCycleAngles (fst r) = [] /\
     onCycleCallback (fst r) = onCycleCallback d /\
     snd r =
     if (0 <? length buffer)%nat && onCycleCallback d then
       [summarize (S (cycleCount d)) peakTime
                  (JS.div 60000 (JS.sub peakTime prevPeak)) buffer]
     else []).
Proof.
  cbv zeta. rewrite addSample_entered. cbv zeta.
  set (d0 := Cycle.entered d timestamp kneeY angles).
  destruct (length (samples d0) <? 10)%nat; [left; repeat split |].
  destruct (detectPeaks_shape d0 timestamp)
    as (d1 & out & Hfirst & -> & (Hc & Hl & Hs & Hb & Hcb) & _ & _).
  rewrite Hc, Hl, Hs, Hb, Hcb. clear Hc Hl Hs Hb Hcb.
  destruct Hfirst as [H | [Hlen H]].
  - injection H as -> ->. left. repeat split.
  - set (tc := t (Cycle.candidate d0)) in *.
    destruct (checkCycleComplete_cases (set_peaks d0 (peaks d0 ++ [tc])) tc)
      as [[_ E] | (Hpeaks & Hband & E)];
      rewrite E in H; injection H as -> ->.
    + left. repeat split.
    + right. exists tc.
      exists (nth (length (peaks d0 ++ [tc]) - 2) (peaks d0 ++ [tc]) 0).
      cbn [fst snd].
      destruct (checkSteady_frame
                  (Cycle.accepted (set_peaks d0 (peaks d ++ [tc])) tc))
        as (_ & _ & _ & -> & -> & -> & ->).
      split; [apply (previous_peak (peaks d) tc); exact Hpeaks |].
      split.
      { assert (Hin : In (Cycle.candidate d0) (samples d0)).
        { apply nth_In. lia. }
        apply (shift_while_before_incl t) in Hin.
        apply (in_map t) in Hin. rewrite map_app in Hin. exact Hin. }
      split; [exact Hband |].
      repeat split.
Qed.


End OneSample.

(** ** Cycle segmentation engine: implausible cadence *)

Section ImplausibleCadence.

Context {R : JS.Rounding}.

Import Cadence.

Lemma last_cons_default {A : Type} (xs : list A) (a d : A) :
  last (a :: xs) d = last xs a.
Proof.
  revert a d. induction xs as [|b xs IH]; intros a d; [reflexivity |].
  change (last (a :: b :: xs) d) with (last (b :: xs) d).
  now rewrite (IH b d), (IH b a).
Qed.

Lemma nth_length_last {A : Type} (xs : list A) (a d : A) :
  nth (length xs) (a :: xs) d = last xs a.
Proof.
  revert a. induction xs as [|b xs IH]; intro a; [reflexivity |].
  change (nth (length (b :: xs)) (a :: b :: xs) d)
    with (nth (length xs) (b :: xs) d).
  rewrite (IH b). symmetry. apply last_cons_default.
Qed.

Lemma last_opt_nth (history : list Q) (prevPeak peakTime : Q) :
  JS.last_opt history = Some prevPeak ->
  (2 <= length (history ++ [peakTime]))%nat /\
  nth (length (history ++ [peakTime]) - 2) (history ++ [peakTime]) 0 = prevPeak.
Proof.
  destruct history as [|p rest]; [discriminate |].
  intro H. injection H as <-.
  rewrite length_app. simpl length. split; [lia |].
  replace (S (length rest) + 1 - 2)%nat with (length rest) by lia.
  rewrite app_nth1 by (simpl; lia). apply nth_length_last.
Qed.

(** C2. Let the candidate of [_detectPeaks] close a period, counted from
    the last peak of the history, whose cadence [60000 / period] is outside
    [[40, 120]], the period and the cadence being the difference and the
    quotient that the program computes.  Once the candidate is accepted as
    a peak,
    [_checkCycleComplete] returns without emitting a summary and without
    changing the detector; and the whole of [_detectPeaks] emits nothing and
    leaves the cycle counter, the last-cycle time, the steadiness flag and
    the angle buffer as they were. *)
Theorem out_of_band_cycle_discarded (d : CadenceDetector)
    (timestamp prevPeak : Q) :
  JS.last_opt (peaks d) = Some prevPeak ->
  Cycle.out_of_band (JS.sub (t (Cycle.candidate d)) prevPeak) ->
  let peakTime := t (Cycle.candidate d) in
  let pushed := set_peaks d (peaks d ++ [peakTime]) in
  _checkCycleComplete pushed peakTime = (pushed, []) /\
  snd (_detectPeaks d timestamp) = [] /\
  Cycle.same_cycle_state d (fst (_detectPeaks d timestamp)).
Proof.
  intros Hlast Hband peakTime pushed.
  destruct (last_opt_nth (peaks d) prevPeak peakTime Hlast) as [Hlen Hnth].
  assert (Hcheck : _checkCycleComplete pushed peakTime = (pushed, [])).
  { destruct (checkCycleComplete_cases pushed peakTime)
      as [[_ E] | (_ & Hin & _)]; [exact E | exfalso].
    apply (band_exclusive _ Hin). unfold Cycle.period_of.
    subst pushed. simpl peaks. rewrite Hnth. exact Hband. }
  split; [exact Hcheck |].
  destruct (detectPeaks_shape d timestamp)
    as (d1 & out & Hfirst & Hout & Hsame & _).
  fold peakTime in Hfirst. fold pushed in Hfirst. rewrite Hcheck in Hfirst.
  destruct Hfirst as [H | [_ H]]; injection H as -> ->;
    (split; [exact Hout | exact Hsame]).
Qed.

End ImplausibleCadence.

(** In double arithmetic: at 25 frames per second the knee trace has a
    period of 400 ms, that is 150 rpm: the second peak, at 800 ms, closes no
    cycle. *)
Lemma out_of_band_cycle_discarded_witness :
  let R := doubles in
  let d := Vectors.at_second_peak 0 40 in
  let peakTime := Cadence.t (Cycle.candidate d) in
  let pushed := Cadence.set_peaks d (Cadence.peaks d ++ [peakTime]) in
  JS.last_opt (Cadence.peaks d) = Some 400 /\
  Cycle.out_of_band (JS.sub peakTime 400) /\
  Cadence._checkCycleComplete pushed peakTime = (pushed, []) /\
  snd (Cadence._detectPeaks d 1000) = [] /\
  Cycle.same_cycle_state d (fst (Cadence._detectPeaks d 1000)).
Proof.
  intros R d peakTime pushed.
  assert (H1 : JS.last_opt (Cadence.peaks d) = Some 400)
    by (vm_compute; reflexivity).
  assert (H2 : Cycle.out_of_band (JS.sub peakTime 400))
    by (right; right; vm_compute; reflexivity).
  split; [exact H1 |]. split; [exact H2 |].
  exact (out_of_band_cycle_discarded d 1000 400 H1 H2).
Defined.

(** In that recording the peak at 800 ms does enter the history. *)
Example sprint_peak_accepted :
  let R := doubles in
  let d := Vectors.at_second_peak 0 40 in
  Cadence.peaks d = [400] /\
  Cadence.peaks (fst (Cadence._detectPeaks d 1000)) = [400; 800] /\
  Cadence.cycleCount (fst (Cadence._detectPeaks d 1000)) = 0%nat.
Proof. vm_compute. repeat split. Qed.

(** The band is tested on the cadence that the program computes.  Between
    the numbers nearest 0.2 and 1500.2 the period is computed as 1500 and
    the cadence as 40: the cycle is accepted, though 60000 divided by the
    difference of the two numbers is below 40. *)
Example slow_peak_on_the_bound :
  let R := doubles in
  let prevPeak := JS.rnd (2 # 10) in
  let peakTime := JS.rnd (15002 # 10) in
  let d := Cadence.set_peaks Cadence.reset [prevPeak; peakTime] in
  60000 / (peakTime - prevPeak) < 40 /\
  JS.sub peakTime prevPeak == 1500 /\
  Cycle.cadence (JS.sub peakTime prevPeak) == 40 /\
  Cycle.in_band (JS.sub peakTime prevPeak) /\
  Cadence.cycleCount (fst (Cadence._checkCycleComplete d peakTime)) = 1%nat /\
  Cadence.lastCycleTime (fst (Cadence._checkCycleComplete d peakTime))
  = peakTime.
Proof.
  intro R. split; [vm_compute; reflexivity |].
  split; [vm_compute; reflexivity |]. split; [vm_compute; reflexivity |].
  split; [| split; vm_compute; reflexivity].
  split; [| split]; vm_compute; congruence.
Qed.

(** ** Cycle segmentation engine: the cycle summary *)

Section Summary.

Context {R : JS.Rounding}.

Import Cadence.

Lemma in_band_positive (period : Q) : Cycle.in_band period -> 0 < period.
Proof.
  intros (Hz & Hlo & _).
  destruct (Qlt_le_dec 0 period) as [H | H]; [exact H | exfalso].
  assert (E : 60000 / period * period == 60000) by (field; exact Hz).
  assert (Hq : 60000 / period <= 0) by nra.
  pose proof (Number_above 0 _ rnd_zero Hq) as Hr.
  unfold Cycle.cadence, JS.quot in Hlo. lra.
Qed.

(** A period that is computed as positive is positive. *)
Lemma period_positive (a b : Q) : 0 < JS.sub a b -> b < a.
Proof.
  intro H. apply (Number_lt_rnd 0 _ rnd_zero) in H. lra.
Qed.

Lemma in_band_later (a b : Q) : Cycle.in_band (JS.sub a b) -> b < a.
Proof. intro H. now apply period_positive, in_band_positive. Qed.

Lemma div_in_band (period : Q) :
  Cycle.in_band period ->
  JS.div 60000 period = JS.Fin (Cycle.cadence period).
Proof.
  intros (Hz & _). unfold JS.div.
  apply eqb_neq in Hz. now rewrite Hz.
Qed.

Lemma fold_add_sum {A : Type} (f : A -> Q) (xs : list A) (acc : Q) :
  fold_left (fun s a => JS.add s (f a)) xs acc
  = fold_left JS.add (map f xs) acc.
Proof.
  revert acc. induction xs as [|x xs IH]; intro acc; simpl;
    [reflexivity | apply IH].
Qed.

Lemma mean_is_mean {A : Type} (f : A -> Q) (xs : list A) :
  xs <> [] ->
  Cycle.is_mean
    (JS.quot (fold_left (fun s a => JS.add s (f a)) xs 0)
             (inject_Z (Z.of_nat (length xs))))
    (map f xs).
Proof.
  intro Hne. split.
  - destruct xs; [congruence | discriminate].
  - unfold Cycle.mean, JS.sum. now rewrite length_map, fold_add_sum.
Qed.

Lemma summarize_contents (n : nat) (peakTime period : Q)
    (buffer : list AngleSet.t) :
  buffer <> [] -> Cycle.in_band period ->
  let c := summarize n peakTime (JS.div 60000 period) buffer in
  CycleSummary.cycleNumber c = n /\
  CycleSummary.timestamp c = peakTime /\
  Cycle.is_rounded (CycleSummary.rpm c) (Cycle.cadence period) /\
  Cycle.is_max (CycleSummary.knee_max (CycleSummary.angles c))
               (map AngleSet.knee buffer) /\
  Cycle.is_min (CycleSummary.hip_min (CycleSummary.angles c))
               (map AngleSet.hip buffer) /\
  Cycle.is_mean (CycleSummary.torso_avg (CycleSummary.angles c))
                (map AngleSet.torso buffer) /\
  Cycle.is_mean (CycleSummary.elbow_avg (CycleSummary.angles c))
                (map AngleSet.elbow buffer).
Proof.
  intros Hne Hband. cbv zeta. unfold summarize. simpl.
  rewrite (div_in_band period Hband). simpl JS.Math_round.
  assert (Hmap : forall f : AngleSet.t -> Q, map f buffer <> []).
  { intros f E. apply map_eq_nil in E. contradiction. }
  split; [reflexivity |]. split; [reflexivity |].
  split.
  { exists (JS.round (Cycle.cadence period)).
    split; [reflexivity | apply round_nearest]. }
  split; [apply Math_max_spec, Hmap |].
  split; [apply Math_min_spec, Hmap |].
  split; now apply mean_is_mean.
Qed.

Lemma numbered_after_weaken (m n : nat) (out : list CycleSummary.t) :
  (m <= n)%nat -> Cycle.numbered_after n out -> Cycle.numbered_after m out.
Proof.
  intros Hle [Hall Hsorted]. split; [| exact Hsorted].
  eapply Forall_impl; [| exact Hall]. simpl. intros c Hc. lia.
Qed.

Lemma numbered_after_cons (n : nat) (c : CycleSummary.t)
    (out : list CycleSummary.t) :
  (n < CycleSummary.cycleNumber c)%nat ->
  Cycle.numbered_after (CycleSummary.cycleNumber c) out ->
  Cycle.numbered_after n (c :: out).
Proof.
  intros Hn [Hall Hsorted]. split.
  - constructor; [exact Hn |].
    eapply Forall_impl; [| exact Hall]. simpl. intros c' Hc'. lia.
  - simpl. constructor; [exact Hsorted |].
    apply Forall_map. exact Hall.
Qed.

(** From one reset to the next, the summaries are numbered upwards from
    the cycle counter. *)
Lemma run_numbered (calls : list Call) (d : CadenceDetector) :
  Forall (fun c => c <> CallReset) calls ->
  Cycle.numbered_after (cycleCount d) (snd (run d calls)).
Proof.
  revert d. induction calls as [|c calls IH]; intros d Hcalls.
  - split; constructor.
  - apply Forall_cons_iff in Hcalls. destruct Hcalls as [Hc Hcalls].
    simpl run.
    destruct (call d c) as [d1 out1] eqn:E1.
    specialize (IH d1 Hcalls).
    destruct (run d1 calls) as [d2 out2]. cbn [snd] in *.
    destruct c as [| | timestamp kneeY angles]; [congruence | |].
    + injection E1 as <- <-. exact IH.
    + simpl in E1.
      destruct (addSample_cases d timestamp kneeY angles) as
        [(Hout & Hcount & _) | (pt & pp & _ & _ & _ & Hcount & _ & _ & _ & Hout)];
        rewrite E1 in Hout, Hcount; cbn [fst snd] in Hout, Hcount.
      * subst out1. rewrite <- Hcount. exact IH.
      * rewrite Hcount in IH.
        destruct ((0 <? length (currentCycleAngles d ++ Cycle.pushed angles))%nat
                  && onCycleCallback d); subst out1.
        -- apply numbered_after_cons; [simpl; lia | exact IH].
        -- simpl. apply (numbered_after_weaken _ (S (cycleCount d)));
             [lia | exact IH].
Qed.

(** C3. A summary emitted by [_checkCycleComplete] is the only one of the
    call and the angle buffer was not empty.  Its [cycleNumber] is the
    incremented cycle counter, its [timestamp] is the time of the peak that
    closes the cycle, its [rpm] is the cadence [60000 / period] rounded to
    the nearest integer, [knee.max] is the maximum knee angle and [hip.min]
    the minimum hip angle of the buffer, and [torso.avg] and [elbow.avg] are
    the means over it.  The period, the cadence and the means are those
    that the program computes: the difference to the peak before, the
    quotient, and the sum taken from left to right divided by the count.
    Between two resets the cycle numbers are at least 1 and strictly
    increasing. *)
Theorem cycle_summary_contents :
  (forall (d : CadenceDetector) (peakTime : Q) (c : CycleSummary.t),
     In c (snd (_checkCycleComplete d peakTime)) ->
     let buffer := currentCycleAngles d in
     let period := Cycle.period_of d peakTime in
     snd (_checkCycleComplete d peakTime) = [c] /\
     buffer <> [] /\
     Cycle.in_band period /\
     CycleSummary.cycleNumber c = S (cycleCount d) /\
     cycleCount (fst (_checkCycleComplete d peakTime)) = S (cycleCount d) /\
     CycleSummary.timestamp c = peakTime /\
     Cycle.is_rounded (CycleSummary.rpm c) (Cycle.cadence period) /\
     Cycle.is_max (CycleSummary.knee_max (CycleSummary.angles c))
                  (map AngleSet.knee buffer) /\
     Cycle.is_min (CycleSummary.hip_min (CycleSummary.angles c))
                  (map AngleSet.hip buffer) /\
     Cycle.is_mean (CycleSummary.torso_avg (CycleSummary.angles c))
                   (map AngleSet.torso buffer) /\
     Cycle.is_mean (CycleSummary.elbow_avg (CycleSummary.angles c))
                   (map AngleSet.elbow buffer)) /\
  (forall calls : list Call,
     Forall (fun c => c <> CallReset) calls ->
     Cycle.numbered_after 0 (snd (run reset calls))).
Proof.
  split; [| intros calls Hcalls; exact (run_numbered calls reset Hcalls)].
  intros d peakTime c Hin. cbv zeta.
  destruct (checkCycleComplete_cases d peakTime)
    as [[_ E] | (_ & Hband & E)]; rewrite E in *; cbn [fst snd] in *;
    [contradiction |].
  destruct (0 <? length (currentCycleAngles d))%nat eqn:Elen;
    [| contradiction].
  destruct (onCycleCallback d); [| contradiction].
  simpl in Hin. destruct Hin as [<- | []].
  apply Nat.ltb_lt in Elen.
  assert (Hne : currentCycleAngles d <> []).
  { intro E'. rewrite E' in Elen. simpl in Elen. lia. }
  destruct (summarize_contents (S (cycleCount d)) peakTime
              (Cycle.period_of d peakTime) (currentCycleAngles d) Hne Hband)
    as (H1 & H2 & H3 & H4 & H5 & H6 & H7).
  destruct (checkSteady_frame (Cycle.accepted d peakTime))
    as (_ & _ & _ & Hcount & _).
  repeat (split; [first [reflexivity | assumption] |]).
  assumption.
Qed.

End Summary.

Lemma addSamples_no_reset (fs : list (Q * Q * option AngleSet.t)) :
  Forall (fun c => c <> Cadence.CallReset) (Cycle.addSamples fs).
Proof.
  induction fs as [|f fs IH]; simpl; constructor;
    [discriminate | exact IH].
Qed.

(** In double arithmetic: the first cycle of a ride at 60 rpm, and the
    numbers of its first three summaries. *)
Lemma cycle_summary_contents_witness :
  let R := doubles in
  let d0 := Vectors.at_second_peak 0 100 in
  let d := Cadence.set_peaks d0 (Cadence.peaks d0 ++ [2000]) in
  let c := Vectors.first_summary in
  In c (snd (Cadence._checkCycleComplete d 2000)) /\
  CycleSummary.cycleNumber c = 1%nat /\
  CycleSummary.timestamp c = 2000 /\
  Cycle.is_rounded (CycleSummary.rpm c)
                   (Cycle.cadence (Cycle.period_of d 2000)) /\
  Cycle.is_max (CycleSummary.knee_max (CycleSummary.angles c))
               (map AngleSet.knee (Cadence.currentCycleAngles d)) /\
  Forall (fun c => c <> Cadence.CallReset) (Vectors.ride 0 47) /\
  Cycle.numbered_after 0 (snd (Cadence.run Cadence.reset (Vectors.ride 0 47))).
Proof.
  intros R d0 d c.
  assert (Hin : In c (snd (Cadence._checkCycleComplete d 2000)))
    by (vm_compute; left; reflexivity).
  assert (Hcalls : Forall (fun c => c <> Cadence.CallReset) (Vectors.ride 0 47))
    by (constructor; [discriminate | apply addSamples_no_reset]).
  destruct cycle_summary_contents as [Hcontents Hnumbers].
  destruct (Hcontents d 2000 c Hin)
    as (_ & _ & _ & Hn & _ & Ht & Hr & Hk & _).
  split; [exact Hin |]. split; [exact Hn |]. split; [exact Ht |].
  split; [exact Hr |]. split; [exact Hk |]. split; [exact Hcalls |].
  exact (Hnumbers _ Hcalls).
Defined.

(** The cycle numbers of that ride. *)
Example ride_cycle_numbers :
  let R := doubles in
  map CycleSummary.cycleNumber
      (snd (Cadence.run Cadence.reset (Vectors.ride 0 47)))
  = [1; 2; 3]%nat.
Proof. intro R. vm_compute. reflexivity. Qed.

(** The cadence that is rounded is the computed one.  For the period
    nearest 1481.4814814814815 ms it is computed as 40.5 and reported as
    41, though 60000 divided by the period is below 40.5. *)
Example cadence_rounded_as_computed :
  let R := doubles in
  let period := JS.rnd (14814814814814815 # 10000000000000) in
  60000 / period < 405 # 10 /\
  Cycle.cadence period == 405 # 10 /\
  CycleSummary.rpm
    (Cadence.summarize 1 0 (JS.div 60000 period) [Vectors.posture 0])
  = JS.Fin 41.
Proof.
  intro R. split; [vm_compute; reflexivity |].
  split; vm_compute; reflexivity.
Qed.

(** ** Cycle segmentation engine: the angle buffer *)

Section AngleBuffer.

Context {R : JS.Rounding}.

Import Cadence.

(** The buffer is empty after a reset and after every accepted cycle. *)
Lemma buffer_empty_after_reset : currentCycleAngles reset = [].
Proof. reflexivity. Qed.

Lemma buffer_empty_after_cycle (d : CadenceDetector) (timestamp kneeY : Q)
    (angles : option AngleSet.t) :
  cycleCount (fst (addSample d timestamp kneeY angles)) <> cycleCount d ->
  currentCycleAngles (fst (addSample d timestamp kneeY angles)) = [].
Proof.
  intro H.
  destruct (addSample_cases d timestamp kneeY angles)
    as [(_ & Hc & _) | (pt & pp & _ & _ & _ & _ & _ & Hb & _)];
    [contradiction | exact Hb].
Qed.

(** [addSample] never decreases the cycle counter. *)
Lemma addSamples_count (fs : list (Q * Q * option AngleSet.t))
    (d : CadenceDetector) :
  (cycleCount d <= cycleCount (fst (run d (Cycle.addSamples fs))))%nat.
Proof.
  revert d. induction fs as [|[[ts y] a] fs IH]; intro d; [simpl; lia |].
  simpl run.
  destruct (addSample d ts y a) as [d1 out1] eqn:E1.
  specialize (IH d1). destruct (run d1 (Cycle.addSamples fs)) as [d2 out2].
  cbn [fst] in *.
  destruct (addSample_cases d ts y a)
    as [(_ & Hc & _) | (pt & pp & _ & _ & _ & Hc & _)];
    rewrite E1 in Hc; cbn [fst] in Hc; lia.
Qed.

(** While no cycle is accepted the buffer only grows, by the angles
    supplied, and nothing is emitted. *)
Lemma buffer_grows (fs : list (Q * Q * option AngleSet.t))
    (d : CadenceDetector) :
  cycleCount (fst (run d (Cycle.addSamples fs))) = cycleCount d ->
  snd (run d (Cycle.addSamples fs)) = [] /\
  currentCycleAngles (fst (run d (Cycle.addSamples fs)))
  = currentCycleAngles d ++ Cycle.supplied fs.
Proof.
  revert d. induction fs as [|[[ts y] a] fs IH]; intros d Hcount.
  - simpl. now rewrite app_nil_r.
  - simpl run in *.
    destruct (addSample d ts y a) as [d1 out1] eqn:E1.
    pose proof (addSamples_count fs d1) as Hmono.
    specialize (IH d1).
    destruct (run d1 (Cycle.addSamples fs)) as [d2 out2].
    cbn [fst snd] in *.
    destruct (addSample_cases d ts y a)
      as [(Hout & Hc & _ & _ & Hb & _) | (pt & pp & _ & _ & _ & Hc & _)];
      rewrite E1 in *; cbn [fst snd] in *; [| lia].
    destruct IH as [IHout IHb]; [lia |].
    subst out1 out2. split; [reflexivity |].
    rewrite IHb, Hb, <- app_assoc. reflexivity.
Qed.

Lemma supplied_app (fs gs : list (Q * Q * option AngleSet.t)) :
  Cycle.supplied (fs ++ gs) = Cycle.supplied fs ++ Cycle.supplied gs.
Proof.
  induction fs as [|f fs IH]; simpl; [reflexivity |].
  now rewrite IH, app_assoc.
Qed.

(** C10. Start from a detector whose angle buffer is empty, as a reset or
    an accepted cycle leaves it, and feed it the frames [fs] without any
    cycle being accepted.  Nothing is emitted and the buffer holds the
    non-null angles of [fs].  If the next frame makes the detector emit a
    summary, this summary is computed from all the non-null angles supplied
    since the start, those of the closing frame included, whichever peaks
    and rejected periods lie in between; and the buffer is empty again. *)
Theorem summary_covers_supplied_angles (d : CadenceDetector)
    (fs : list (Q * Q * option AngleSet.t)) (timestamp kneeY : Q)
    (angles : option AngleSet.t) (c : CycleSummary.t) :
  let d' := fst (run d (Cycle.addSamples fs)) in
  let all := Cycle.supplied (fs ++ [(timestamp, kneeY, angles)]) in
  currentCycleAngles d = [] ->
  cycleCount d' = cycleCount d ->
  In c (snd (addSample d' timestamp kneeY angles)) ->
  snd (run d (Cycle.addSamples fs)) = [] /\
  currentCycleAngles d' = Cycle.supplied fs /\
  all <> [] /\
  (exists rpm,
     c = summarize (S (cycleCount d)) (CycleSummary.timestamp c) rpm all) /\
  Cycle.is_max (CycleSummary.knee_max (CycleSummary.angles c))
               (map AngleSet.knee all) /\
  Cycle.is_min (CycleSummary.hip_min (CycleSummary.angles c))
               (map AngleSet.hip all) /\
  Cycle.is_mean (CycleSummary.torso_avg (CycleSummary.angles c))
                (map AngleSet.torso all) /\
  Cycle.is_mean (CycleSummary.elbow_avg (CycleSummary.angles c))
                (map AngleSet.elbow all) /\
  currentCycleAngles (fst (addSample d' timestamp kneeY angles)) = [].
Proof.
  intros d' all Hempty Hcount Hin.
  destruct (buffer_grows fs d Hcount) as [Hout Hbuf].
  fold d' in Hbuf. rewrite Hempty in Hbuf. simpl in Hbuf.
  assert (Hall : all = currentCycleAngles d' ++ Cycle.pushed angles).
  { unfold all. rewrite supplied_app, Hbuf. simpl. now rewrite app_nil_r. }
  split; [exact Hout |]. split; [exact Hbuf |].
  destruct (addSample_cases d' timestamp kneeY angles)
    as [(Hnone & _) | (pt & pp & _ & _ & Hband & _ & _ & Hb & _ & Hsum)].
  { rewrite Hnone in Hin. contradiction. }
  rewrite <- Hall in Hsum. rewrite Hsum in Hin.
  destruct (0 <? length all)%nat eqn:Elen; [| contradiction].
  destruct (onCycleCallback d'); [| contradiction].
  destruct Hin as [<- | []].
  assert (Hne : all <> []).
  { apply Nat.ltb_lt in Elen. intro E. rewrite E in Elen. simpl in Elen. lia. }
  destruct (summarize_contents (S (cycleCount d')) pt (JS.sub pt pp) all Hne
              Hband)
    as (_ & _ & _ & H4 & H5 & H6 & H7).
  split; [exact Hne |].
  split; [exists (JS.div 60000 (JS.sub pt pp)); now rewrite Hcount |].
  repeat (split; [assumption |]). exact Hb.
Qed.

End AngleBuffer.

(** The first summary of the ride covers the angles of all 26 frames
    supplied since the reset: those of the 10 frames before the first peak
    and those of the 5 frames after the closing peak as well. *)
Lemma summary_covers_supplied_angles_witness :
  let R := doubles in
  let d := Cadence.onCycle Cadence.reset in
  let fs := Vectors.frames 0 100 25 in
  let d' := fst (Cadence.run d (Cycle.addSamples fs)) in
  let all := Cycle.supplied (fs ++ [Vectors.frame 0 100 25]) in
  let c := Vectors.first_summary in
  Cadence.currentCycleAngles d = [] /\
  Cadence.cycleCount d' = Cadence.cycleCount d /\
  In c (snd (Cadence.addSample d' 2500 (Vectors.kneeY 25)
               (Some (Vectors.posture 25)))) /\
  length all = 26%nat /\
  Cycle.is_max (CycleSummary.knee_max (CycleSummary.angles c))
               (map AngleSet.knee all) /\
  Cycle.is_mean (CycleSummary.torso_avg (CycleSummary.angles c))
                (map AngleSet.torso all).
Proof.
  intros R d fs d' all c.
  assert (H1 : Cadence.currentCycleAngles d = []) by reflexivity.
  assert (H2 : Cadence.cycleCount d' = Cadence.cycleCount d)
    by (vm_compute; reflexivity).
  assert (H3 : In c (snd (Cadence.addSample d' 2500 (Vectors.kneeY 25)
                            (Some (Vectors.posture 25)))))
    by (vm_compute; left; reflexivity).
  split; [exact H1 |]. split; [exact H2 |]. split; [exact H3 |].
  split; [reflexivity |].
  destruct (summary_covers_supplied_angles d fs 2500 (Vectors.kneeY 25)
              (Some (Vectors.posture 25)) c H1 H2 H3)
    as (_ & _ & _ & _ & Hmax & _ & Hmean & _).
  split; [exact Hmax | exact Hmean].
Defined.

(** At 150 rpm no period is accepted: after 40 frames and three peaks the
    buffer still holds the angles of all the frames. *)
Example rejected_periods_keep_buffer :
  let R := doubles in
  let d := fst (Cadence.run Cadence.reset (Vectors.sprint 40)) in
  Cadence.peaks d = [400; 800; 1200] /\
  Cadence.cycleCount d = 0%nat /\
  Cadence.currentCycleAngles d = Cycle.supplied (Vectors.frames 0 40 40).
Proof. intro R. vm_compute. repeat split. Qed.

(** ** Cycle segmentation engine: the stopped predicate *)

Section Stopped.

Context {R : JS.Rounding}.

Import Cadence.







End Stopped.



(** The timestamps are taken not to be negative: on a recording that
    starts at -2000 ms the knee is lowest at -1000 ms and at 0 ms, one
    cycle is recorded with the last-cycle time 0, by which the detector
    marks "no cycle yet", and [hasStopped] stays false however much time
    elapses. *)
Example hasStopped_cycle_at_time_zero :
  let R := doubles in
  let d := fst (Cadence.run Cadence.reset (Vectors.ride (-2000) 26)) in
  Cadence.peaks d = [-1000; 0] /\
  Cadence.cycleCount d = 1%nat /\
  Cadence.lastCycleTime d = 0 /\
  2000 < 5000 - Cadence.lastCycleTime d /\
  Cadence.hasStopped d 5000 = false.
Proof.
  intro R. vm_compute. repeat split; reflexivity.
Qed.

(** ** Cycle segmentation engine: steadiness *)

Section Steadiness.

Context {R : JS.Rounding}.

Import Cadence.

(** The flag computed by [_checkSteady] on a history that ends with the
    four peaks [p1], [p2], [p3], [p4]. *)
Lemma checkSteady_four (d : CadenceDetector) (older : list Q) (p1 p2 p3 p4 : Q) :
  peaks d = older ++ [p1; p2; p3; p4] ->
  isSteady (_checkSteady d) =
  let periods := [JS.sub p2 p1; JS.sub p3 p2; JS.sub p4 p3] in
  let avgPeriod := JS.quot (JS.sum periods) (inject_Z 3) in
  JS.num_ltb
    (JS.Math_max_num
       (map (fun p => JS.div (Qabs (JS.sub p avgPeriod)) avgPeriod) periods))
    MAX_PERIOD_VARIATION.
Proof.
  intro H. unfold _checkSteady. rewrite H.
  assert (Hlen : length (older ++ [p1; p2; p3; p4]) = (length older + 4)%nat)
    by (rewrite length_app; reflexivity).
  destruct (Nat.ltb_spec (length (older ++ [p1; p2; p3; p4]))
                         (MIN_CYCLES_FOR_STEADY + 1)) as [L | L];
    [unfold MIN_CYCLES_FOR_STEADY in L; lia |].
  unfold slice_last. rewrite Hlen.
  replace (length older + 4 - (MIN_CYCLES_FOR_STEADY + 1))%nat
    with (length older + 0)%nat by (unfold MIN_CYCLES_FOR_STEADY; lia).
  rewrite skipn_app, Nat.add_0_r, skipn_all.
  replace (length older - length older)%nat with 0%nat by lia.
  reflexivity.
Qed.

Lemma div_by_zero (x avg : Q) :
  JS.eqb avg 0 = true ->
  JS.div (Qabs x) avg = JS.NaN \/ JS.div (Qabs x) avg = JS.Infinity.
Proof.
  intro H. unfold JS.div. rewrite H.
  destruct (JS.eqb (Qabs x) 0) eqn:E; [now left | right].
  destruct (JS.ltb 0 (Qabs x)) eqn:L; [reflexivity | exfalso].
  js_reflect. pose proof (Qabs_nonneg x). apply E. lra.
Qed.

Lemma steady_test (a b c : Q) :
  let avgPeriod := JS.quot (JS.sum [a; b; c]) (inject_Z 3) in
  JS.num_ltb
    (JS.Math_max_num
       (map (fun p => JS.div (Qabs (JS.sub p avgPeriod)) avgPeriod) [a; b; c]))
    MAX_PERIOD_VARIATION = true
  <-> Cycle.steady a b c.
Proof.
  cbv zeta. unfold Cycle.steady, Cycle.relative_deviation.
  change (Cycle.mean [a; b; c])
    with (JS.quot (JS.sum [a; b; c]) (inject_Z 3)).
  set (avgPeriod := JS.quot (JS.sum [a; b; c]) (inject_Z 3)).
  unfold JS.Math_max_num. cbn [map fold_left].
  destruct (JS.eqb avgPeriod 0) eqn:Ez.
  - destruct (div_by_zero (JS.sub a avgPeriod) avgPeriod Ez) as [-> | ->];
      destruct (div_by_zero (JS.sub b avgPeriod) avgPeriod Ez) as [-> | ->];
      destruct (div_by_zero (JS.sub c avgPeriod) avgPeriod Ez) as [-> | ->];
      simpl; (split; [discriminate |]);
      intros [Hnz _]; exfalso; apply Hnz; now apply eqb_eq.
  - unfold JS.div. rewrite Ez. cbn [JS.num_max JS.num_ltb].
    unfold MAX_PERIOD_VARIATION.
    rewrite ltb_lt. apply eqb_neq in Ez.
    tauto.
Qed.

Lemma checkSteady_short (d : CadenceDetector) :
  (length (peaks d) < 4)%nat -> isSteady (_checkSteady d) = false.
Proof.
  intro H. unfold _checkSteady.
  destruct (Nat.ltb_spec (length (peaks d)) (MIN_CYCLES_FOR_STEADY + 1))
    as [L | L]; [reflexivity | unfold MIN_CYCLES_FOR_STEADY in L; lia].
Qed.

Lemma checkSteady_peaks (d d' : CadenceDetector) :
  peaks d = peaks d' -> isSteady (_checkSteady d) = isSteady (_checkSteady d').
Proof.
  intro H. unfold _checkSteady. rewrite H.
  destruct (length (peaks d') <? MIN_CYCLES_FOR_STEADY + 1)%nat; reflexivity.
Qed.

(** C5. When [_checkCycleComplete] accepts a cycle, the steadiness flag it
    leaves is the one that [_checkSteady] computes from the history of
    peaks: false with fewer than 4 peaks; otherwise, with the 3 periods
    between the last 4 peaks, true iff the largest relative deviation of a
    period from their average is below 25%.  The periods, their average
    and the relative deviations are those that the program computes. *)
Theorem steadiness_recomputed (d : CadenceDetector) (peakTime : Q) :
  (2 <= length (peaks d))%nat ->
  Cycle.in_band (Cycle.period_of d peakTime) ->
  let d' := fst (_checkCycleComplete d peakTime) in
  ((length (peaks d) < 4)%nat -> isSteady d' = false) /\
  (forall older p1 p2 p3 p4,
     peaks d = older ++ [p1; p2; p3; p4] ->
     (isSteady d' = true <->
      Cycle.steady (JS.sub p2 p1) (JS.sub p3 p2) (JS.sub p4 p3))).
Proof.
  intros Hlen Hband d'.
  assert (E : isSteady d' = isSteady (_checkSteady d)).
  { unfold d'.
    destruct (checkCycleComplete_cases d peakTime)
      as [[[H | H] _] | (_ & _ & ->)];
      [lia | exfalso; exact (band_exclusive _ Hband H) |].
    apply checkSteady_peaks. reflexivity. }
  rewrite E. split.
  - apply checkSteady_short.
  - intros older p1 p2 p3 p4 H.
    rewrite (checkSteady_four d older p1 p2 p3 p4 H). apply steady_test.
Qed.

End Steadiness.

(** In double arithmetic: the fourth peak of a ride at a constant 60 rpm;
    three periods of 1000 ms, and the flag is set. *)
Lemma steadiness_recomputed_witness :
  let R := doubles in
  let d := Vectors.at_fourth_peak in
  let d' := fst (Cadence._checkCycleComplete d 4000) in
  (2 <= length (Cadence.peaks d))%nat /\
  Cycle.in_band (Cycle.period_of d 4000) /\
  Cadence.peaks d = [] ++ [1000; 2000; 3000; 4000] /\
  (Cadence.isSteady d' = true <->
   Cycle.steady (JS.sub 2000 1000) (JS.sub 3000 2000) (JS.sub 4000 3000)) /\
  Cadence.isSteady d' = true.
Proof.
  intros R d d'.
  assert (H1 : (2 <= length (Cadence.peaks d))%nat) by (vm_compute; lia).
  assert (Hp : Cycle.period_of d 4000 = 1000) by (vm_compute; reflexivity).
  assert (H2 : Cycle.in_band (Cycle.period_of d 4000)).
  { rewrite Hp. clear. unfold Cycle.in_band.
    split; [intro E; revert E |]; [| split];
      vm_compute; congruence. }
  assert (H3 : Cadence.peaks d = [] ++ [1000; 2000; 3000; 4000])
    by (vm_compute; reflexivity).
  split; [exact H1 |]. split; [exact H2 |]. split; [exact H3 |].
  split; [| vm_compute; reflexivity].
  exact (proj2 (steadiness_recomputed d 4000 H1 H2) [] 1000 2000 3000 4000 H3).
Defined.

(** Periods of 600, 1000 and 1400 ms deviate by 40% from their average;
    periods of 900, 1000 and 1100 ms by 10%. *)
Example checkSteady_examples :
  let R := doubles in
  Cadence.isSteady
    (Cadence._checkSteady
       (Cadence.set_peaks Cadence.reset [0; 600; 1600; 3000])) = false /\
  Cadence.isSteady
    (Cadence._checkSteady
       (Cadence.set_peaks Cadence.reset [500; 1400; 2400; 3500])) = true /\
  Cadence.isSteady
    (Cadence._checkSteady
       (Cadence.set_peaks Cadence.reset [1400; 2400; 3500])) = false.
Proof. intro R. vm_compute. repeat split. Qed.

(** The deviations are tested as the program computes them.  Periods of
    750, 1000 and 1250 ms deviate by exactly 25% from their average and
    are not steady in exact arithmetic; between the numbers nearest
    1096.4, 1846.4, 2846.4 and 4096.4 the last period is computed just
    below 1250, the largest deviation just below 25%, and the flag is
    set. *)
Example steadiness_as_computed :
  let R := doubles in
  let p1 := JS.rnd (10964 # 10) in
  let p2 := JS.rnd (18464 # 10) in
  let p3 := JS.rnd (28464 # 10) in
  let p4 := JS.rnd (40964 # 10) in
  ~ @Cycle.steady JS.exact 750 1000 1250 /\
  JS.sub p2 p1 == 750 /\ JS.sub p3 p2 == 1000 /\ JS.sub p4 p3 < 1250 /\
  Cycle.steady (JS.sub p2 p1) (JS.sub p3 p2) (JS.sub p4 p3) /\
  Cadence.isSteady
    (Cadence._checkSteady (Cadence.set_peaks Cadence.reset [p1; p2; p3; p4]))
  = true.
Proof.
  intro R. split; [intros [_ H]; vm_compute in H; discriminate |].
  split; [vm_compute; reflexivity |]. split; [vm_compute; reflexivity |].
  split; [vm_compute; reflexivity |].
  split; [| vm_compute; reflexivity].
  split; [vm_compute; congruence | vm_compute; reflexivity].
Qed.

(* ================================================================== *)
(** * Further properties of the code *)
(* ================================================================== *)

(** ** Angle geometry *)

Section AngleSymmetry.

Variable Math_atan2 : Q -> Q -> Q.
Variable Math_PI : Q.

(** Products and absolute differences of rationals do not depend on the
    order of their arguments, not even in their representation. *)
Lemma Qmult_swap (p q : Q) : p * q = q * p.
Proof.
  destruct p as [pn pd], q as [qn qd]. unfold Qmult. simpl.
  f_equal; [apply Z.mul_comm | apply Pos.mul_comm].
Qed.

Lemma Qabs_minus_swap (p q : Q) : Qabs (p - q) = Qabs (q - p).
Proof.
  destruct p as [pn pd], q as [qn qd].
  unfold Qminus, Qplus, Qopp, Qabs. simpl.
  f_equal; [lia | apply Pos.mul_comm].
Qed.

(** X1. [angleDeg] does not depend on the order of the two outer points. *)
Theorem angleDeg_symmetric (a b c : Angles.Point) :
  Angles.angleDeg Math_atan2 Math_PI a b c
  = Angles.angleDeg Math_atan2 Math_PI c b a.
Proof.
  unfold Angles.angleDeg. cbv zeta.
  set (v1x := Angles.x a - Angles.x b). set (v1y := Angles.y a - Angles.y b).
  set (v2x := Angles.x c - Angles.x b). set (v2y := Angles.y c - Angles.y b).
  rewrite (Qmult_swap v2x v1x), (Qmult_swap v2y v1y).
  rewrite (Qabs_minus_swap (v1x * v2y) (v1y * v2x)).
  rewrite (Qmult_swap v1y v2x), (Qmult_swap v1x v2y).
  reflexivity.
Qed.

(** X2. [angleFromHorizontal] does not depend on the direction of the
    segment. *)
Theorem angleFromHorizontal_symmetric (a b : Angles.Point) :
  Angles.angleFromHorizontal Math_atan2 Math_PI a b
  = Angles.angleFromHorizontal Math_atan2 Math_PI b a.
Proof.
  unfold Angles.angleFromHorizontal. cbv zeta.
  now rewrite (Qabs_minus_swap (Angles.y b) (Angles.y a)),
              (Qabs_minus_swap (Angles.x b) (Angles.x a)).
Qed.


(** X4. [computeAngles] reads the six landmarks of the side and no other:
    two arrays that hold the same entries at these six indices give the
    same result. *)
Theorem computeAngles_six_landmarks
    (allLandmarks others : list (option Angles.Landmark)) (side : Angles.Side)
    (aspectRatio : Q) :
  Forall (fun idx => Angles.lookup allLandmarks idx = Angles.lookup others idx)
         (Angles.entries (Angles.SIDE_LANDMARKS side)) ->
  Angles.computeAngles Math_atan2 Math_PI allLandmarks side aspectRatio
  = Angles.computeAngles Math_atan2 Math_PI others side aspectRatio.
Proof.
  intro H. unfold Angles.entries in H.
  repeat (apply Forall_cons_iff in H; destruct H as [? H]).
  unfold Angles.computeAngles, Angles.getLandmarks, Angles.getLandmark.
  cbv zeta.
  repeat match goal with
  | E : Angles.lookup allLandmarks _ = _ |- _ => rewrite E; clear E
  end.
  reflexivity.
Qed.

End AngleSymmetry.

(** Without its face and its feet (the first eleven and the last four
    entries) the frame gives the same angles. *)
Lemma computeAngles_six_landmarks_witness :
  let allLandmarks := Vectors.landmarks 25 (9 # 10) in
  let others := map (fun i => nth i allLandmarks None) (seq 11 18) in
  let padded := repeat None 11 ++ others in
  Forall (fun idx => Angles.lookup allLandmarks idx = Angles.lookup padded idx)
         (Angles.entries (Angles.SIDE_LANDMARKS Angles.Left)) /\
  Angles.computeAngles Vectors.any_atan2 Vectors.any_PI
    allLandmarks Angles.Left (16 # 9)
  = Angles.computeAngles Vectors.any_atan2 Vectors.any_PI
      padded Angles.Left (16 # 9).
Proof.
  intros allLandmarks others padded.
  assert (H : Forall
            (fun idx => Angles.lookup allLandmarks idx
                        = Angles.lookup padded idx)
            (Angles.entries (Angles.SIDE_LANDMARKS Angles.Left)))
    by (repeat constructor).
  split; [exact H |].
  exact (computeAngles_six_landmarks Vectors.any_atan2 Vectors.any_PI
           allLandmarks padded Angles.Left (16 # 9) H).
Defined.

(** ** Side detection *)

Section SideDetection.

Context {R : JS.Rounding}.

Lemma visibility_of_absent (landmarks : list (option Angles.Landmark))
    (i : nat) :
  Angles.lookup landmarks i = None -> Pose.visibility_or_zero landmarks i = 0.
Proof. intro H. unfold Pose.visibility_or_zero. now rewrite H. Qed.

(** A sum of zeros is zero, a sum of non-negative numbers is not negative,
    and it is positive when one of them is. *)
Lemma sum_of_zeros (vs : list Q) (acc : Q) :
  acc == 0 -> Forall (fun v => v == 0) vs -> fold_left JS.add vs acc == 0.
Proof.
  revert acc. induction vs as [|v vs IH]; intros acc Hacc Hall; [exact Hacc |].
  apply Forall_cons_iff in Hall. destruct Hall as [Hv Hall].
  simpl. apply IH; [| exact Hall].
  unfold JS.add. rewrite <- rnd_zero. apply rnd_proper. lra.
Qed.

Lemma sum_of_positive (vs : list Q) (acc : Q) :
  0 <= acc -> Forall (fun v => 0 <= v) vs ->
  0 <= fold_left JS.add vs acc /\
  (0 < acc \/ Exists (fun v => 0 < v) vs -> 0 < fold_left JS.add vs acc).
Proof.
  revert acc. induction vs as [|v vs IH]; intros acc Hacc Hall.
  - split; [exact Hacc |]. intros [H | H]; [exact H | inversion H].
  - apply Forall_cons_iff in Hall. destruct Hall as [Hv Hall].
    assert (Hnext : 0 <= JS.add acc v) by (apply rnd_nonneg; lra).
    destruct (IH (JS.add acc v) Hnext Hall) as [IH0 IH1].
    simpl. split; [exact IH0 |].
    intro H. apply IH1.
    destruct H as [H | H]; [left; apply JS.rnd_positive; lra |].
    apply Exists_cons in H. destruct H as [H | H]; [| now right].
    left. apply JS.rnd_positive. lra.
Qed.

(** X5. Visibilities are confidences: none is negative.  Then a side whose six
    landmarks are all absent is chosen only when nothing of the other side
    is visible either: with the left side absent the answer is ["right"],
    and with the right side absent and some left landmark of positive
    visibility the answer is ["left"]. *)
Theorem detectVisibleSide_absent_side
    (landmarks : list (option Angles.Landmark)) :
  (forall i, 0 <= Pose.visibility_or_zero landmarks i) ->
  (Forall (fun i => Angles.lookup landmarks i = None)
          (Angles.entries (Angles.SIDE_LANDMARKS Angles.Left)) ->
   Pose.detectVisibleSide landmarks = Angles.Right) /\
  (Forall (fun i => Angles.lookup landmarks i = None)
          (Angles.entries (Angles.SIDE_LANDMARKS Angles.Right)) ->
   Exists (fun i => 0 < Pose.visibility_or_zero landmarks i)
          (Angles.entries (Angles.SIDE_LANDMARKS Angles.Left)) ->
   Pose.detectVisibleSide landmarks = Angles.Left).
Proof.
  intro Hpos. unfold Pose.detectVisibleSide. cbv zeta.
  set (vis := Pose.visibility_or_zero landmarks).
  rewrite (fold_add_sum vis [11; 13; 15; 23; 25; 27]%nat),
          (fold_add_sum vis [12; 14; 16; 24; 26; 28]%nat).
  change [11; 13; 15; 23; 25; 27]%nat
    with (Angles.entries (Angles.SIDE_LANDMARKS Angles.Left)).
  change [12; 14; 16; 24; 26; 28]%nat
    with (Angles.entries (Angles.SIDE_LANDMARKS Angles.Right)).
  assert (Hall : forall l, Forall (fun v => 0 <= v) (map vis l)).
  { intro l. apply Forall_map, Forall_forall. intros i _. apply Hpos. }
  assert (Hzero : forall l,
            Forall (fun i => Angles.lookup landmarks i = None) l ->
            fold_left JS.add (map vis l) 0 == 0).
  { intros l Habsent. apply sum_of_zeros; [reflexivity |].
    apply Forall_map. eapply Forall_impl; [| exact Habsent].
    intros i Hi. unfold vis. rewrite (visibility_of_absent _ _ Hi).
    reflexivity. }
  split.
  - intro Habsent. pose proof (Hzero _ Habsent) as Hleft.
    destruct (sum_of_positive
                (map vis (Angles.entries (Angles.SIDE_LANDMARKS Angles.Right)))
                0 (Qle_refl 0) (Hall _)) as [Hright _].
    match goal with
    | |- (if ?c then _ else _) = _ => destruct c eqn:E; [| reflexivity]
    end.
    apply gtb_gt in E. lra.
  - intros Habsent Hvisible. pose proof (Hzero _ Habsent) as Hright.
    destruct (sum_of_positive
                (map vis (Angles.entries (Angles.SIDE_LANDMARKS Angles.Left)))
                0 (Qle_refl 0) (Hall _)) as [_ Hleft].
    match goal with
    | |- (if ?c then _ else _) = _ => destruct c eqn:E; [reflexivity |]
    end.
    apply gtb_le in E.
    assert (0 < fold_left JS.add
                  (map vis (Angles.entries
                              (Angles.SIDE_LANDMARKS Angles.Left))) 0).
    { apply Hleft. right. apply Exists_exists.
      apply Exists_exists in Hvisible. destruct Hvisible as (i & Hi & Hv).
      exists (vis i). split; [now apply in_map | exact Hv]. }
    lra.
Qed.

End SideDetection.

(** A frame that holds nothing but a left hip of visibility 0.7: the left
    side; an empty frame: the right side. *)
Lemma detectVisibleSide_absent_side_witness :
  let R := doubles in
  let landmarks :=
    repeat None 23
    ++ [Some (Angles.mkLandmark (1 # 2) (1 # 2) (Some (7 # 10)))] in
  (forall i, 0 <= Pose.visibility_or_zero landmarks i) /\
  Pose.detectVisibleSide landmarks = Angles.Left /\
  (forall i, 0 <= Pose.visibility_or_zero [] i) /\
  Pose.detectVisibleSide [] = Angles.Right.
Proof.
  intros R landmarks.
  assert (Hnil : forall i, 0 <= Pose.visibility_or_zero [] i).
  { intro i. unfold Pose.visibility_or_zero, Angles.lookup.
    destruct i; simpl; apply Qle_refl. }
  assert (Hpos : forall i, 0 <= Pose.visibility_or_zero landmarks i).
  { intro i. unfold Pose.visibility_or_zero, Angles.lookup, landmarks.
    do 24 (destruct i as [|i]; [simpl; unfold Qle; simpl; lia |]).
    destruct i; simpl; apply Qle_refl. }
  split; [exact Hpos |]. split; [| split; [exact Hnil |]].
  - apply (detectVisibleSide_absent_side landmarks Hpos).
    + repeat constructor.
    + unfold Angles.entries. simpl. do 3 right. left.
      unfold Qlt. vm_compute. reflexivity.
  - apply (detectVisibleSide_absent_side [] Hnil).
    repeat constructor.
Defined.

(** ** Cycle segmentation engine: the sliding window *)

Section SlidingWindow.

Context {R : JS.Rounding}.

Import Cadence.

Lemma shift_while_before_length {A : Type} (time : A -> Q) (cutoff : Q)
    (xs : list A) :
  (length (shift_while_before time cutoff xs) <= length xs)%nat.
Proof.
  induction xs as [|a xs IH]; simpl; [lia |].
  destruct (JS.ltb (time a) cutoff); simpl; lia.
Qed.

(** [addSample] changes the window of samples in one way only: it appends
    the new sample and then drops the oldest samples from the front. *)
Lemma addSample_samples (d : CadenceDetector) (timestamp kneeY : Q)
    (angles : option AngleSet.t) :
  samples (fst (addSample d timestamp kneeY angles))
  = shift_while_before t (JS.sub timestamp WINDOW_DURATION_MS)
      (samples d ++ [mkSample timestamp kneeY]).
Proof.
  rewrite addSample_entered. cbv zeta.
  set (d0 := Cycle.entered d timestamp kneeY angles).
  change (shift_while_before t (JS.sub timestamp WINDOW_DURATION_MS)
            (samples d ++ [mkSample timestamp kneeY])) with (samples d0).
  destruct (length (samples d0) <? 10)%nat; [reflexivity |].
  destruct (detectPeaks_shape d0 timestamp)
    as (d1 & out & Hfirst & _ & _ & -> & _).
  destruct Hfirst as [H | [_ H]].
  - now injection H as -> ->.
  - destruct (checkCycleComplete_frame
                (set_peaks d0 (peaks d0 ++ [t (Cycle.candidate d0)]))
                (t (Cycle.candidate d0))) as (Es & _).
    rewrite <- H in Es. exact Es.
Qed.

(** With fewer than 11 samples in the window nothing is detected. *)
Lemma addSample_warming_up (d : CadenceDetector) (timestamp kneeY : Q)
    (angles : option AngleSet.t) :
  (length (samples d) + 1 <= 10)%nat ->
  addSample d timestamp kneeY angles
  = (Cycle.entered d timestamp kneeY angles, []).
Proof.
  intro Hlen. rewrite addSample_entered. cbv zeta.
  set (d0 := Cycle.entered d timestamp kneeY angles).
  assert (H0 : (length (samples d0) <= 10)%nat).
  { unfold d0, Cycle.entered. cbn [samples].
    etransitivity; [apply shift_while_before_length |].
    rewrite length_app. simpl. lia. }
  destruct (length (samples d0) <? 10)%nat; [reflexivity |].
  unfold _detectPeaks.
  destruct (Nat.ltb_spec (length (samples d0)) (5 * 2 + 1)) as [L | L];
    [reflexivity | lia].
Qed.

(** X6. Peak detection needs 11 samples in the window.  As long as the samples
    held and the frames supplied add up to 10 at most, nothing is emitted,
    the histories of peaks and troughs, the cycle counter, the last-cycle
    time and the steadiness flag stay as they were, and every frame is in
    the window or was evicted from its front. *)
Theorem warm_up_detects_nothing (d : CadenceDetector)
    (fs : list (Q * Q * option AngleSet.t)) :
  (length (samples d) + length fs <= 10)%nat ->
  let r := run d (Cycle.addSamples fs) in
  snd r = [] /\
  peaks (fst r) = peaks d /\
  troughs (fst r) = troughs d /\
  cycleCount (fst r) = cycleCount d /\
  lastCycleTime (fst r) = lastCycleTime d /\
  isSteady (fst r) = isSteady d /\
  currentCycleAngles (fst r) = currentCycleAngles d ++ Cycle.supplied fs /\
  (length (samples (fst r)) <= length (samples d) + length fs)%nat.
Proof.
  revert d. induction fs as [|[[ts y] a] fs IH]; intros d Hlen.
  - simpl. rewrite app_nil_r. repeat split. lia.
  - simpl in Hlen. cbv zeta. simpl run.
    rewrite (addSample_warming_up d ts y a) by lia.
    set (d0 := Cycle.entered d ts y a).
    assert (H0 : (length (samples d0) <= length (samples d) + 1)%nat).
    { unfold d0, Cycle.entered. cbn [samples].
      etransitivity; [apply shift_while_before_length |].
      rewrite length_app. simpl. lia. }
    specialize (IH d0). cbv zeta in IH.
    destruct (run d0 (Cycle.addSamples fs)) as [d2 out2].
    cbn [fst snd] in *.
    destruct IH as (-> & -> & -> & -> & -> & -> & -> & Hs); [lia |].
    unfold d0, Cycle.entered. cbn [peaks troughs cycleCount lastCycleTime
      isSteady currentCycleAngles].
    repeat split.
    + now rewrite <- app_assoc.
    + simpl length. lia.
Qed.

End SlidingWindow.

(** The first ten frames of a ride. *)
Lemma warm_up_detects_nothing_witness :
  let R := doubles in
  let d := Cadence.onCycle Cadence.reset in
  let fs := Vectors.frames 0 100 10 in
  let r := Cadence.run d (Cycle.addSamples fs) in
  (length (Cadence.samples d) + length fs <= 10)%nat /\
  snd r = [] /\ Cadence.peaks (fst r) = [] /\ Cadence.troughs (fst r) = [] /\
  Cadence.cycleCount (fst r) = 0%nat /\
  length (Cadence.currentCycleAngles (fst r)) = 10%nat.
Proof.
  intros R d fs r.
  assert (H : (length (Cadence.samples d) + length fs <= 10)%nat)
    by (simpl; lia).
  split; [exact H |].
  destruct (warm_up_detects_nothing d fs H)
    as (Hout & Hp & Ht & Hc & _ & _ & Hb & _).
  split; [exact Hout |]. split; [exact Hp |]. split; [exact Ht |].
  split; [exact Hc |]. fold r in Hb. rewrite Hb. reflexivity.
Defined.

Section WindowInvariant.

Context {R : JS.Rounding}.

Import Cadence.

Lemma run_app (d : CadenceDetector) (calls1 calls2 : list Call) :
  run d (calls1 ++ calls2) =
  let '(d1, out1) := run d calls1 in
  let '(d2, out2) := run d1 calls2 in
  (d2, out1 ++ out2).
Proof.
  revert d. induction calls1 as [|c calls1 IH]; intro d; simpl.
  - now destruct (run d calls2).
  - destruct (call d c) as [d0 out0]. rewrite IH.
    destruct (run d0 calls1) as [d1 out1].
    destruct (run d1 calls2) as [d2 out2]. now rewrite app_assoc.
Qed.

Lemma shift_keeps_newest {A : Type} (time : A -> Q) (cutoff : Q)
    (xs : list A) (x : A) :
  JS.ltb (time x) cutoff = false ->
  shift_while_before time cutoff (xs ++ [x])
  = shift_while_before time cutoff xs ++ [x].
Proof.
  intro Hx. induction xs as [|a xs IH]; simpl.
  - now rewrite Hx.
  - destruct (JS.ltb (time a) cutoff); [exact IH | reflexivity].
Qed.

Lemma shift_sorted {A : Type} (time : A -> Q) (cutoff : Q) (xs : list A) :
  StronglySorted Qle (map time xs) ->
  StronglySorted Qle (map time (shift_while_before time cutoff xs)) /\
  Forall (fun a => cutoff <= time a) (shift_while_before time cutoff xs).
Proof.
  induction xs as [|a xs IH]; intro Hs; simpl.
  - split; constructor.
  - simpl in Hs. apply StronglySorted_inv in Hs. destruct Hs as [Hs Ha].
    destruct (JS.ltb (time a) cutoff) eqn:E; [now apply IH |].
    apply ltb_ge in E. split.
    + simpl. now constructor.
    + constructor; [exact E |].
      rewrite Forall_map in Ha. eapply Forall_impl; [| exact Ha].
      simpl. intros b Hb. now apply Qle_trans with (time a).
Qed.

Lemma last_opt_app {A : Type} (xs : list A) (x : A) :
  JS.last_opt (xs ++ [x]) = Some x.
Proof.
  destruct xs as [|a xs]; [reflexivity |].
  simpl. f_equal. rewrite <- (last_cons_default (xs ++ [x]) a x).
  change (a :: xs ++ [x]) with ((a :: xs) ++ [x]). apply last_last.
Qed.

(** One sample later: the window is still in order, it reaches back to the
    cutoff the code computes, 4000 ms before the new sample, and it ends
    with the new sample when the timestamp is a number. *)
Lemma window_step (d : CadenceDetector) (now timestamp kneeY : Q)
    (angles : option AngleSet.t) :
  Stream.window_until now (samples d) -> now <= timestamp ->
  let d' := fst (addSample d timestamp kneeY angles) in
  Stream.window_until timestamp (samples d') /\
  Forall (fun s => JS.sub timestamp 4000 <= t s) (samples d') /\
  (JS.Number timestamp ->
   JS.last_opt (samples d') = Some (mkSample timestamp kneeY)) /\
  (forall s, In s (samples d') ->
             In s (samples d) \/ s = mkSample timestamp kneeY).
Proof.
  intros [Hsorted Hbound] Hnow. cbv zeta. rewrite addSample_samples.
  unfold WINDOW_DURATION_MS.
  assert (Hnew : JS.Number timestamp ->
                 JS.ltb (t (mkSample timestamp kneeY)) (JS.sub timestamp 4000)
                 = false).
  { intro Hnum. apply ltb_ge. simpl.
    apply Number_above; [exact Hnum | lra]. }
  assert (Hall : StronglySorted Qle
                   (map t (samples d ++ [mkSample timestamp kneeY]))).
  { rewrite map_app. simpl. clear Hnew.
    induction (samples d) as [|s ss IH]; simpl.
    - repeat constructor.
    - simpl in Hsorted. apply StronglySorted_inv in Hsorted.
      destruct Hsorted as [Hs Hle].
      apply Forall_cons_iff in Hbound. destruct Hbound as [Hb Hbound].
      constructor; [now apply IH |].
      apply Forall_app. split; [exact Hle |].
      constructor; [| constructor]. lra. }
  destruct (shift_sorted t (JS.sub timestamp 4000) _ Hall) as [Hs' Hcut].
  split; [split |]; [exact Hs' | | split; [exact Hcut | split]].
  - apply Forall_forall. intros s Hin.
    apply shift_while_before_incl in Hin. apply in_app_iff in Hin.
    destruct Hin as [Hin | [<- | []]]; [| simpl; lra].
    rewrite Forall_forall in Hbound. specialize (Hbound s Hin). lra.
  - intro Hnum. rewrite (shift_keeps_newest t _ _ _ (Hnew Hnum)).
    apply last_opt_app.
  - intros s Hin. apply shift_while_before_incl in Hin.
    apply in_app_iff in Hin. destruct Hin as [Hin | [<- | []]]; auto.
Qed.

Lemma window_run (fs : list (Q * Q * option AngleSet.t))
    (d : CadenceDetector) (now : Q) :
  Stream.window_until now (samples d) ->
  StronglySorted Qle (now :: map Stream.time_of fs) ->
  Stream.window_until (last (map Stream.time_of fs) now)
                      (samples (fst (run d (Cycle.addSamples fs)))).
Proof.
  revert d now. induction fs as [|[[ts y] a] fs IH]; intros d now Hw Hs.
  - exact Hw.
  - simpl run.
    destruct (addSample d ts y a) as [d1 out1] eqn:E1.
    specialize (IH d1 ts).
    destruct (run d1 (Cycle.addSamples fs)) as [d2 out2]. cbn [fst] in *.
    apply StronglySorted_inv in Hs. destruct Hs as [Hs Hnow].
    simpl in Hs, Hnow.
    apply Forall_cons_iff in Hnow. destruct Hnow as [Hnow _].
    destruct (window_step d now ts y a Hw Hnow) as (Hw1 & _).
    rewrite E1 in Hw1. cbn [fst] in Hw1.
    specialize (IH Hw1 Hs).
    simpl map. rewrite last_cons_default. exact IH.
Qed.

(** X7. Feed frames whose timestamps never decrease to a detector that was
    just reset.  After the frame at the time [now] the window holds the
    samples in the order of their timestamps, none before the cutoff the
    code computes, [now - 4000] rounded, and none after [now].  Where
    [now] is a number, the newest of them is that frame; where
    [now - 4000] is a number, they are all within [[now - 4000, now]]. *)
Theorem window_spans_four_seconds
    (fs : list (Q * Q * option AngleSet.t)) (f : Q * Q * option AngleSet.t) :
  Stream.chronological (fs ++ [f]) ->
  let d := fst (run reset (Cycle.addSamples (fs ++ [f]))) in
  let now := Stream.time_of f in
  StronglySorted Qle (map t (samples d)) /\
  Forall (fun s => JS.sub now 4000 <= t s /\ t s <= now) (samples d) /\
  (JS.Number now ->
   JS.last_opt (samples d) = Some (mkSample now (Stream.kneeY_of f))) /\
  (JS.Number (now - 4000) ->
   Forall (fun s => now - 4000 <= t s /\ t s <= now) (samples d)).
Proof.
  intros Hchrono. cbv zeta.
  unfold Cycle.addSamples. rewrite map_app. fold (Cycle.addSamples fs).
  rewrite run_app.
  unfold Stream.chronological in Hchrono. rewrite map_app in Hchrono.
  simpl map in Hchrono.
  set (first := hd (Stream.time_of f) (map Stream.time_of fs)).
  assert (Hs : StronglySorted Qle (first :: map Stream.time_of fs)).
  { assert (Hfs : StronglySorted Qle (map Stream.time_of fs)).
    { clear first. revert Hchrono.
      induction (map Stream.time_of fs) as [|x xs IH]; intro H;
        [constructor |].
      simpl in H. apply StronglySorted_inv in H. destruct H as [H Hx].
      apply Forall_app in Hx. constructor; [now apply IH | tauto]. }
    unfold first. destruct (map Stream.time_of fs) as [|x xs];
      [repeat constructor |].
    simpl. constructor; [exact Hfs |].
    apply StronglySorted_inv in Hfs. destruct Hfs as [_ Hx].
    constructor; [apply Qle_refl | exact Hx]. }
  assert (Hlast : last (map Stream.time_of fs) first <= Stream.time_of f).
  { unfold first. clear Hs first.
    destruct (map Stream.time_of fs) as [|x xs] eqn:E;
      [simpl; apply Qle_refl |].
    assert (Hin : In (last (x :: xs) (hd (Stream.time_of f) (x :: xs)))
                     (x :: xs)) by apply last_cons_in.
    revert Hin. generalize (last (x :: xs) (hd (Stream.time_of f) (x :: xs))).
    intros l Hin. clear E.
    induction (x :: xs) as [|z zs IH]; [contradiction |].
    simpl in Hchrono. apply StronglySorted_inv in Hchrono.
    destruct Hchrono as [Hz Hall]. destruct Hin as [<- | Hin].
    - apply Forall_app in Hall. destruct Hall as [_ Hall].
      now apply Forall_cons_iff in Hall.
    - now apply IH. }
  assert (Hw0 : Stream.window_until first (samples reset))
    by (split; constructor).
  pose proof (window_run fs reset first Hw0 Hs) as Hw.
  destruct (run reset (Cycle.addSamples fs)) as [d1 out1]. cbn [fst] in Hw.
  destruct f as [[ts y] a]. simpl run.
  destruct (window_step d1 _ ts y a Hw Hlast)
    as ([Hs1 Hb1] & Hcut & Hl & _).
  destruct (addSample d1 ts y a) as [d2 out2]. cbn [fst] in *.
  rewrite Forall_forall in Hb1, Hcut.
  split; [exact Hs1 |]. split; [| split; [exact Hl |]].
  - apply Forall_forall. intros s Hin.
    split; [now apply Hcut | now apply Hb1].
  - intro Hexact. apply Forall_forall. intros s Hin.
    split; [| now apply Hb1].
    specialize (Hcut s Hin). unfold JS.sub in Hcut.
    unfold JS.Number, Stream.time_of in Hexact.
    cbn [fst] in Hexact |- *. unfold Stream.time_of. cbn [fst]. lra.
Qed.

End WindowInvariant.

Lemma frames_chronological (t0 dt : Q) (n : nat) :
  0 <= dt -> Stream.chronological (Vectors.frames t0 dt n).
Proof.
  intro Hdt. unfold Stream.chronological, Vectors.frames. rewrite map_map.
  generalize 0%nat as a. induction n as [|n IH]; intro a; simpl.
  - constructor.
  - constructor; [apply IH |].
    apply Forall_map, Forall_forall. intros j Hj. apply in_seq in Hj.
    unfold Stream.time_of, Vectors.frame. simpl.
    assert (inject_Z (Z.of_nat a) <= inject_Z (Z.of_nat j))
      by (unfold Qle; simpl; lia).
    nra.
Qed.

(** After ten seconds of a ride at 10 frames per second the window holds the
    last 41 frames. *)
Lemma window_spans_four_seconds_witness :
  let R := doubles in
  let fs := Vectors.frames 0 100 99 in
  let f := Vectors.frame 0 100 99 in
  let d := fst (Cadence.run Cadence.reset (Cycle.addSamples (fs ++ [f]))) in
  Stream.chronological (fs ++ [f]) /\
  JS.Number 9900 /\ JS.Number (9900 - 4000) /\
  Forall (fun s => 9900 - 4000 <= Cadence.t s /\ Cadence.t s <= 9900)
         (Cadence.samples d) /\
  JS.last_opt (Cadence.samples d)
  = Some (Cadence.mkSample 9900 (Vectors.kneeY 99)).
Proof.
  intros R fs f d.
  assert (H : Stream.chronological (fs ++ [f])).
  { change (fs ++ [f]) with (Vectors.frames 0 100 99 ++ [Vectors.frame 0 100 (0 + 99)]).
    unfold Vectors.frames at 1. rewrite <- map_last, <- seq_S.
    apply (frames_chronological 0 100 100). unfold Qle. simpl. lia. }
  assert (Hn : JS.Number 9900) by (vm_compute; split; congruence).
  assert (He : JS.Number (9900 - 4000)) by (vm_compute; split; congruence).
  split; [exact H |]. split; [exact Hn |]. split; [exact He |].
  destruct (window_spans_four_seconds fs f H) as (_ & _ & Hlast & Hall).
  split; [exact (Hall He) |].
  apply Hlast. vm_compute. split; congruence.
Defined.

(** ** Cycle segmentation engine: what is emitted *)

Section Emission.

Context {R : JS.Rounding}.

Import Cadence.

(** A summary emitted by [addSample] is the summary of an accepted cycle of
    plausible cadence, built from a non-empty buffer for a registered
    listener. *)
Lemma addSample_emitted (d : CadenceDetector) (timestamp kneeY : Q)
    (angles : option AngleSet.t) (c : CycleSummary.t) :
  In c (snd (addSample d timestamp kneeY angles)) ->
  exists period peakTime,
    Cycle.in_band period /\
    currentCycleAngles d ++ Cycle.pushed angles <> [] /\
    onCycleCallback d = true /\
    snd (addSample d timestamp kneeY angles) = [c] /\
    cycleCount (fst (addSample d timestamp kneeY angles)) = S (cycleCount d) /\
    lastCycleTime (fst (addSample d timestamp kneeY angles)) = peakTime /\
    c = summarize (S (cycleCount d)) peakTime (JS.div 60000 period)
          (currentCycleAngles d ++ Cycle.pushed angles).
Proof.
  intro Hin.
  destruct (addSample_cases d timestamp kneeY angles)
    as [(Hnone & _) | (pt & pp & _ & _ & Hband & Hc & Hl & _ & _ & Hsum)].
  { rewrite Hnone in Hin. contradiction. }
  rewrite Hsum in Hin |- *.
  destruct (0 <? length (currentCycleAngles d ++ Cycle.pushed angles))%nat
    eqn:Elen; [| contradiction].
  destruct (onCycleCallback d); [| contradiction].
  destruct Hin as [<- | []].
  exists (JS.sub pt pp), pt. split; [exact Hband |].
  split.
  { apply Nat.ltb_lt in Elen. intro E. rewrite E in Elen. simpl in Elen. lia. }
  repeat split; assumption.
Qed.

Lemma run_emitted (calls : list Call) (d : CadenceDetector)
    (c : CycleSummary.t) :
  In c (snd (run d calls)) ->
  exists d' timestamp kneeY angles,
    In c (snd (addSample d' timestamp kneeY angles)).
Proof.
  revert d. induction calls as [|k calls IH]; intros d Hin; [contradiction |].
  simpl run in Hin.
  destruct (call d k) as [d1 out1] eqn:E1.
  specialize (IH d1). destruct (run d1 calls) as [d2 out2].
  cbn [snd] in *. apply in_app_iff in Hin. destruct Hin as [Hin | Hin].
  - destruct k as [| | timestamp kneeY angles]; simpl in E1.
    + injection E1 as <- <-. contradiction.
    + injection E1 as <- <-. contradiction.
    + exists d, timestamp, kneeY, angles. now rewrite E1.
  - now apply IH.
Qed.

Lemma round_in_band (period : Q) :
  Cycle.in_band period -> (40 <= JS.round (Cycle.cadence period) <= 120)%Z.
Proof.
  intros (_ & Hlo & Hhi). unfold JS.round.
  set (q := Cycle.cadence period) in *. split.
  - rewrite <- (Qfloor_Z 40). apply Qfloor_resp_le.
    change (inject_Z 40) with 40. lra.
  - pose proof (Qfloor_le (q + (1 # 2))) as H.
    set (z := Qfloor (q + (1 # 2))) in *.
    assert (Hz : inject_Z z <= 241 # 2) by lra.
    unfold Qle, inject_Z in Hz. cbn [Qnum Qden] in Hz. lia.
Qed.

(** X8. Whatever the calls and whatever the detector they start from, the
    cadence of every emitted summary is a whole number between 40 and
    120. *)
Theorem emitted_rpm_in_band (d : CadenceDetector) (calls : list Call)
    (c : CycleSummary.t) :
  In c (snd (run d calls)) -> Stream.whole_rpm_between 40 120 c.
Proof.
  intro Hin.
  destruct (run_emitted calls d c Hin) as (d' & ts & y & a & Hc).
  destruct (addSample_emitted d' ts y a c Hc)
    as (period & pt & Hband & _ & _ & _ & _ & _ & ->).
  exists (JS.round (Cycle.cadence period)).
  split; [| now apply round_in_band].
  unfold summarize. simpl. now rewrite (div_in_band period Hband).
Qed.

(** X9. A summary needs a listener and angles.  From a reset on, calls among
    which no listener is registered emit nothing, and so do calls that
    supply no angles; the cycles are counted all the same. *)
Theorem silent_without_listener_or_angles (calls : list Call) :
  (Forall (fun k => ~ Stream.registers k) calls ->
   snd (run reset calls) = []) /\
  (Forall (fun k => ~ Stream.supplies_angles k) calls ->
   snd (run reset calls) = []).
Proof.
  split; intro Hcalls.
  - assert (H : forall d, onCycleCallback d = false ->
                snd (run d calls) = []).
    { induction calls as [|k calls IH]; intros d Hd; [reflexivity |].
      apply Forall_cons_iff in Hcalls. destruct Hcalls as [Hk Hcalls].
      simpl run. destruct (call d k) as [d1 out1] eqn:E1.
      specialize (IH Hcalls d1). destruct (run d1 calls) as [d2 out2].
      cbn [snd] in *.
      destruct k as [| | ts y a]; simpl in E1.
      - injection E1 as <- <-. now apply IH.
      - exfalso. now apply Hk.
      - destruct (addSample_cases d ts y a)
          as [(Hout & _ & _ & _ & _ & Hcb)
             | (pt & pp & _ & _ & _ & _ & _ & _ & Hcb & Hout)];
          rewrite E1 in *; cbn [fst snd] in *.
        + rewrite Hout. apply IH. congruence.
        + rewrite Hout, Hd, andb_false_r. apply IH. congruence. }
    now apply H.
  - assert (H : forall d, currentCycleAngles d = [] ->
                snd (run d calls) = []).
    { induction calls as [|k calls IH]; intros d Hd; [reflexivity |].
      apply Forall_cons_iff in Hcalls. destruct Hcalls as [Hk Hcalls].
      simpl run. destruct (call d k) as [d1 out1] eqn:E1.
      specialize (IH Hcalls d1). destruct (run d1 calls) as [d2 out2].
      cbn [snd] in *.
      destruct k as [| | ts y [a |]]; simpl in E1.
      - injection E1 as <- <-. now apply IH.
      - injection E1 as <- <-. now apply IH.
      - exfalso. now apply Hk.
      - destruct (addSample_cases d ts y None)
          as [(Hout & _ & _ & _ & Hb & _)
             | (pt & pp & _ & _ & _ & _ & _ & Hb & _ & Hout)];
          rewrite E1 in *; cbn [fst snd] in *;
          rewrite Hd in *; simpl in Hout; rewrite Hout; now apply IH. }
    now apply H.
Qed.

(** X10. Every accepted cycle is counted and at most one summary is emitted for
    it: however the calls go, the counter grows at least by the number of
    summaries emitted since the last reset. *)
Theorem every_summary_counted (calls : list Call) (d : CadenceDetector) :
  Forall (fun k => k <> CallReset) calls ->
  (cycleCount d + length (snd (run d calls))
   <= cycleCount (fst (run d calls)))%nat.
Proof.
  revert d. induction calls as [|k calls IH]; intros d Hcalls; [simpl; lia |].
  apply Forall_cons_iff in Hcalls. destruct Hcalls as [Hk Hcalls].
  simpl run. destruct (call d k) as [d1 out1] eqn:E1.
  specialize (IH d1 Hcalls). destruct (run d1 calls) as [d2 out2].
  cbn [fst snd] in *. rewrite length_app.
  destruct k as [| | ts y a]; simpl in E1; [congruence | |].
  - injection E1 as <- <-. simpl in *. lia.
  - destruct (addSample_cases d ts y a)
      as [(Hout & Hc & _) | (pt & pp & _ & _ & _ & Hc & _ & _ & _ & Hout)];
      rewrite E1 in *; cbn [fst snd] in *; rewrite Hout.
    + simpl. lia.
    + destruct (_ && _); simpl; lia.
Qed.

End Emission.

(** The first summary of the ride has a cadence of 60. *)
Lemma emitted_rpm_in_band_witness :
  let R := doubles in
  In Vectors.first_summary
     (snd (Cadence.run Cadence.reset (Vectors.ride 0 26))) /\
  Stream.whole_rpm_between 40 120 Vectors.first_summary.
Proof.
  intro R.
  assert (H : In Vectors.first_summary
                 (snd (Cadence.run Cadence.reset (Vectors.ride 0 26))))
    by (vm_compute; left; reflexivity).
  split; [exact H |].
  exact (emitted_rpm_in_band Cadence.reset (Vectors.ride 0 26)
           Vectors.first_summary H).
Defined.

(** The same ride without a listener: three cycles counted, none
    reported. *)
Lemma silent_without_listener_or_angles_witness :
  let R := doubles in
  let calls := Cycle.addSamples (Vectors.frames 0 100 47) in
  Forall (fun k => ~ Stream.registers k) calls /\
  snd (Cadence.run Cadence.reset calls) = [] /\
  Cadence.cycleCount (fst (Cadence.run Cadence.reset calls)) = 3%nat.
Proof.
  intros R calls.
  assert (H : Forall (fun k => ~ Stream.registers k) calls).
  { unfold calls, Cycle.addSamples. apply Forall_map, Forall_forall.
    intros f _. discriminate. }
  split; [exact H |].
  split; [exact (proj1 (silent_without_listener_or_angles calls) H) |].
  vm_compute. reflexivity.
Defined.

(** The ride with its listener: three cycles, three summaries. *)
Lemma every_summary_counted_witness :
  let R := doubles in
  let calls := Vectors.ride 0 47 in
  Forall (fun k => k <> Cadence.CallReset) calls /\
  (Cadence.cycleCount Cadence.reset
   + length (snd (Cadence.run Cadence.reset calls))
   <= Cadence.cycleCount (fst (Cadence.run Cadence.reset calls)))%nat.
Proof.
  intros R calls.
  assert (H : Forall (fun k => k <> Cadence.CallReset) calls)
    by (constructor; [discriminate | apply addSamples_no_reset]).
  split; [exact H |].
  exact (every_summary_counted calls Cadence.reset H).
Defined.

(** ** Cycle segmentation engine: the histories of peaks and troughs *)

Section Histories.

Context {R : JS.Rounding}.

Import Cadence.

(** What [_detectPeaks] does to the two histories: nothing on the early
    return; otherwise it pushes the candidate time on a history at most
    once, when the gap test passes, and then evicts from the front. *)
Lemma detectPeaks_histories (d : CadenceDetector) (timestamp : Q) :
  let r := fst (_detectPeaks d timestamp) in
  let tc := t (Cycle.candidate d) in
  let evict :=
    shift_while_before (fun p => p)
      (JS.sub timestamp (JS.mul WINDOW_DURATION_MS 2)) in
  (peaks r = peaks d /\ troughs r = troughs d) \/
  ((11 <= length (samples d))%nat /\
   (peaks r = evict (peaks d) \/
    (gap_ok (peaks d) tc = true /\ peaks r = evict (peaks d ++ [tc]))) /\
   (troughs r = evict (troughs d) \/
    (gap_ok (troughs d) tc = true /\ troughs r = evict (troughs d ++ [tc])))).
Proof.
  cbv zeta. unfold _detectPeaks.
  destruct (Nat.ltb_spec (length (samples d)) (5 * 2 + 1)) as [L | L];
    [left; split; reflexivity | right].
  split; [lia |]. cbv zeta. fold (Cycle.candidate d).
  set (tc := t (Cycle.candidate d)).
  match goal with
  | |- context [let '(_, _) := ?X in _] =>
      assert (Hfirst :
        (peaks (fst X) = peaks d \/
         (gap_ok (peaks d) tc = true /\ peaks (fst X) = peaks d ++ [tc])) /\
        troughs (fst X) = troughs d);
      [| destruct X as [d1 out]]
  end.
  { match goal with
    | |- (peaks (fst (if ?c then _ else _)) = _ \/ _) /\ _ => destruct c
    end; [| split; [left |]; reflexivity].
    destruct (gap_ok (peaks d) tc) eqn:G; [| split; [left |]; reflexivity].
    destruct (checkCycleComplete_frame (set_peaks d (peaks d ++ [tc])) tc)
      as (_ & -> & -> & _).
    split; [right; split |]; reflexivity. }
  cbn [fst] in Hfirst. destruct Hfirst as [Hp Ht].
  match goal with
  | |- context [if ?c then (if ?g then _ else _) else _] =>
      destruct c; [destruct g eqn:G |]
  end; unfold set_troughs, set_peaks; cbn [fst peaks troughs];
    rewrite ?Ht in *; (split;
      [destruct Hp as [-> | [Hg ->]]; [left | right; split]; trivial |]).
  - right. split; trivial.
  - left. reflexivity.
  - left. reflexivity.
Qed.

Lemma spaced_tail (p : Q) (history : list Q) :
  Stream.spaced (p :: history) -> Stream.spaced history.
Proof. destruct history; simpl; tauto. Qed.

Lemma spaced_evict (cutoff : Q) (history : list Q) :
  Stream.spaced history ->
  Stream.spaced (shift_while_before (fun p => p) cutoff history).
Proof.
  induction history as [|p history IH]; intro H; [exact H |].
  simpl shift_while_before.
  destruct (JS.ltb p cutoff); [apply IH, (spaced_tail p), H | exact H].
Qed.

Lemma spaced_push (history : list Q) (x : Q) :
  Stream.spaced history -> gap_ok history x = true ->
  Stream.spaced (history ++ [x]).
Proof.
  induction history as [|p history IH]; intros Hs Hg; [exact I |].
  destruct history as [|q history].
  - simpl. unfold gap_ok in Hg. simpl in Hg.
    apply orb_true_iff in Hg. split; [| exact I].
    destruct Hg as [Hg | Hg]; [left; now apply eqb_eq | right].
    apply gtb_gt in Hg. unfold JS.sub in Hg.
    apply Number_lt_rnd in Hg; [exact Hg |].
    apply (Number_integer 300). reflexivity.
  - destruct Hs as [Hpq Hs]. split; [exact Hpq |].
    apply IH; [exact Hs |].
    unfold gap_ok, JS.last_opt in *.
    now rewrite last_cons_default in Hg.
Qed.

(** X11. Whatever the calls since the reset, two consecutive peaks of the
    history are more than 300 ms apart unless the earlier one is the
    timestamp 0, which the gap test takes for "no peak yet"; and the same
    holds of the troughs. *)
Theorem histories_spaced (calls : list Call) :
  Stream.spaced (peaks (fst (run reset calls))) /\
  Stream.spaced (troughs (fst (run reset calls))).
Proof.
  assert (H : forall d,
            Stream.spaced (peaks d) /\ Stream.spaced (troughs d) ->
            Stream.spaced (peaks (fst (run d calls))) /\
            Stream.spaced (troughs (fst (run d calls)))).
  { induction calls as [|k calls IH]; intros d Hd; [exact Hd |].
    simpl run. destruct (call d k) as [d1 out1] eqn:E1.
    specialize (IH d1). destruct (run d1 calls) as [d2 out2].
    cbn [fst] in *. apply IH. clear IH.
    destruct k as [| | ts y a]; simpl in E1.
    - injection E1 as <- <-. split; exact I.
    - injection E1 as <- <-. exact Hd.
    - rewrite addSample_entered in E1. cbv zeta in E1.
      set (d0 := Cycle.entered d ts y a) in *.
      destruct (length (samples d0) <? 10)%nat;
        [injection E1 as <- <-; exact Hd |].
      destruct Hd as [Hp Ht].
      pose proof (detectPeaks_histories d0 ts) as Hh. cbv zeta in Hh.
      rewrite E1 in Hh. cbn [fst] in Hh.
      change (peaks d0) with (peaks d) in Hh.
      change (troughs d0) with (troughs d) in Hh.
      destruct Hh as [[-> ->] | (_ & Hp1 & Ht1)]; [now split |].
      split.
      + destruct Hp1 as [-> | [Hg ->]]; apply spaced_evict;
          [exact Hp | now apply spaced_push].
      + destruct Ht1 as [-> | [Hg ->]]; apply spaced_evict;
          [exact Ht | now apply spaced_push]. }
  apply H. split; exact I.
Qed.

End Histories.

(** ** Cycle segmentation engine: a knee that does not move *)

Section StillKnee.

Context {R : JS.Rounding}.

Import Cadence.

Variable level : Q.

(** The sum of [n] values at the level depends on [n] only. *)
Lemma sum_flat (xs : list Q) (a b : Q) :
  a == b -> Forall (fun v => v == level) xs ->
  fold_left JS.add xs a == fold_left JS.add (repeat level (length xs)) b.
Proof.
  revert a b. induction xs as [|x xs IH]; intros a b Hab H; [exact Hab |].
  apply Forall_cons_iff in H. destruct H as [Hx H].
  cbn [fold_left length repeat]. apply IH; [| exact H].
  unfold JS.add. apply rnd_proper. now rewrite Hab, Hx.
Qed.

Lemma in_firstn {A : Type} (n : nat) (xs : list A) (x : A) :
  In x (firstn n xs) -> In x xs.
Proof.
  revert xs. induction n as [|n IH]; intros [|a xs]; simpl; try tauto.
  intros [-> | H]; [now left | right; now apply IH].
Qed.

Lemma in_skipn {A : Type} (n : nat) (xs : list A) (x : A) :
  In x (skipn n xs) -> In x xs.
Proof.
  revert xs. induction n as [|n IH]; intros [|a xs]; simpl; try tauto.
  intro H. right. now apply IH.
Qed.

(** On a flat window a smoothed value depends on the number of samples
    that it averages only. *)
Lemma smoothY_flat (d : CadenceDetector) (idx : nat) :
  Stream.flat level d -> (idx < length (samples d))%nat ->
  let n := (Nat.min (length (samples d) - 1) (idx + 2) + 1 - (idx - 2))%nat in
  _smoothY d idx == Cycle.mean (repeat level n).
Proof.
  intros Hflat Hidx. cbv zeta. unfold _smoothY, Cycle.mean. cbv zeta.
  set (window := firstn _ (skipn _ (samples d))).
  assert (Hlen : length window
                 = (Nat.min (length (samples d) - 1) (idx + 2) + 1
                    - (idx - 2))%nat).
  { unfold window. rewrite length_firstn, length_skipn. lia. }
  rewrite <- Hlen, repeat_length. unfold JS.quot, JS.sum.
  apply rnd_proper.
  rewrite (sum_flat (map y window) 0 0); [| reflexivity |].
  - rewrite length_map. reflexivity.
  - apply Forall_map, Forall_forall. intros s Hs.
    unfold window in Hs. apply in_firstn, in_skipn in Hs.
    unfold Stream.flat in Hflat. rewrite Forall_forall in Hflat.
    now apply Hflat.
Qed.

Lemma forallb_false {A : Type} (f : A -> bool) (xs : list A) (x : A) :
  In x xs -> f x = false -> forallb f xs = false.
Proof.
  intros Hin Hx. destruct (forallb f xs) eqn:E; [| reflexivity].
  rewrite forallb_forall in E. rewrite (E x Hin) in Hx. discriminate.
Qed.

(** On a flat window the candidate is neither a peak nor a trough. *)
Lemma detectPeaks_flat (d : CadenceDetector) (timestamp : Q) :
  Stream.flat level d ->
  snd (_detectPeaks d timestamp) = [] /\
  Cycle.same_cycle_state d (fst (_detectPeaks d timestamp)) /\
  samples (fst (_detectPeaks d timestamp)) = samples d /\
  (forall p, In p (peaks (fst (_detectPeaks d timestamp))) -> In p (peaks d)) /\
  (forall p, In p (troughs (fst (_detectPeaks d timestamp))) ->
             In p (troughs d)).
Proof.
  intro Hflat. unfold _detectPeaks.
  destruct (Nat.ltb_spec (length (samples d)) (5 * 2 + 1)) as [L | L].
  { repeat split; auto. }
  cbv zeta.
  set (idx := (length (samples d) - 1 - 5)%nat).
  set (others := filter _ (seq (idx - 5) (2 * 5 + 1))).
  assert (Hin : In (idx + 1)%nat others).
  { unfold others. apply filter_In. split.
    - apply in_seq. unfold idx. lia.
    - apply negb_true_iff, Nat.eqb_neq. lia. }
  assert (Hc : _smoothY d idx == Cycle.mean (repeat level 5)).
  { rewrite smoothY_flat; [| assumption | unfold idx; lia].
    replace (Nat.min (length (samples d) - 1) (idx + 2) + 1 - (idx - 2))%nat
      with 5%nat by (unfold idx; lia).
    reflexivity. }
  assert (Hn : _smoothY d (idx + 1) == Cycle.mean (repeat level 5)).
  { rewrite smoothY_flat; [| assumption | unfold idx; lia].
    replace (Nat.min (length (samples d) - 1) (idx + 1 + 2) + 1
             - (idx + 1 - 2))%nat
      with 5%nat by (unfold idx; lia).
    reflexivity. }
  rewrite (forallb_false _ others (idx + 1)%nat Hin),
          (forallb_false _ others (idx + 1)%nat Hin).
  - simpl. repeat split; intros p Hp; now apply shift_while_before_incl in Hp.
  - apply negb_false_iff, leb_le. rewrite Hc, Hn. apply Qle_refl.
  - apply negb_false_iff, leb_le. rewrite Hc, Hn. apply Qle_refl.
Qed.

(** X12. A knee that stays at one height never registers: whatever the
    timestamps and the angles of the frames, a detector whose window is flat
    emits nothing, keeps its cycle counter, last-cycle time and steadiness
    flag, and gains neither a peak nor a trough. *)
Theorem still_knee_registers_nothing (d : CadenceDetector)
    (fs : list (Q * Q * option AngleSet.t)) :
  Stream.flat level d ->
  Forall (fun f => Stream.kneeY_of f == level) fs ->
  let r := run d (Cycle.addSamples fs) in
  snd r = [] /\
  cycleCount (fst r) = cycleCount d /\
  lastCycleTime (fst r) = lastCycleTime d /\
  isSteady (fst r) = isSteady d /\
  (forall p, In p (peaks (fst r)) -> In p (peaks d)) /\
  (forall p, In p (troughs (fst r)) -> In p (troughs d)).
Proof.
  revert d. induction fs as [|[[ts ky] a] fs IH]; intros d Hflat Hfs.
  - simpl. repeat split; auto.
  - apply Forall_cons_iff in Hfs. destruct Hfs as [Hf Hfs].
    unfold Stream.kneeY_of in Hf. simpl in Hf.
    cbv zeta. simpl run.
    set (d0 := Cycle.entered d ts ky a).
    assert (Hflat0 : Stream.flat level d0).
    { unfold Stream.flat, d0, Cycle.entered. cbn [samples].
      apply Forall_forall. intros s Hs.
      apply shift_while_before_incl in Hs. apply in_app_iff in Hs.
      unfold Stream.flat in Hflat. rewrite Forall_forall in Hflat.
      destruct Hs as [Hs | [<- | []]]; [now apply Hflat | exact Hf]. }
    assert (Hstep : exists d1,
              addSample d ts ky a = (d1, []) /\ Stream.flat level d1 /\
              cycleCount d1 = cycleCount d /\
              lastCycleTime d1 = lastCycleTime d /\
              isSteady d1 = isSteady d /\
              (forall p, In p (peaks d1) -> In p (peaks d)) /\
              (forall p, In p (troughs d1) -> In p (troughs d))).
    { rewrite addSample_entered. cbv zeta. fold d0.
      destruct (length (samples d0) <? 10)%nat.
      - exists d0. repeat split; auto.
      - destruct (detectPeaks_flat d0 ts Hflat0)
          as (Hout & (Hc & Hl & Hs & _) & Hsamples & Hp & Ht).
        destruct (_detectPeaks d0 ts) as [d1 out1] eqn:E.
        cbn [fst snd] in *. subst out1. exists d1.
        split; [reflexivity |]. split.
        { unfold Stream.flat. rewrite Hsamples. exact Hflat0. }
        repeat split; auto. }
    destruct Hstep as (d1 & -> & Hflat1 & Hc1 & Hl1 & Hs1 & Hp1 & Ht1).
    specialize (IH d1 Hflat1 Hfs). cbv zeta in IH.
    destruct (run d1 (Cycle.addSamples fs)) as [d2 out2].
    cbn [fst snd] in *.
    destruct IH as (-> & -> & -> & -> & Hp2 & Ht2).
    repeat split; auto.
Qed.

End StillKnee.

(** Ten seconds on the saddle without pedalling. *)
Lemma still_knee_registers_nothing_witness :
  let R := doubles in
  let d := Cadence.onCycle Cadence.reset in
  let fs := Vectors.still_frames 100 in
  let r := Cadence.run d (Cycle.addSamples fs) in
  Stream.flat (1 # 2) d /\
  Forall (fun f => Stream.kneeY_of f == 1 # 2) fs /\
  snd r = [] /\
  Cadence.cycleCount (fst r) = 0%nat /\
  Cadence.peaks (fst r) = [] /\
  Cadence.troughs (fst r) = [].
Proof.
  intros R d fs r.
  assert (H1 : Stream.flat (1 # 2) d) by constructor.
  assert (H2 : Forall (fun f => Stream.kneeY_of f == 1 # 2) fs).
  { unfold fs, Vectors.still_frames. apply Forall_map, Forall_forall.
    intros i _. unfold Stream.kneeY_of. simpl. apply Qeq_refl. }
  split; [exact H1 |]. split; [exact H2 |].
  destruct (still_knee_registers_nothing (1 # 2) d fs H1 H2)
    as (Hout & Hc & _ & _ & Hp & Ht).
  fold r in Hout, Hc, Hp, Ht.
  split; [exact Hout |]. split; [exact Hc |]. split.
  - destruct (Cadence.peaks (fst r)) as [|p ps]; [reflexivity |].
    destruct (Hp p (or_introl eq_refl)).
  - destruct (Cadence.troughs (fst r)) as [|p ps]; [reflexivity |].
    destruct (Ht p (or_introl eq_refl)).
Defined.

(** ** Session analyzer: further properties *)

Section TrimmingShape.

Context {R : JS.Rounding}.

Import Session.

(** X13. The first cycle of a session survives the trimming, whatever the order
    of the list, when its timestamp is a number. *)
Theorem trimCycles_keeps_first (first : CycleSummary.t)
    (rest : list CycleSummary.t) :
  JS.Number (CycleSummary.timestamp first) ->
  exists kept, Analysis.trimCycles (first :: rest) = first :: kept.
Proof.
  intro Hn. destruct (short_dec (first :: rest)) as [H | H].
  - exists rest. now apply trimCycles_short.
  - rewrite (trimCycles_filter _ H). cbn [filter].
    destruct (JS.leb (CycleSummary.timestamp first)
                     (cutoff (first :: rest))) eqn:E;
      [eexists; reflexivity | exfalso].
    apply leb_gt in E. pose proof (long_span _ H) as L.
    unfold span in L. simpl firstTime in L.
    unfold cutoff, JS.sub in E.
    apply (Number_rnd_lt _ _ Hn) in E. lra.
Qed.

(** On a list ordered by timestamp, a filter that keeps the timestamps up
    to a bound keeps a prefix. *)
Lemma filter_ordered_prefix (bound : Q) (xs : list CycleSummary.t) :
  ordered xs ->
  exists dropped,
    xs = filter (fun c => JS.leb (CycleSummary.timestamp c) bound) xs
         ++ dropped /\
    Forall (fun c => bound < CycleSummary.timestamp c) dropped.
Proof.
  induction xs as [|a xs IH]; intro Hs.
  - exists []. split; [reflexivity | constructor].
  - apply StronglySorted_inv in Hs. destruct Hs as [Hs Ha].
    cbn [filter].
    destruct (JS.leb (CycleSummary.timestamp a) bound) eqn:E.
    + destruct (IH Hs) as (dropped & Hx & Hd).
      exists dropped. split; [simpl; now rewrite <- Hx | exact Hd].
    + apply leb_gt in E. exists (a :: xs).
      assert (Hall : Forall (fun c => bound < CycleSummary.timestamp c)
                            (a :: xs)).
      { constructor; [exact E |].
        eapply Forall_impl; [| exact Ha]. simpl. intros c Hc. lra. }
      split; [| exact Hall].
      replace (filter _ xs) with (@nil CycleSummary.t); [reflexivity |].
      symmetry. apply Forall_cons_iff in Hall. destruct Hall as [_ Hall].
      clear -Hall. induction xs as [|c xs IH]; [reflexivity |].
      apply Forall_cons_iff in Hall. destruct Hall as [Hc Hall].
      cbn [filter]. apply leb_gt in Hc. rewrite Hc. now apply IH.
Qed.

(** X14. On a session ordered by timestamp [trimCycles] only cuts the tail: the
    session is the trimmed list followed by the dropped cycles, each
    dropped cycle is above the cutoff that the code computes, and
    something is dropped only from a session that spans more than 5000 ms.
    Where the timestamps are numbers, each dropped cycle is less than
    5000 ms before the last one. *)
Theorem trimCycles_cuts_tail (xs : list CycleSummary.t) :
  ordered xs ->
  exists dropped,
    xs = Analysis.trimCycles xs ++ dropped /\
    Forall (after_cutoff xs) dropped /\
    (numbers xs -> Forall (in_trailing_window xs) dropped) /\
    (dropped <> [] -> 5000 < span xs /\ 5000 < measured_span xs).
Proof.
  intro Hs. destruct (short_dec xs) as [H | H].
  - exists []. rewrite (trimCycles_short xs H), app_nil_r.
    split; [reflexivity |]. split; [constructor |].
    split; [constructor | congruence].
  - rewrite (trimCycles_filter xs H).
    destruct (filter_ordered_prefix (cutoff xs) xs Hs)
      as (dropped & Hx & Hd).
    exists dropped. split; [exact Hx |]. split; [exact Hd |]. split.
    + intro Hn. apply Forall_forall. intros c Hc.
      rewrite Forall_forall in Hd. apply after_cutoff_trailing.
      * unfold numbers in Hn. rewrite Forall_forall in Hn. apply Hn.
        rewrite Hx. apply in_app_iff. now right.
      * now apply Hd.
    + intros _. split; [now apply long_span |].
      apply Qnot_le_lt. intro C. apply H. now right.
Qed.

End TrimmingShape.

(** A session that starts at the number nearest 0.1 and jumps back in
    time. *)
Lemma trimCycles_keeps_first_witness :
  let R := doubles in
  let first := Vectors.cycle 1 (JS.rnd (1 # 10)) 140 in
  let rest := [Vectors.cycle 2 9000 150; Vectors.cycle 3 6000 145] in
  JS.Number (CycleSummary.timestamp first) /\
  exists kept, Analysis.trimCycles (first :: rest) = first :: kept.
Proof.
  intros R first rest.
  assert (H : JS.Number (CycleSummary.timestamp first))
    by (vm_compute; split; congruence).
  split; [exact H | exact (trimCycles_keeps_first first rest H)].
Defined.

(** The nine-second session loses its last two cycles. *)
Lemma trimCycles_cuts_tail_witness :
  let R := doubles in
  Session.ordered Vectors.session_9s /\
  exists dropped,
    Vectors.session_9s = Analysis.trimCycles Vectors.session_9s ++ dropped /\
    Forall (Session.after_cutoff Vectors.session_9s) dropped /\
    (Session.numbers Vectors.session_9s ->
     Forall (Session.in_trailing_window Vectors.session_9s) dropped) /\
    (dropped <> [] ->
     5000 < Session.span Vectors.session_9s /\
     5000 < Session.measured_span Vectors.session_9s).
Proof.
  intro R.
  assert (H : Session.ordered Vectors.session_9s).
  { unfold Session.ordered, Vectors.session_9s.
    repeat (constructor; simpl; try (unfold Qle; simpl; lia)). }
  split; [exact H | exact (trimCycles_cuts_tail Vectors.session_9s H)].
Defined.

(** ** Session analyzer: the reported statistics *)

Section Statistics.

Context {R : JS.Rounding}.

Variable Math_pow : Q -> Q -> Q.
Variable Math_sqrt : Q -> Q.

Lemma geb_ge (a b : Q) : JS.geb a b = true <-> b <= a.
Proof. apply leb_le. Qed.

Lemma geb_lt (a b : Q) : JS.geb a b = false <-> a < b.
Proof. apply leb_gt. Qed.



End Statistics.


(** Three cycles whose knee maximum is the number nearest 30.15: the sum
    and the mean are rounded on the way, and the reported mean, 30.1, is
    below the reported minimum and maximum, 30.2. *)
Example statistics_of_equal_cycles :
  let R := doubles in
  let v := JS.rnd (3015 # 100) in
  let session :=
    [Vectors.cycle 1 0 v; Vectors.cycle 2 1000 v; Vectors.cycle 3 2000 v] in
  map (fun r => (Recommendation.min r, Recommendation.avg r,
                 Recommendation.max r))
      (firstn 1 (Analysis.analyzeSession Vectors.any_pow Vectors.any_sqrt
                   session))
  = [(JS.rnd (302 # 10), JS.rnd (301 # 10), JS.rnd (302 # 10))].
Proof. vm_compute. reflexivity. Qed.

(** ** Colours of the gauges and of the chart points *)

Section Colours.

(** X16. The colour of a live gauge is the colour of the status that the session
    analysis gives to the same value taken as a session mean: green in the
    target range, yellow up to 10 degrees outside, red beyond. *)
Theorem getAngleColor_matches_classify (key : Analysis.Channel) (value : Q) :
  Main.getAngleColor key value
  = Main.STATUS_COLORS
      (fst (Analysis.classify (Analysis.threshold_of key) value)).
Proof.
  unfold Main.getAngleColor, Analysis.classify.
  destruct key; cbn [Main.TARGET_RANGES Analysis.threshold_of
    Threshold.min Threshold.max Analysis.knee_threshold
    Analysis.hip_threshold Analysis.torso_threshold Analysis.elbow_threshold];
    repeat match goal with
    | |- context [JS.geb ?a ?b] =>
        let E := fresh "E" in destruct (JS.geb a b) eqn:E;
        [apply geb_ge in E | apply geb_lt in E]
    | |- context [JS.leb ?a ?b] =>
        let E := fresh "E" in destruct (JS.leb a b) eqn:E;
        [apply leb_le in E | apply leb_gt in E]
    | |- context [JS.ltb ?a ?b] =>
        let E := fresh "E" in destruct (JS.ltb a b) eqn:E;
        [apply ltb_lt in E | apply ltb_ge in E]
    | |- context [JS.gtb ?a ?b] =>
        let E := fresh "E" in destruct (JS.gtb a b) eqn:E;
        [apply gtb_gt in E | apply gtb_le in E]
    end; cbn [andb fst]; try reflexivity; exfalso; lra.
Qed.

(** X17. A point of a chart gets the colour of the live gauge of the same
    channel at the same value. *)
Theorem point_color_matches_gauge (key : Analysis.Channel) (value : Q) :
  Charts.point_color key value = Main.getAngleColor key value.
Proof.
  unfold Charts.point_color, Charts.getPointColor, Main.getAngleColor.
  destruct key; reflexivity.
Qed.

End Colours.

(** ** The session of the main script *)

Section SessionInvariant.

Context {R : JS.Rounding}.

Variable Math_atan2 : Q -> Q -> Q.
Variable Math_PI : Q.
Variable Math_pow : Q -> Q -> Q.
Variable Math_sqrt : Q -> Q.
Variable aspectRatio : Q.

Let handle := Main.handle Math_atan2 Math_PI Math_pow Math_sqrt aspectRatio.
Let session := Main.session Math_atan2 Math_PI Math_pow Math_sqrt aspectRatio.

Lemma numbered_after_filter (n : nat) (f : CycleSummary.t -> bool)
    (out : list CycleSummary.t) :
  Cycle.numbered_after n out -> Cycle.numbered_after n (filter f out).
Proof.
  intros [Hall Hs]. split.
  - apply Forall_forall. intros c Hc. apply filter_In in Hc.
    rewrite Forall_forall in Hall. now apply Hall.
  - clear Hall. induction out as [|c out IH]; [constructor |].
    simpl in Hs. apply StronglySorted_inv in Hs. destruct Hs as [Hs Hc].
    cbn [filter]. destruct (f c); [| now apply IH].
    simpl. constructor; [now apply IH |].
    apply Forall_map, Forall_forall. intros c' Hc'. apply filter_In in Hc'.
    rewrite Forall_map, Forall_forall in Hc. now apply Hc.
Qed.

Lemma trimCycles_incl (xs : list CycleSummary.t) (c : CycleSummary.t) :
  In c (Analysis.trimCycles xs) -> In c xs.
Proof.
  destruct (short_dec xs) as [H | H].
  - now rewrite (trimCycles_short xs H).
  - rewrite (trimCycles_filter xs H). intro Hc. now apply filter_In in Hc.
Qed.

Lemma numbered_after_trim (n : nat) (xs : list CycleSummary.t) :
  Cycle.numbered_after n xs -> Cycle.numbered_after n (Analysis.trimCycles xs).
Proof.
  intro Hn. destruct (short_dec xs) as [H | H].
  - now rewrite (trimCycles_short xs H).
  - rewrite (trimCycles_filter xs H). now apply numbered_after_filter.
Qed.

Lemma numbered_after_snoc (n : nat) (out : list CycleSummary.t)
    (c : CycleSummary.t) :
  Cycle.numbered_after n out ->
  (n < CycleSummary.cycleNumber c)%nat ->
  Forall (fun c' => (CycleSummary.cycleNumber c'
                     < CycleSummary.cycleNumber c)%nat) out ->
  Cycle.numbered_after n (out ++ [c]).
Proof.
  intros [Hall Hs] Hn Hlt. split.
  - apply Forall_app. split; [exact Hall | now constructor].
  - rewrite map_app. simpl. clear Hall Hn.
    induction out as [|c' out IH]; simpl; [repeat constructor |].
    simpl in Hs. apply StronglySorted_inv in Hs. destruct Hs as [Hs Hc'].
    apply Forall_cons_iff in Hlt. destruct Hlt as [Hlt0 Hlt].
    constructor; [now apply IH |].
    apply Forall_app. split; [exact Hc' | now repeat constructor].
Qed.

(** Stopping a recording keeps the invariant. *)
Lemma stopSession_consistent (a : Main.App) :
  Recorded.consistent Math_pow Math_sqrt a ->
  Main.currentState a = Main.RECORDING ->
  Recorded.consistent Math_pow Math_sqrt
    (Main.stopSession Math_pow Math_sqrt
       (Main.mkApp (Main.currentState a) (Main.cameraSide a)
          (Main.cadenceDetector a) (Main.cycleData a) (Main.sideVotes a)
          true (Main.shown a))) /\
  Recorded.consistent Math_pow Math_sqrt (Main.stopSession Math_pow Math_sqrt a).
Proof.
  intros (Hcb & Hsteady & (Hnum & Hle & Hrpm) & Hstate) Hrec.
  rewrite Hrec in Hstate. destruct Hstate as (Hside & Hshown & Hstopped & Hc).
  assert (Hgoal : forall stopped,
    Recorded.consistent Math_pow Math_sqrt
      (Main.stopSession Math_pow Math_sqrt
         (Main.mkApp (Main.currentState a) (Main.cameraSide a)
            (Main.cadenceDetector a) (Main.cycleData a) (Main.sideVotes a)
            stopped (Main.shown a)))).
  { intro stopped. unfold Main.stopSession, Main.finalizeAnalysis.
    cbn [Main.cycleData Main.cameraSide Main.cadenceDetector Main.sideVotes
         Main.pedalingStopped Main.shown Main.currentState].
    destruct (Main.cycleData a) as [|c cs] eqn:Ecd.
    - simpl. unfold Recorded.consistent, Recorded.cycles_ok. simpl.
      split; [exact Hcb |]. split; [exact Hsteady |].
      split; [split; [split; constructor | split; constructor] |].
      split; [exact Hside |]. left. left. split; reflexivity.
    - change (length (c :: cs) =? 0)%nat with false. cbv iota zeta.
      destruct (Analysis.trimCycles (c :: cs)) as [|c' cs'] eqn:Et.
      { simpl. unfold Recorded.consistent, Recorded.cycles_ok. simpl.
        split; [exact Hcb |]. split; [exact Hsteady |].
        split; [split; [split; constructor | split; constructor] |].
        split; [exact Hside |]. right. split; reflexivity. }
      change (length (c' :: cs') =? 0)%nat with false. cbv iota.
      unfold Recorded.consistent, Recorded.cycles_ok, Recorded.reported,
        Recorded.outcome_of, Recorded.recommended.
      cbn [Main.cycleData Main.cameraSide Main.cadenceDetector
           Main.sideVotes Main.pedalingStopped Main.shown Main.currentState].
      rewrite <- Et.
      split; [exact Hcb |]. split; [exact Hsteady |].
      split; [split; [now apply numbered_after_trim | split] |].
      + apply Forall_forall. intros x Hx. apply trimCycles_incl in Hx.
        rewrite Forall_forall in Hle. now apply Hle.
      + apply Forall_forall. intros x Hx. apply trimCycles_incl in Hx.
        rewrite Forall_forall in Hrpm. now apply Hrpm.
      + split; [exact Hside |]. left. right. rewrite Et.
        split; [discriminate |]. split; reflexivity. }
  split; [apply Hgoal |].
  specialize (Hgoal (Main.pedalingStopped a)).
  destruct a. exact Hgoal.
Qed.

Lemma begin_consistent :
  Recorded.consistent Math_pow Math_sqrt Main.beginDetecting.
Proof.
  unfold Recorded.consistent, Recorded.cycles_ok. simpl.
  repeat split; try constructor; discriminate.
Qed.

(** While detecting, any detector with a listener and an empty angle
    buffer will do, and a steady one may start the recording. *)
Lemma detecting_consistent (detector : Cadence.CadenceDetector)
    (votes : nat * nat) :
  Cadence.onCycleCallback detector = true ->
  (Cadence.isSteady detector = true ->
   (1 <= Cadence.cycleCount detector)%nat) ->
  Cadence.currentCycleAngles detector = [] ->
  let a := Main.mkApp Main.DETECTING None detector [] votes false None in
  Recorded.consistent Math_pow Math_sqrt a /\
  (Cadence.isSteady detector = true ->
   Recorded.consistent Math_pow Math_sqrt (Main.transitionToRecording a)).
Proof.
  intros Hcb Hsteady Hbuf a.
  assert (Hcycles : Recorded.cycles_ok a)
    by (split; [split | split]; constructor).
  split.
  - split; [exact Hcb |]. split; [exact Hsteady |]. split; [exact Hcycles |].
    cbn. repeat split. exact Hbuf.
  - intro Hs.
    split; [exact Hcb |]. split; [exact Hsteady |]. split; [exact Hcycles |].
    cbn. repeat split. now apply Hsteady.
Qed.

(** A frame of the detection phase keeps the invariant. *)
Lemma detecting_frame_consistent (a : Main.App)
    (landmarks : list (option Angles.Landmark)) (timestamp : Q) :
  Recorded.consistent Math_pow Math_sqrt a ->
  Main.currentState a = Main.DETECTING ->
  Recorded.consistent Math_pow Math_sqrt
    (Main.onFrame Math_atan2 Math_PI Math_pow Math_sqrt aspectRatio a landmarks
       timestamp).
Proof.
  intros (Hcb & Hsteady & _ & Hstate) Hdet.
  rewrite Hdet in Hstate.
  destruct Hstate as (Hside & Hcd & Hshown & Hstopped & Hbuf).
  unfold Main.onFrame. rewrite Hdet, Hside, Hcd, Hshown, Hstopped.
  set (side := Pose.detectVisibleSide landmarks).
  set (votes := Main.vote (Main.sideVotes a) side).
  destruct (Angles.getKneeLandmark landmarks side) as [knee |].
  - set (r := Cadence.addSample (Main.cadenceDetector a) timestamp
                (Angles.y knee) None).
    assert (Hr : Cadence.onCycleCallback (fst r) = true /\
                 (Cadence.isSteady (fst r) = true ->
                  (1 <= Cadence.cycleCount (fst r))%nat) /\
                 Cadence.currentCycleAngles (fst r) = []).
    { destruct (addSample_cases (Main.cadenceDetector a) timestamp
                  (Angles.y knee) None)
        as [(_ & Hc & _ & Hs & Hb & Hk)
           | (pt & pp & _ & _ & _ & Hc & _ & Hb & Hk & _)];
        fold r in Hc, Hb, Hk.
      - fold r in Hs. rewrite Hk, Hs, Hc, Hb, Hbuf.
        split; [exact Hcb |]. split; [exact Hsteady | reflexivity].
      - rewrite Hk, Hc, Hb.
        split; [exact Hcb |]. split; [intros _; lia | reflexivity]. }
    destruct r as [detector emitted]. cbn [fst] in Hr.
    destruct Hr as (Hcb1 & Hsteady1 & Hbuf1).
    destruct (detecting_consistent detector votes Hcb1 Hsteady1 Hbuf1)
      as [Hstay Hgo].
    destruct (Cadence.isSteady detector) eqn:Es;
      [now apply Hgo | exact Hstay].
  - exact (proj1 (detecting_consistent (Main.cadenceDetector a) votes
                    Hcb Hsteady Hbuf)).
Qed.

(** A frame of the recording keeps the invariant. *)
Lemma recording_frame_consistent (a : Main.App)
    (landmarks : list (option Angles.Landmark)) (timestamp : Q) :
  Recorded.consistent Math_pow Math_sqrt a ->
  Main.currentState a = Main.RECORDING ->
  Recorded.consistent Math_pow Math_sqrt
    (Main.onFrame Math_atan2 Math_PI Math_pow Math_sqrt aspectRatio a landmarks
       timestamp).
Proof.
  intros Ha Hrec. pose proof Ha as Ha0.
  destruct Ha as (Hcb & Hsteady & (Hnum & Hle & Hrpm) & Hstate).
  rewrite Hrec in Hstate. destruct Hstate as (Hside & Hshown & Hstopped & Hc).
  unfold Main.onFrame. rewrite Hrec, Hside.
  set (side := Recorded.majority (Main.sideVotes a)).
  set (angles := Angles.computeAngles _ _ landmarks side aspectRatio).
  destruct (Angles.getKneeLandmark landmarks side) as [knee |]; [| exact Ha0].
  rewrite Hstopped. cbn [negb].
  set (r := Cadence.addSample (Main.cadenceDetector a) timestamp
              (Angles.y knee) angles).
  assert (Hnext : Recorded.consistent Math_pow Math_sqrt
            (Main.mkApp Main.RECORDING (Some side) (fst r)
               (Main.cycleData a ++ snd r) (Main.sideVotes a)
               false None)).
  { unfold Recorded.consistent, Recorded.cycles_ok.
    cbn [Main.cycleData Main.cameraSide Main.cadenceDetector
         Main.sideVotes Main.pedalingStopped Main.shown Main.currentState].
    destruct (addSample_cases (Main.cadenceDetector a) timestamp
                (Angles.y knee) angles)
      as [(Hout & Hn & _ & Hs & _ & Hk)
         | (pt & pp & _ & _ & Hband & Hn & _ & _ & Hk & Hout)];
      fold r in Hout, Hn, Hk.
    - fold r in Hs. rewrite Hout, app_nil_r, Hn, Hk, Hs.
      split; [exact Hcb |]. split; [exact Hsteady |].
      split; [split; [exact Hnum | split; assumption] |].
      repeat split; auto.
    - rewrite Hn, Hk.
      split; [exact Hcb |]. split; [intros _; lia |].
      split; [| repeat split; auto; lia].
      rewrite Hout.
      destruct ((0 <? length _)%nat && _).
      + set (c := Cadence.summarize _ _ _ _).
        assert (Hcn : CycleSummary.cycleNumber c
                      = S (Cadence.cycleCount (Main.cadenceDetector a)))
          by reflexivity.
        split; [| split].
        * apply numbered_after_snoc; [exact Hnum | lia |].
          eapply Forall_impl; [| exact Hle]. simpl. intros x Hx. lia.
        * apply Forall_app. split.
          -- eapply Forall_impl; [| exact Hle]. simpl. intros x Hx. lia.
          -- constructor; [lia | constructor].
        * apply Forall_app. split; [exact Hrpm |].
          constructor; [| constructor].
          exists (JS.round (Cycle.cadence (JS.sub pt pp))).
          split; [| now apply round_in_band].
          unfold c, Cadence.summarize. simpl.
          now rewrite (div_in_band _ Hband).
      + rewrite app_nil_r. split; [exact Hnum |]. split; [| exact Hrpm].
        eapply Forall_impl; [| exact Hle]. simpl. intros x Hx. lia. }
  rewrite Hshown.
  destruct r as [detector emitted] eqn:Er. cbn [fst snd] in Hnext.
  cbn [Main.cycleData Main.cameraSide Main.cadenceDetector
       Main.sideVotes Main.pedalingStopped Main.shown Main.currentState].
  destruct (Cadence.hasStopped detector timestamp); [| exact Hnext].
  exact (proj1 (stopSession_consistent _ Hnext eq_refl)).
Qed.

(** Every event keeps the invariant. *)
Lemma handle_consistent (a : Main.App) (e : Main.Event) :
  Recorded.consistent Math_pow Math_sqrt a -> Recorded.consistent Math_pow Math_sqrt (handle a e).
Proof.
  intro Ha. unfold handle, Main.handle. destruct e as [landmarks ts | |].
  - destruct (Main.currentState a) eqn:Es.
    + now apply detecting_frame_consistent.
    + now apply recording_frame_consistent.
    + unfold Main.onFrame. now rewrite Es.
  - destruct (Main.currentState a) eqn:Es; try exact Ha.
    exact (proj2 (stopSession_consistent a Ha Es)).
  - apply begin_consistent.
Qed.

Lemma session_consistent (events : list Main.Event) :
  Recorded.consistent Math_pow Math_sqrt (session events).
Proof.
  unfold session, Main.session.
  assert (H : forall a, Recorded.consistent Math_pow Math_sqrt a ->
                Recorded.consistent Math_pow Math_sqrt
                  (fold_left handle events a)).
  { induction events as [|e events IH]; intros a Ha; [exact Ha |].
    simpl. apply IH. now apply handle_consistent. }
  apply H, begin_consistent.
Qed.

(** The timestamps that one call of [addSample] leaves in the window and
    hands to the listener are numbers when those it finds and the one it
    gets are. *)
Lemma addSample_numbers (d : Cadence.CadenceDetector) (timestamp kneeY : Q)
    (angles : option AngleSet.t) :
  Forall (fun s => JS.Number (Cadence.t s)) (Cadence.samples d) ->
  JS.Number timestamp ->
  let r := Cadence.addSample d timestamp kneeY angles in
  Forall (fun s => JS.Number (Cadence.t s)) (Cadence.samples (fst r)) /\
  Session.numbers (snd r).
Proof.
  intros Hd Hts. cbv zeta. rewrite Forall_forall in Hd. split.
  - rewrite addSample_samples. apply Forall_forall. intros s Hs.
    apply shift_while_before_incl in Hs. apply in_app_iff in Hs.
    destruct Hs as [Hs | [<- | []]]; [now apply Hd | exact Hts].
  - destruct (addSample_cases d timestamp kneeY angles)
      as [(-> & _) | (pt & pp & _ & Hpt & _ & _ & _ & _ & _ & ->)];
      [constructor |].
    destruct (_ && _); constructor; [| constructor].
    unfold Cadence.summarize. cbn [CycleSummary.timestamp].
    apply in_app_iff in Hpt. destruct Hpt as [Hpt | [<- | []]];
      [| exact Hts].
    apply in_map_iff in Hpt. destruct Hpt as (s & <- & Hs). now apply Hd.
Qed.

Lemma trimCycles_numbers (xs : list CycleSummary.t) :
  Session.numbers xs -> Session.numbers (Analysis.trimCycles xs).
Proof.
  unfold Session.numbers. rewrite !Forall_forall. intros H c Hc.
  apply H. now apply trimCycles_incl.
Qed.

(** Stopping a session whose timestamps are numbers does not show the
    second message. *)
Lemma stopSession_numbers (a : Main.App) :
  Forall (fun s => JS.Number (Cadence.t s))
         (Cadence.samples (Main.cadenceDetector a)) ->
  Session.numbers (Main.cycleData a) ->
  Recorded.numbers (Main.stopSession Math_pow Math_sqrt a).
Proof.
  intros Hs Hc. unfold Main.stopSession, Main.finalizeAnalysis.
  cbn [Main.cycleData Main.cameraSide Main.cadenceDetector Main.sideVotes
       Main.pedalingStopped Main.shown Main.currentState].
  destruct (Main.cycleData a) as [|c cs] eqn:Ecd.
  - simpl. split; [exact Hs |]. split; [constructor | discriminate].
  - change (length (c :: cs) =? 0)%nat with false. cbv iota zeta.
    assert (Hne : Analysis.trimCycles (c :: cs) <> []).
    { apply trimCycles_nonempty; [| discriminate].
      now apply numbers_firstTime. }
    pose proof (trimCycles_numbers _ Hc) as Ht.
    destruct (Analysis.trimCycles (c :: cs)) as [|c' cs']; [congruence |].
    change (length (c' :: cs') =? 0)%nat with false. cbv iota.
    split; [exact Hs |]. split; [exact Ht | discriminate].
Qed.

(** Every event whose timestamp is a number keeps the timestamps of the
    session numbers. *)
Lemma handle_numbers (a : Main.App) (e : Main.Event) :
  Recorded.numbers a ->
  Forall JS.Number (Recorded.frame_times [e]) ->
  Recorded.numbers (handle a e).
Proof.
  intros (Hs & Hc & Hshown) He. unfold handle, Main.handle.
  destruct e as [landmarks ts | |].
  - simpl in He. apply Forall_cons_iff in He. destruct He as [Hts _].
    unfold Main.onFrame. destruct (Main.currentState a).
    + set (side := Pose.detectVisibleSide landmarks).
      destruct (Angles.getKneeLandmark landmarks side) as [knee |];
        [| now repeat split].
      destruct (addSample_numbers (Main.cadenceDetector a) ts
                  (Angles.y knee) None Hs Hts) as [Hs1 _].
      destruct (Cadence.addSample _ ts (Angles.y knee) None)
        as [detector emitted].
      cbn [fst] in Hs1.
      destruct (Cadence.isSteady detector); now repeat split.
    + destruct (Main.cameraSide a) as [side |]; [| now repeat split].
      destruct (Angles.getKneeLandmark landmarks side) as [knee |];
        [| now repeat split].
      destruct (negb (Main.pedalingStopped a)); [| now repeat split].
      set (angles := Angles.computeAngles _ _ landmarks side aspectRatio).
      destruct (addSample_numbers (Main.cadenceDetector a) ts
                  (Angles.y knee) angles Hs Hts) as [Hs1 Hc1].
      destruct (Cadence.addSample _ ts (Angles.y knee) angles)
        as [detector emitted].
      cbn [fst snd] in Hs1, Hc1.
      assert (Hc2 : Session.numbers (Main.cycleData a ++ emitted))
        by (apply Forall_app; now split).
      cbn [Main.cycleData Main.cameraSide Main.cadenceDetector
           Main.sideVotes Main.pedalingStopped Main.shown
           Main.currentState].
      destruct (Cadence.hasStopped detector ts); [| now repeat split].
      now apply stopSession_numbers.
    + now repeat split.
  - destruct (Main.currentState a); try now repeat split.
    now apply stopSession_numbers.
  - repeat split; [constructor | constructor | discriminate].
Qed.

Lemma session_numbers (events : list Main.Event) :
  Forall JS.Number (Recorded.frame_times events) ->
  Recorded.numbers (session events).
Proof.
  unfold session, Main.session.
  assert (H : forall a, Recorded.numbers a ->
                Forall JS.Number (Recorded.frame_times events) ->
                Recorded.numbers (fold_left handle events a)).
  { induction events as [|e events IH]; intros a Ha He; [exact Ha |].
    change (e :: events) with ([e] ++ events) in He.
    unfold Recorded.frame_times in He. rewrite flat_map_app in He.
    apply Forall_app in He. destruct He as [He Hes].
    simpl fold_left. apply IH; [| exact Hes].
    now apply handle_numbers. }
  apply H. repeat split; [constructor | constructor | discriminate].
Qed.

End SessionInvariant.

Section SessionProperties.

Context {R : JS.Rounding}.

Variable Math_atan2 : Q -> Q -> Q.
Variable Math_PI : Q.
Variable Math_pow : Q -> Q -> Q.
Variable Math_sqrt : Q -> Q.
Variable aspectRatio : Q.

(** X18. Whatever the frames and the clicks since the page was loaded: while the
    session is detecting, no side is chosen and no cycle is recorded; once
    it records, and when it is complete, the side is the one that got the
    more votes, the left one on a tie, and the votes are those cast while
    detecting. *)
Theorem session_locks_majority_side (events : list Main.Event) :
  let a := Main.session Math_atan2 Math_PI Math_pow Math_sqrt aspectRatio events in
  (Main.currentState a = Main.DETECTING ->
   Main.cameraSide a = None /\ Main.cycleData a = [] /\
   Cadence.currentCycleAngles (Main.cadenceDetector a) = []) /\
  (Main.currentState a <> Main.DETECTING ->
   Main.cameraSide a = Some (Recorded.majority (Main.sideVotes a))).
Proof.
  cbv zeta.
  destruct (session_consistent Math_atan2 Math_PI Math_pow Math_sqrt aspectRatio events)
    as (_ & _ & _ & Hstate).
  destruct (Main.currentState _); split; intro H; try congruence; tauto.
Qed.

(** X19. The cycles that a session has recorded are numbered from 2 at least, in
    strictly increasing order and never beyond the cycle counter of the
    detector: the cycles of the detection phase are counted and not
    recorded.  Each recorded cadence is a whole number between 40 and 120.
    This holds before and after the trimming. *)
Theorem session_records_numbered_cycles (events : list Main.Event) :
  let a := Main.session Math_atan2 Math_PI Math_pow Math_sqrt aspectRatio events in
  Cycle.numbered_after 1 (Main.cycleData a) /\
  Forall (fun c => (CycleSummary.cycleNumber c
                    <= Cadence.cycleCount (Main.cadenceDetector a))%nat)
         (Main.cycleData a) /\
  Forall (Stream.whole_rpm_between 40 120) (Main.cycleData a).
Proof.
  cbv zeta.
  destruct (session_consistent Math_atan2 Math_PI Math_pow Math_sqrt aspectRatio events)
    as (_ & _ & Hcycles & _).
  exact Hcycles.
Qed.

(** X20. The page shows a result exactly when the session is complete.  Where
    the timestamps of the frames are numbers, it is then either the message
    that no cycle was captured, with no cycle kept, or the four
    recommendations computed from the trimmed cycles, and the message that
    no cycle is left after filtering never appears.  The flag
    [pedalingStopped] is only ever set in a complete session. *)
Theorem session_shows_result_when_complete (events : list Main.Event) :
  let a := Main.session Math_atan2 Math_PI Math_pow Math_sqrt aspectRatio events in
  (Main.shown a <> None <-> Main.currentState a = Main.COMPLETE) /\
  (Forall JS.Number (Recorded.frame_times events) ->
   Main.currentState a = Main.COMPLETE ->
   Recorded.outcome_of Math_pow Math_sqrt a) /\
  (Forall JS.Number (Recorded.frame_times events) ->
   Main.shown a <> Some Analysis.NoValidCyclesAfterFiltering) /\
  (Main.pedalingStopped a = true -> Main.currentState a = Main.COMPLETE).
Proof.
  cbv zeta.
  pose proof (session_numbers Math_atan2 Math_PI Math_pow Math_sqrt
                aspectRatio events) as Hnum.
  destruct (session_consistent Math_atan2 Math_PI Math_pow Math_sqrt aspectRatio events)
    as (_ & _ & _ & Hstate).
  destruct (Main.currentState _).
  - destruct Hstate as (_ & _ & Hshown & Hstopped & _).
    rewrite Hshown, Hstopped.
    repeat split; intros; congruence.
  - destruct Hstate as (_ & Hshown & Hstopped & _).
    rewrite Hshown, Hstopped.
    repeat split; intros; congruence.
  - destruct Hstate as (_ & Hout).
    split; [split; [reflexivity |] |].
    + intros _.
      destruct Hout as [[[_ ->] | (_ & -> & _)] | [_ ->]]; discriminate.
    + split; [| split; [| reflexivity]].
      * intros Hn _. destruct (Hnum Hn) as (_ & _ & Hshown).
        destruct Hout as [Hout | [_ E]]; [exact Hout | contradiction].
      * intro Hn. exact (proj2 (proj2 (Hnum Hn))).
Qed.

End SessionProperties.


(** Twelve seconds of pedalling: the left side is chosen after 46 frames
    and the cycles 4 to 10 are recorded.  A click on the stop button then
    ends the session: the trimming keeps the cycles 4 and 5 and four
    recommendations are shown. *)
Example session_stopped_by_click :
  let R := doubles in
  let session :=
    Main.session Vectors.reduced_atan2 Vectors.any_PI Vectors.any_pow Vectors.any_sqrt 2 in
  Vectors.digest (session Vectors.pedalling)
  = (Main.RECORDING, Some Angles.Left, (46, 0)%nat, false,
     [4; 5; 6; 7; 8; 9; 10]%nat,
     [5000; 6000; 7000; 8000; 9000; 10000; 11000], 0%nat) /\
  Vectors.digest (session (Vectors.pedalling ++ [Main.ClickStop]))
  = (Main.COMPLETE, Some Angles.Left, (46, 0)%nat, false,
     [4; 5]%nat, [5000; 6000], 4%nat).
Proof. intro R. vm_compute. split; reflexivity. Qed.

(** The same pedalling followed by three seconds of coasting: the session
    stops by itself; a click on the reset button starts over. *)
Example session_stopped_by_coasting :
  let R := doubles in
  let session :=
    Main.session Vectors.reduced_atan2 Vectors.any_PI Vectors.any_pow Vectors.any_sqrt 2 in
  Vectors.digest (session (Vectors.pedalling ++ Vectors.coasting))
  = (Main.COMPLETE, Some Angles.Left, (46, 0)%nat, true,
     [4; 5]%nat, [5000; 6000], 4%nat) /\
  Vectors.digest
    (session (Vectors.pedalling ++ Vectors.coasting ++ [Main.ClickReset]))
  = (Main.DETECTING, None, (0, 0)%nat, false, [], [], 0%nat).
Proof. intro R. vm_compute. split; reflexivity. Qed.

(** ** Cycle segmentation engine: the order of the summaries *)

Section SummaryOrder.

Context {R : JS.Rounding}.

Import Cadence.

Lemma shift_is_skipn {A : Type} (time : A -> Q) (cutoff : Q) (xs : list A) :
  exists k, (k <= length xs)%nat /\
            shift_while_before time cutoff xs = skipn k xs.
Proof.
  induction xs as [|a xs IH]; simpl.
  - exists 0%nat. split; [lia | reflexivity].
  - destruct (JS.ltb (time a) cutoff).
    + destruct IH as (k & Hk & E). exists (S k). split; [lia | exact E].
    + exists 0%nat. split; [lia | reflexivity].
Qed.

Lemma last_opt_skipn {A : Type} (k : nat) (xs : list A) (x : A) :
  JS.last_opt (skipn k xs) = Some x -> JS.last_opt xs = Some x.
Proof.
  revert xs. induction k as [|k IH]; intros xs H; [exact H |].
  destruct xs as [|a xs]; [discriminate |].
  simpl skipn in H. specialize (IH xs H).
  destruct xs as [|b xs]; [discriminate |].
  unfold JS.last_opt in IH |- *. injection IH as <-. f_equal.
  apply last_cons_default.
Qed.

(** The newest samples of a later window are newest samples of the earlier
    one, or the sample just added. *)
Lemma newest_of_next (k : nat) (xs : list Sample) (x s : Sample) :
  In s (Stream.newest (skipn k (xs ++ [x]))) ->
  In s (Stream.newest xs) \/ s = x.
Proof.
  unfold Stream.newest. rewrite skipn_skipn, length_skipn, length_app.
  simpl length. rewrite skipn_app. intro H. apply in_app_iff in H.
  destruct H as [H | H].
  - left.
    assert (Hle : (length xs - 5 <= length xs + 1 - k - 5 + k)%nat) by lia.
    replace (length xs + 1 - k - 5 + k)%nat
      with ((length xs + 1 - k - 5 + k - (length xs - 5))
            + (length xs - 5))%nat in H by lia.
    rewrite <- skipn_skipn in H. now apply in_skipn in H.
  - right. apply in_skipn in H. destruct H as [H | []]. now symmetry.
Qed.

Lemma nth_in_skipn {A : Type} (n : nat) (xs : list A) (d : A) :
  (n < length xs)%nat -> In (nth n xs d) (skipn n xs).
Proof.
  revert xs. induction n as [|n IH]; intros [|a xs] H; simpl in *; try lia.
  - now left.
  - apply IH. lia.
Qed.

(** In a window in order, what comes after an index is not earlier than
    the sample at this index. *)
Lemma sorted_after (xs : list Sample) (n : nat) (d s : Sample) :
  StronglySorted Qle (map t xs) -> (n < length xs)%nat ->
  In s (skipn (S n) xs) -> t (nth n xs d) <= t s.
Proof.
  revert xs. induction n as [|n IH]; intros [|a xs] Hs Hn Hin;
    simpl in *; try lia; try contradiction.
  - apply StronglySorted_inv in Hs. destruct Hs as [_ Ha].
    rewrite Forall_map, Forall_forall in Ha. now apply Ha.
  - apply StronglySorted_inv in Hs. destruct Hs as [Hs _].
    apply IH; [exact Hs | lia | exact Hin].
Qed.

(** The candidate of [_detectPeaks] in the window that [addSample] has just
    updated: it is one of the five newest samples of the window before, and
    no sample of the five newest now is earlier. *)
Lemma candidate_position (xs : list Sample) (x : Sample) (k : nat) :
  StronglySorted Qle (map t (xs ++ [x])) ->
  (11 <= length (skipn k (xs ++ [x])))%nat ->
  let window := skipn k (xs ++ [x]) in
  let c := nth (length window - 1 - 5) window (mkSample 0 0) in
  In c (Stream.newest xs) /\
  In c window /\
  forall s, In s (Stream.newest window) -> t c <= t s.
Proof.
  intros Hs Hlen window c. unfold c, window in *.
  rewrite length_skipn, length_app in *. simpl length in *.
  rewrite nth_skipn.
  replace (k + (length xs + 1 - k - 1 - 5))%nat with (length xs - 5)%nat by lia.
  split; [| split].
  - rewrite app_nth1 by lia. unfold Stream.newest. apply nth_in_skipn. lia.
  - replace (length xs - 5)%nat with (k + (length xs - 5 - k))%nat by lia.
    rewrite <- nth_skipn. apply nth_In. rewrite length_skipn, length_app.
    simpl. lia.
  - intros s Hin. unfold Stream.newest in Hin.
    rewrite skipn_skipn, length_skipn, length_app in Hin. simpl length in Hin.
    replace (length xs + 1 - k - 5 + k)%nat with (S (length xs - 5))%nat
      in Hin by lia.
    apply sorted_after; [exact Hs | | exact Hin].
    rewrite length_app. simpl. lia.
Qed.

(** [_detectPeaks] once more, with what becomes of the peaks: the history
    that the first phase leaves, as it is or with its front evicted. *)
Lemma detectPeaks_trace (d : CadenceDetector) (timestamp : Q) :
  let r := _detectPeaks d timestamp in
  let tc := t (Cycle.candidate d) in
  exists history,
    (peaks (fst r) = history \/
     exists k, peaks (fst r) = skipn k history) /\
    samples (fst r) = samples d /\
    ((history = peaks d /\ snd r = []) \/
     ((11 <= length (samples d))%nat /\ history = peaks d ++ [tc] /\
      (snd r = [] \/
       exists p c,
         JS.last_opt (peaks d) = Some p /\ Cycle.in_band (JS.sub tc p) /\
         CycleSummary.timestamp c = tc /\ snd r = [c]))).
Proof.
  cbv zeta. unfold _detectPeaks.
  destruct (Nat.ltb_spec (length (samples d)) (5 * 2 + 1)) as [L | L].
  { exists (peaks d). split; [now left |]. split; [reflexivity |].
    left. split; reflexivity. }
  cbv zeta. fold (Cycle.candidate d). set (tc := t (Cycle.candidate d)).
  match goal with
  | |- context [let '(_, _) := ?X in _] =>
      assert (Hfirst :
        samples (fst X) = samples d /\
        ((peaks (fst X) = peaks d /\ snd X = []) \/
         (peaks (fst X) = peaks d ++ [tc] /\
          (snd X = [] \/
           exists p c,
             JS.last_opt (peaks d) = Some p /\ Cycle.in_band (JS.sub tc p) /\
             CycleSummary.timestamp c = tc /\ snd X = [c]))));
      [| destruct X as [d1 out]]
  end.
  { match goal with
    | |- samples (fst (if ?c then _ else _)) = _ /\ _ => destruct c
    end; [| split; [| left; split]; reflexivity].
    destruct (gap_ok (peaks d) tc); [| split; [| left; split]; reflexivity].
    set (pushed := set_peaks d (peaks d ++ [tc])).
    destruct (checkCycleComplete_frame pushed tc) as (Es & Ep & _ & _).
    rewrite Es, Ep. split; [reflexivity |]. right. split; [reflexivity |].
    destruct (checkCycleComplete_cases pushed tc)
      as [[_ E] | (Hlen & Hband & E)]; rewrite E; cbn [snd]; [now left |].
    destruct (_ && _); [right | now left].
    destruct (JS.last_opt (peaks d)) as [p |] eqn:Elast.
    - exists p. eexists. split; [reflexivity |].
      destruct (last_opt_nth (peaks d) p tc Elast) as [_ Hnth].
      unfold Cycle.period_of in Hband. simpl peaks in Hband.
      rewrite Hnth in Hband. split; [exact Hband |].
      split. 2: reflexivity. reflexivity.
    - exfalso. destruct (peaks d); [simpl in Hlen; lia | discriminate]. }
  cbn [fst snd] in Hfirst. destruct Hfirst as [Hs Hp].
  exists (peaks d1). split.
  - right.
    match goal with
    | |- context [if ?c then (if ?g then _ else _) else _] =>
        destruct c; [destruct g |]
    end; unfold set_troughs, set_peaks; cbn [fst peaks];
      destruct (shift_is_skipn (fun p : Q => p)
                  (JS.sub timestamp (JS.mul WINDOW_DURATION_MS 2)) (peaks d1))
        as (k & _ & ->); now exists k.
  - split.
    + match goal with
      | |- context [if ?c then (if ?g then _ else _) else _] =>
          destruct c; [destruct g |]
      end; unfold set_troughs, set_peaks; cbn [fst samples]; exact Hs.
    + destruct Hp as [[-> ->] | [-> Hout]].
      * left. split; [reflexivity |].
        match goal with
        | |- context [if ?c then (if ?g then _ else _) else _] =>
            destruct c; [destruct g |]
        end; reflexivity.
      * right. split; [lia |]. split; [reflexivity |].
        match goal with
        | |- context [if ?c then (if ?g then _ else _) else _] =>
            destruct c; [destruct g |]
        end; cbn [snd]; exact Hout.
Qed.

Lemma window_extend (now timestamp kneeY : Q) (xs : list Sample) :
  Stream.window_until now xs -> now <= timestamp ->
  StronglySorted Qle (map t (xs ++ [mkSample timestamp kneeY])).
Proof.
  intros [Hsorted Hbound] Hnow. rewrite map_app. simpl.
  induction xs as [|s ss IH]; simpl.
  - repeat constructor.
  - simpl in Hsorted. apply StronglySorted_inv in Hsorted.
    destruct Hsorted as [Hs Hle].
    apply Forall_cons_iff in Hbound. destruct Hbound as [Hb Hbound].
    constructor; [now apply IH |].
    apply Forall_app. split; [exact Hle |].
    constructor; [| constructor]. lra.
Qed.

Lemma sorted_snoc (xs : list Q) (x : Q) :
  StronglySorted Qlt xs -> Forall (fun v => v < x) xs ->
  StronglySorted Qlt (xs ++ [x]).
Proof.
  induction xs as [|a xs IH]; intros Hs Hlt; simpl.
  - repeat constructor.
  - apply StronglySorted_inv in Hs. destruct Hs as [Hs Ha].
    apply Forall_cons_iff in Hlt. destruct Hlt as [Hax Hlt].
    constructor; [now apply IH |].
    apply Forall_app. split; [exact Ha | now repeat constructor].
Qed.

(** What one call of [addSample] does to the history of peaks and what it
    emits. *)
Lemma addSample_trace (d : CadenceDetector) (timestamp kneeY : Q)
    (angles : option AngleSet.t) :
  let r := addSample d timestamp kneeY angles in
  let d0 := Cycle.entered d timestamp kneeY angles in
  let tc := t (Cycle.candidate d0) in
  exists history,
    (peaks (fst r) = history \/
     exists k, peaks (fst r) = skipn k history) /\
    ((history = peaks d /\ snd r = []) \/
     ((11 <= length (samples d0))%nat /\ history = peaks d ++ [tc] /\
      (snd r = [] \/
       exists p c,
         JS.last_opt (peaks d) = Some p /\ Cycle.in_band (JS.sub tc p) /\
         CycleSummary.timestamp c = tc /\ snd r = [c]))).
Proof.
  cbv zeta. rewrite addSample_entered. cbv zeta.
  set (d0 := Cycle.entered d timestamp kneeY angles).
  destruct (length (samples d0) <? 10)%nat.
  - exists (peaks d). split; [now left |]. left. split; reflexivity.
  - destruct (detectPeaks_trace d0 timestamp) as (history & H1 & _ & H2).
    exists history. split; [exact H1 | exact H2].
Qed.

(** One call of [addSample] with a timestamp that is not earlier than the
    ones before keeps the summaries in order. *)
Lemma in_order_step (d : CadenceDetector) (out : list CycleSummary.t)
    (now timestamp kneeY : Q) (angles : option AngleSet.t) :
  Stream.in_order now d out -> now <= timestamp ->
  Stream.in_order timestamp (fst (addSample d timestamp kneeY angles))
    (out ++ snd (addSample d timestamp kneeY angles)).
Proof.
  intros (Hw & Hk & Hj & Hsorted) Hnow.
  destruct (window_step d now timestamp kneeY angles Hw Hnow)
    as (Hw1 & _ & _ & _).
  pose proof (window_extend now timestamp kneeY (samples d) Hw Hnow) as HL.
  pose proof (addSample_samples d timestamp kneeY angles) as Hsamples.
  destruct (shift_is_skipn t (JS.sub timestamp WINDOW_DURATION_MS)
              (samples d ++ [mkSample timestamp kneeY])) as (k & _ & Hk0).
  rewrite Hk0 in Hsamples.
  assert (Hnew : forall s,
            In s (Stream.newest (samples (fst (addSample d timestamp kneeY
                                                 angles)))) ->
            In s (Stream.newest (samples d)) \/ s = mkSample timestamp kneeY).
  { intros s Hs. rewrite Hsamples in Hs. now apply newest_of_next in Hs. }
  assert (Hold_peak : forall p, In p (peaks d) ->
            p <= timestamp /\
            forall s, In s (Stream.newest (samples (fst (addSample d timestamp
                                                       kneeY angles)))) ->
                      p <= t s).
  { intros p Hp. destruct (Hk p Hp) as [Hpn Hps]. split; [lra |].
    intros s Hs. destruct (Hnew s Hs) as [H | ->];
      [now apply Hps | simpl; lra]. }
  assert (Hold_out : forall c, In c out ->
            CycleSummary.timestamp c <= timestamp /\
            forall s, In s (Stream.newest (samples (fst (addSample d timestamp
                                                       kneeY angles)))) ->
                      CycleSummary.timestamp c <= t s).
  { intros c Hc. destruct (Hj c Hc) as (Hcn & Hcs & _). split; [lra |].
    intros s Hs. destruct (Hnew s Hs) as [H | ->];
      [now apply Hcs | simpl; lra]. }
  destruct (addSample_trace d timestamp kneeY angles)
    as (history & Hpeaks & Hcases).
  cbv zeta in Hcases.
  set (r := addSample d timestamp kneeY angles) in *.
  set (d0 := Cycle.entered d timestamp kneeY angles) in *.
  assert (Hincl : forall p, In p (peaks (fst r)) -> In p history).
  { intros p Hp. destruct Hpeaks as [E | [j E]]; rewrite E in Hp;
      [exact Hp | now apply in_skipn in Hp]. }
  assert (Hlast : forall q, JS.last_opt (peaks (fst r)) = Some q ->
                            JS.last_opt history = Some q).
  { intros q Hq. destruct Hpeaks as [E | [j E]]; rewrite E in Hq;
      [exact Hq | now apply last_opt_skipn in Hq]. }
  destruct Hcases as [[-> ->] | (Hlen & -> & Hout)].
  - rewrite app_nil_r. split; [exact Hw1 |]. split; [| split].
    + intros p Hp. apply Hold_peak. now apply Hincl.
    + intros c Hc. destruct (Hold_out c Hc) as [H1 H2].
      split; [exact H1 |]. split; [exact H2 |].
      intros q Hq. destruct (Hj c Hc) as (_ & _ & H3). now apply H3, Hlast.
    + exact Hsorted.
  - assert (Hd0 : samples d0 = skipn k (samples d ++ [mkSample timestamp kneeY]))
      by exact Hk0.
    rewrite Hd0 in Hlen.
    destruct (candidate_position (samples d) (mkSample timestamp kneeY) k HL
                Hlen) as (Hc1 & Hc2 & Hc3).
    cbv zeta in Hc1, Hc2, Hc3. rewrite <- Hd0 in Hc1, Hc2, Hc3.
    fold (Cycle.candidate d0) in Hc1, Hc2, Hc3.
    set (tc := t (Cycle.candidate d0)) in *.
    assert (Htc : tc <= timestamp).
    { destruct Hw1 as [_ Hb]. rewrite Forall_forall in Hb.
      apply Hb. fold r. rewrite Hsamples, <- Hd0. exact Hc2. }
    assert (Htc_new : forall s, In s (Stream.newest (samples (fst r))) ->
                                tc <= t s).
    { intros s Hs. apply Hc3. now rewrite Hd0, <- Hsamples. }
    assert (Hk1 : forall p, In p (peaks (fst r)) ->
              p <= timestamp /\
              forall s, In s (Stream.newest (samples (fst r))) -> p <= t s).
    { intros p Hp. apply Hincl, in_app_iff in Hp.
      destruct Hp as [Hp | [<- | []]]; [now apply Hold_peak |].
      split; [exact Htc | exact Htc_new]. }
    assert (Hq : forall q, JS.last_opt (peaks (fst r)) = Some q -> q = tc).
    { intros q Hq. apply Hlast in Hq. rewrite last_opt_app in Hq. congruence. }
    assert (Hout_tc : forall c, In c out -> CycleSummary.timestamp c <= tc).
    { intros c Hc. destruct (Hj c Hc) as (_ & H2 & _). now apply H2. }
    destruct Hout as [-> | (p & c & Hp & Hband & Hct & ->)].
    + rewrite app_nil_r. split; [exact Hw1 |]. split; [exact Hk1 |].
      split; [| exact Hsorted].
      intros c Hc. destruct (Hold_out c Hc) as [H1 H2].
      split; [exact H1 |]. split; [exact H2 |].
      intros q Hq'. rewrite (Hq q Hq'). now apply Hout_tc.
    + apply in_band_later in Hband.
      assert (Hlt : forall c', In c' out -> CycleSummary.timestamp c' < tc).
      { intros c' Hc'. destruct (Hj c' Hc') as (_ & _ & H3).
        specialize (H3 p Hp). lra. }
      split; [exact Hw1 |]. split; [exact Hk1 |]. split.
      * intros c' Hc'. apply in_app_iff in Hc'.
        destruct Hc' as [Hc' | [<- | []]].
        -- destruct (Hold_out c' Hc') as [H1 H2].
           split; [exact H1 |]. split; [exact H2 |].
           intros q Hq'. rewrite (Hq q Hq'). now apply Hout_tc.
        -- rewrite Hct. split; [exact Htc |]. split; [exact Htc_new |].
           intros q Hq'. rewrite (Hq q Hq'). apply Qle_refl.
      * rewrite map_app. simpl. rewrite Hct.
        apply sorted_snoc; [exact Hsorted |].
        apply Forall_map, Forall_forall. exact Hlt.
Qed.

Lemma in_order_later (now later : Q) (d : CadenceDetector)
    (out : list CycleSummary.t) :
  Stream.in_order now d out -> now <= later -> Stream.in_order later d out.
Proof.
  intros ([Hs Hb] & Hk & Hj & Hsorted) Hle. split; [split |].
  - exact Hs.
  - eapply Forall_impl; [| exact Hb]. intros s Hsb. simpl in Hsb. lra.
  - split; [| split; [| exact Hsorted]].
    + intros p Hp. destruct (Hk p Hp) as [H1 H2]. split; [lra | exact H2].
    + intros c Hc. destruct (Hj c Hc) as (H1 & H2 & H3).
      split; [lra |]. split; [exact H2 | exact H3].
Qed.

Lemma sorted_prefix (xs ys : list Q) :
  StronglySorted Qlt (xs ++ ys) -> StronglySorted Qlt xs.
Proof.
  induction xs as [|x xs IH]; intro H; [constructor |].
  simpl in H. apply StronglySorted_inv in H. destruct H as [H Hx].
  apply Forall_app in Hx. constructor; [now apply IH | tauto].
Qed.

Lemma in_order_prefix (now : Q) (d : CadenceDetector)
    (out more : list CycleSummary.t) :
  Stream.in_order now d (out ++ more) -> Stream.in_order now d out.
Proof.
  intros (Hw & Hk & Hj & Hsorted). split; [exact Hw |]. split; [exact Hk |].
  split.
  - intros c Hc. apply Hj, in_app_iff. now left.
  - rewrite map_app in Hsorted. now apply sorted_prefix in Hsorted.
Qed.

(** A detector with an empty window and an empty history is in order with
    whatever came out before. *)
Lemma in_order_fresh (now : Q) (d0 d : CadenceDetector)
    (out : list CycleSummary.t) :
  Stream.in_order now d0 out -> samples d = [] -> peaks d = [] ->
  Stream.in_order now d out.
Proof.
  intros (_ & _ & Hj & Hsorted) Hs Hp. unfold Stream.in_order.
  rewrite Hs, Hp. split; [split; constructor |].
  split; [intros p [] |]. split; [| exact Hsorted].
  intros c Hc. destruct (Hj c Hc) as (H1 & _ & _).
  split; [exact H1 |]. split; [intros s [] | intros p Hp'; discriminate].
Qed.

Lemma sorted_from_head (x0 : Q) (xs : list Q) :
  StronglySorted Qle xs -> StronglySorted Qle (hd x0 xs :: xs).
Proof.
  intro H. destruct xs as [|x xs]; [repeat constructor |].
  simpl. constructor; [exact H |].
  apply StronglySorted_inv in H. destruct H as [_ Hx].
  constructor; [apply Qle_refl | exact Hx].
Qed.

Lemma in_order_run (calls : list Call) :
  forall (d : CadenceDetector) (out : list CycleSummary.t) (now : Q),
    Stream.in_order now d out ->
    StronglySorted Qle (now :: Stream.times calls) ->
    exists later,
      Stream.in_order later (fst (run d calls)) (out ++ snd (run d calls)).
Proof.
  induction calls as [|c calls IH]; intros d out now Hin Hs.
  - exists now. simpl. now rewrite app_nil_r.
  - simpl run. destruct (call d c) as [d1 out1] eqn:E1.
    destruct c as [| | ts y a]; simpl in E1.
    + injection E1 as <- <-.
      destruct (IH reset out now) as [later Hl];
        [now apply (in_order_fresh now d) | exact Hs |].
      exists later. destruct (run reset calls) as [d2 out2]. exact Hl.
    + injection E1 as <- <-.
      destruct (IH (onCycle d) out now) as [later Hl]; [exact Hin | exact Hs |].
      exists later. destruct (run (onCycle d) calls) as [d2 out2]. exact Hl.
    + simpl in Hs. apply StronglySorted_inv in Hs. destruct Hs as [Hs Hnow].
      apply Forall_cons_iff in Hnow. destruct Hnow as [Hnow _].
      pose proof (in_order_step d out now ts y a Hin Hnow) as Hstep.
      rewrite E1 in Hstep. cbn [fst snd] in Hstep.
      destruct (IH d1 (out ++ out1) ts Hstep Hs) as [later Hl].
      exists later. destruct (run d1 calls) as [d2 out2].
      cbn [fst snd] in *. now rewrite app_assoc.
Qed.

(** X21. When the timestamps handed to [addSample] never decrease, the summaries
    come out in strictly increasing order of their timestamps, however the
    calls of [reset], [onCycle] and [addSample] alternate. *)
Theorem summaries_in_order (calls : list Call) :
  StronglySorted Qle (Stream.times calls) ->
  StronglySorted Qlt
    (map CycleSummary.timestamp (snd (run reset calls))).
Proof.
  intro Hs.
  destruct (in_order_run calls reset [] (hd 0 (Stream.times calls)))
    as (later & _ & _ & _ & Hsorted).
  - split; [split; constructor |]. split; [intros p [] |].
    split; [intros c [] | constructor].
  - now apply sorted_from_head.
  - exact Hsorted.
Qed.

End SummaryOrder.

Lemma times_addSamples (fs : list (Q * Q * option AngleSet.t)) :
  Stream.times (Cycle.addSamples fs) = map Stream.time_of fs.
Proof.
  induction fs as [|f fs IH]; [reflexivity |].
  simpl. now rewrite <- IH.
Qed.

(** The summaries of the ride come out in order. *)
Lemma summaries_in_order_witness :
  let R := doubles in
  StronglySorted Qle (Stream.times (Vectors.ride 0 47)) /\
  StronglySorted Qlt
    (map CycleSummary.timestamp
         (snd (Cadence.run Cadence.reset (Vectors.ride 0 47)))).
Proof.
  intro R.
  assert (H : StronglySorted Qle (Stream.times (Vectors.ride 0 47))).
  { unfold Vectors.ride. change (Stream.times (Cadence.CallOnCycle :: ?l))
      with (Stream.times l).
    rewrite times_addSamples.
    apply (frames_chronological 0 100 47). unfold Qle. simpl. lia. }
  split; [exact H |].
  exact (summaries_in_order (Vectors.ride 0 47) H).
Defined.

(** ** Session: the order of the recorded cycles *)

Section SessionOrder.

Context {R : JS.Rounding}.

Variable Math_atan2 : Q -> Q -> Q.
Variable Math_PI : Q.
Variable Math_pow : Q -> Q -> Q.
Variable Math_sqrt : Q -> Q.
Variable aspectRatio : Q.

Lemma sorted_filter (f : CycleSummary.t -> bool) (xs : list CycleSummary.t) :
  StronglySorted Qlt (map CycleSummary.timestamp xs) ->
  StronglySorted Qlt (map CycleSummary.timestamp (filter f xs)).
Proof.
  induction xs as [|c xs IH]; intro Hs; [constructor |].
  simpl in Hs. apply StronglySorted_inv in Hs. destruct Hs as [Hs Hc].
  cbn [filter]. destruct (f c); [| now apply IH].
  simpl. constructor; [now apply IH |].
  apply Forall_map, Forall_forall. intros c' Hc'. apply filter_In in Hc'.
  rewrite Forall_map, Forall_forall in Hc. now apply Hc.
Qed.

Lemma sorted_trim (xs : list CycleSummary.t) :
  StronglySorted Qlt (map CycleSummary.timestamp xs) ->
  StronglySorted Qlt (map CycleSummary.timestamp (Analysis.trimCycles xs)).
Proof.
  intro Hs. destruct (short_dec xs) as [H | H].
  - now rewrite (trimCycles_short xs H).
  - rewrite (trimCycles_filter xs H). now apply sorted_filter.
Qed.

Lemma stopSession_in_order (now : Q) (a : Main.App) :
  StronglySorted Qlt (map CycleSummary.timestamp (Main.cycleData a)) ->
  Recorded.cycles_in_order now (Main.stopSession Math_pow Math_sqrt a).
Proof.
  intro Hs. unfold Main.stopSession, Main.finalizeAnalysis.
  cbn [Main.cycleData Main.cameraSide Main.cadenceDetector Main.sideVotes
       Main.pedalingStopped Main.shown Main.currentState].
  destruct (length (Main.cycleData a) =? 0)%nat;
    [| destruct (length (Analysis.trimCycles (Main.cycleData a)) =? 0)%nat];
    (split; [cbn [Main.cycleData] | cbn [Main.currentState]; congruence]);
    [exact Hs | now apply sorted_trim | now apply sorted_trim].
Qed.

Lemma onFrame_in_order (now timestamp : Q) (a : Main.App)
    (landmarks : list (option Angles.Landmark)) :
  Recorded.cycles_in_order now a -> now <= timestamp ->
  Recorded.cycles_in_order timestamp
    (Main.onFrame Math_atan2 Math_PI Math_pow Math_sqrt aspectRatio a landmarks
                  timestamp).
Proof.
  intros [Hs Hin] Hnow. unfold Main.onFrame.
  assert (Hkeep : Main.currentState a <> Main.COMPLETE ->
                  Recorded.cycles_in_order timestamp a).
  { intro Hne. split; [exact Hs |]. intros _.
    now apply (in_order_later now); [apply Hin |]. }
  destruct (Main.currentState a) eqn:Estate.
  - specialize (Hin ltac:(discriminate)).
    destruct (Angles.getKneeLandmark landmarks _) as [knee |].
    + pose proof (in_order_step (Main.cadenceDetector a) (Main.cycleData a)
                    now timestamp (Angles.y knee) None Hin Hnow) as Hstep.
      destruct (Cadence.addSample (Main.cadenceDetector a) timestamp (Angles.y knee)
                          None) as [detector emitted].
      cbn [fst snd] in Hstep. apply in_order_prefix in Hstep.
      destruct (Cadence.isSteady detector); split; cbn; intros; assumption.
    + split; [exact Hs |]. intros _. cbn.
      now apply (in_order_later now).
  - specialize (Hin ltac:(discriminate)).
    destruct (Main.cameraSide a) as [side |] eqn:Eside;
      [| apply Hkeep; discriminate].
    destruct (Angles.getKneeLandmark landmarks side) as [knee |];
      [| apply Hkeep; discriminate].
    destruct (negb (Main.pedalingStopped a));
      [| apply Hkeep; discriminate].
    pose proof (in_order_step (Main.cadenceDetector a) (Main.cycleData a)
                  now timestamp (Angles.y knee)
                  (Angles.computeAngles Math_atan2 Math_PI landmarks side
                     aspectRatio) Hin Hnow) as Hstep.
    destruct (Cadence.addSample (Main.cadenceDetector a) timestamp (Angles.y knee) _)
      as [detector emitted].
    cbn [fst snd] in Hstep.
    destruct (Cadence.hasStopped detector timestamp).
    + apply stopSession_in_order. cbn [Main.cycleData].
      now destruct Hstep as (_ & _ & _ & H).
    + split; cbn; [now destruct Hstep as (_ & _ & _ & H) | intros _; exact Hstep].
  - split; [exact Hs | intro H; congruence].
Qed.

Lemma session_in_order (events : list Main.Event) :
  forall (a : Main.App) (now : Q),
    Recorded.cycles_in_order now a ->
    StronglySorted Qle (now :: Recorded.frame_times events) ->
    StronglySorted Qlt
      (map CycleSummary.timestamp
           (Main.cycleData
              (fold_left (Main.handle Math_atan2 Math_PI Math_pow Math_sqrt aspectRatio)
                         events a))).
Proof.
  induction events as [|e events IH]; intros a now Hin Hs.
  - exact (proj1 Hin).
  - cbn [fold_left]. destruct e as [landmarks timestamp | |].
    + simpl in Hs. apply StronglySorted_inv in Hs. destruct Hs as [Hs Hnow].
      apply Forall_cons_iff in Hnow. destruct Hnow as [Hnow _].
      apply (IH _ timestamp); [| exact Hs].
      now apply (onFrame_in_order now).
    + apply (IH _ now); [| exact Hs]. cbn [Main.handle].
      destruct (Main.currentState a) eqn:Estate; try exact Hin.
      apply stopSession_in_order. exact (proj1 Hin).
    + apply (IH _ now); [| exact Hs]. cbn [Main.handle].
      split; [constructor |]. intros _. cbn.
      split; [split; constructor |]. split; [intros p [] |].
      split; [intros c [] | constructor].
Qed.

(** X22. When the frames arrive with timestamps that never decrease, the cycles
    that a session holds are in strictly increasing order of their
    timestamps, during the recording and after the trimming: the first
    cycle is the earliest and the last one the latest, as [trimCycles]
    takes them to be. *)
Theorem session_cycles_in_order (events : list Main.Event) :
  StronglySorted Qle (Recorded.frame_times events) ->
  let a := Main.session Math_atan2 Math_PI Math_pow Math_sqrt aspectRatio events in
  StronglySorted Qlt (map CycleSummary.timestamp (Main.cycleData a)).
Proof.
  intro Hs. cbv zeta. unfold Main.session.
  apply (session_in_order events _ (hd 0 (Recorded.frame_times events))).
  - split; [constructor |]. intros _. cbn.
    split; [split; constructor |]. split; [intros p [] |].
    split; [intros c [] | constructor].
  - now apply sorted_from_head.
Qed.

End SessionOrder.

Lemma film_chronological (trace : nat -> Q) (first n : nat) :
  StronglySorted Qle (Recorded.frame_times (Vectors.film trace first n)).
Proof.
  unfold Vectors.film. revert first.
  induction n as [|n IH]; intro first; simpl; [constructor |].
  constructor; [apply IH |].
  apply Forall_forall. intros x Hx.
  assert (Hall : forall m k, In x (Recorded.frame_times
                   (map (fun i => Main.Frame (Vectors.pose trace i)
                                   (100 * inject_Z (Z.of_nat i)))
                        (seq m k))) ->
                 100 * inject_Z (Z.of_nat m) <= x).
  { clear. intros m k. revert m. induction k as [|k IHk]; intros m H;
      [contradiction |].
    simpl in H. destruct H as [<- | H]; [apply Qle_refl |].
    apply IHk in H.
    assert (inject_Z (Z.of_nat m) <= inject_Z (Z.of_nat (S m)))
      by (rewrite <- Zle_Qle; lia).
    lra. }
  apply Hall in Hx.
  assert (inject_Z (Z.of_nat first) <= inject_Z (Z.of_nat (S first)))
    by (rewrite <- Zle_Qle; lia).
  lra.
Qed.

(** The cycles of twelve seconds of pedalling are recorded in order. *)
Lemma session_cycles_in_order_witness :
  let R := doubles in
  StronglySorted Qle (Recorded.frame_times Vectors.pedalling) /\
  StronglySorted Qlt
    (map CycleSummary.timestamp
         (Main.cycleData
            (Main.session Vectors.reduced_atan2 Vectors.any_PI
                          Vectors.any_pow Vectors.any_sqrt 2 Vectors.pedalling))).
Proof.
  intro R.
  assert (H : StronglySorted Qle (Recorded.frame_times Vectors.pedalling))
    by apply film_chronological.
  split; [exact H |].
  exact (session_cycles_in_order Vectors.reduced_atan2 Vectors.any_PI
           Vectors.any_pow Vectors.any_sqrt 2 Vectors.pedalling H).
Defined.
